(** * The question scoreboard of the conference bot

    A shallow embedding of [Scoreboard] (src/db/backendDb.ts, the part that
    starts at the Apache licence header): the per-room vote tables, the
    ranking recomputation, the reaction and redaction handlers, and the
    snapshot persistence, followed by the properties proved about them.

    Conventions of the embedding.
    - A JavaScript object used as a table ([byRoom], [byRoomCached]) is a
      [gmap string _]. Room ids are Matrix room ids (they start with [!]),
      so a key never collides with a member of [Object.prototype].
    - Arrays are lists; [push] appends at the end.
    - An optional field ([senderName?], [qaStartTime?]) is an [option];
      [None] stands for both an absent field and [undefined].
    - [qaStartTime] is an epoch in milliseconds: an integer, modelled in [Z];
      a score is a difference of two array lengths, in [Z] as well.
    - Strings are compared for equality only; they are byte strings (UTF-8).
    - Values whose shape the code inspects at run time (event contents, the
      parsed snapshot) are kept untyped, in [value]; the numbers of a
      [value] are integers.
    - A file holds a JSON document, the torn prefix of one, or a text that
      is not JSON; [JSON.parse] gives back the value that [JSON.stringify]
      was given.
    - What the class takes from outside (the permalink builder, the emoji
      comparison of ./utils, URI encoding, the homeserver URL, the data
      path of the configuration) is a field of the class [Collaborators].
    - The tables are typed: [byRoom] holds the rooms that have the shape of
      a [RoomScoreboard]. Only [load] can store a value of another shape;
      the typed table then has no entry for that room, and what the
      program does with such a value later on is not modelled.
    - An [async] method is a [Task]: the sequence of its lock, table and
      file operations, each one step of a cooperative scheduler. The
      answers of the homeserver to [getEvent] and [getUserProfile] are
      arguments of the task. *)

From Stdlib Require Import ZArith Lia Ascii.
From stdpp Require Import gmap strings list fin_maps sorting pretty.

#[local] Set Warnings "-register-all".

Open Scope string_scope.
Open Scope list_scope.
Open Scope Z_scope.

(** ** Untyped values *)

(** A JavaScript value as far as JSON and Matrix events need it. Objects are
    association lists in property order. *)
Inductive value : Type :=
| VUndefined
| VNull
| VBool (b : bool)
| VNum (n : Z)
| VStr (s : string)
| VArr (items : list value)
| VObj (fields : list (string * value)).

(** First binding of [k] in an association list. *)
Fixpoint assoc {A : Type} (k : string) (l : list (string * A)) : option A :=
  match l with
  | [] => None
  | (k', v) :: l' => if decide (k' = k) then Some v else assoc k l'
  end.

(** [v[k]] for a value [v] that is neither [null] nor [undefined]; the
    property names used by the code are not own properties of strings,
    arrays, numbers or booleans, so those give [undefined]. *)
Definition get (v : value) (k : string) : value :=
  match v with
  | VObj fields => default VUndefined (assoc k fields)
  | _ => VUndefined
  end.

Definition nullish (v : value) : bool :=
  match v with VUndefined | VNull => true | _ => false end.

(** [v?.[k]]. *)
Definition get_opt (v : value) (k : string) : value :=
  if nullish v then VUndefined else get v k.

(** JavaScript truthiness. *)
Definition truthy (v : value) : bool :=
  match v with
  | VUndefined | VNull => false
  | VBool b => b
  | VNum n => negb (n =? 0)
  | VStr s => negb (String.eqb s "")
  | VArr _ | VObj _ => true
  end.

(** [v !== 's'] negated: strict equality with a string literal. *)
Definition is_str (v : value) (s : string) : bool :=
  match v with VStr s' => String.eqb s' s | _ => false end.

(** ** The data model *)

Record RoomMessage : Type := {
  eventId : string;
  text : string;
  senderId : string;
  senderName : option string;
  senderHttpUrl : option string;
  activeUpvoteIds : list string;
  activeDownvoteIds : list string;
}.

Record CachedMessage : Type := {
  permalink : string;
  cached_text : string;
  upvotes : Z;
  cached_senderId : string;
  cached_senderName : option string;
  senderAvatarHttpUrl : option string;
}.

Record RoomScoreboard : Type := {
  qaStartTime : option Z;
  messages : list RoomMessage;
}.

Record CachedScoreboard : Type := {
  cached_qaStartTime : option Z;
  ordered : list CachedMessage;
}.

(** The fields of the class that the operations read and write. [domain] is
    filled in once, by the constructor's [getUserId().then(...)]; it is
    [None] until then. *)
Record Scoreboard : Type := {
  byRoom : gmap string RoomScoreboard;
  byRoomCached : gmap string CachedScoreboard;
  domain : option string;
}.

Definition JSON_FORMAT_VERSION : Z := 1.

(** [{ qaStartTime: undefined, messages: [] }] *)
Definition emptyRoom : RoomScoreboard :=
  {| qaStartTime := None; messages := [] |}.

Definition set_byRoom (f : gmap string RoomScoreboard -> gmap string RoomScoreboard)
    (sb : Scoreboard) : Scoreboard :=
  {| byRoom := f (byRoom sb); byRoomCached := byRoomCached sb; domain := domain sb |}.

Definition set_byRoomCached
    (f : gmap string CachedScoreboard -> gmap string CachedScoreboard)
    (sb : Scoreboard) : Scoreboard :=
  {| byRoom := byRoom sb; byRoomCached := f (byRoomCached sb); domain := domain sb |}.

(** ** Collaborators *)

Class Collaborators : Type := {
  (** [Permalinks.forEvent(roomId, eventId, via)] of matrix-bot-sdk. *)
  Permalinks_forEvent : string -> string -> list (option string) -> string;
  (** [isEmojiVariant(expected, value)] of ./utils. *)
  isEmojiVariant : string -> value -> bool;
  (** [encodeURIComponent]; [None] is [undefined]. *)
  encodeURIComponent : option string -> string;
  (** [client.homeserverUrl]. *)
  homeserverUrl : string;
  (** [this.path], that is [path.join(config.dataPath, 'scoreboard.json')]. *)
  path : string;
}.

(** The two vote emoji, U+1F44D and U+1F44E, as UTF-8. *)
Definition thumbsUp : string := "👍".
Definition thumbsDown : string := "👎".

(** ** [Array.prototype.sort] *)

(** The contract of [sort] with a comparator: a stable sort. [insert_sorted]
    puts [x], which precedes every element of [l] in the original array,
    after the elements that the comparator orders strictly before it. *)
Fixpoint insert_sorted {A : Type} (cmp : A -> A -> Z) (x : A) (l : list A) : list A :=
  match l with
  | [] => [x]
  | y :: l' => if 0 <? cmp x y then y :: insert_sorted cmp x l' else x :: l
  end.

Definition js_sort {A : Type} (cmp : A -> A -> Z) (l : list A) : list A :=
  foldr (insert_sorted cmp) [] l.

(** ** The ranking recomputation *)

(** [activeUpvoteIds.length - activeDownvoteIds.length] *)
Definition score (message : RoomMessage) : Z :=
  Z.of_nat (length (activeUpvoteIds message))
  - Z.of_nat (length (activeDownvoteIds message)).

(** The body of the loop of [calculateRoom]: one display record. *)
Definition cachedMessage `{Collaborators} (roomId : string) (dom : option string)
    (message : RoomMessage) : CachedMessage :=
  {| permalink := Permalinks_forEvent roomId (eventId message) [dom];
     senderAvatarHttpUrl := senderHttpUrl message;
     cached_senderName := senderName message;
     cached_senderId := senderId message;
     cached_text := text message;
     upvotes := score message |}.

(** [(a, b) => b.upvotes - a.upvotes] *)
Definition byUpvotesDesc (a b : CachedMessage) : Z := upvotes b - upvotes a.

Definition rankRoom `{Collaborators} (roomId : string) (dom : option string)
    (scoreboard : RoomScoreboard) : CachedScoreboard :=
  {| cached_qaStartTime := qaStartTime scoreboard;
     ordered := js_sort byUpvotesDesc
                  (map (cachedMessage roomId dom) (messages scoreboard)) |}.

(** [calculateRoom(roomId)]. [None] is the [TypeError] raised by
    [scoreboard.messages] when the room has no entry in [byRoom]. The
    [LogService.info] line is not modelled. *)
Definition calculateRoom `{Collaborators} (roomId : string) (sb : Scoreboard)
    : option Scoreboard :=
  match byRoom sb !! roomId with
  | None => None
  | Some scoreboard =>
      Some (set_byRoomCached <[roomId := rankRoom roomId (domain sb) scoreboard]> sb)
  end.

(** [getScoreboard(roomId)]: the cached view, [None] for [undefined]. *)
Definition getScoreboard (roomId : string) (sb : Scoreboard) : option CachedScoreboard :=
  byRoomCached sb !! roomId.

(** ** Updates of the vote tables *)

(** [l.find(p)] *)
Fixpoint find {A : Type} (p : A -> bool) (l : list A) : option A :=
  match l with
  | [] => None
  | x :: l' => if p x then Some x else find p l'
  end.

(** In-place update of the element that [l.find(p)] returns. *)
Fixpoint update_found {A : Type} (p : A -> bool) (f : A -> A) (l : list A) : list A :=
  match l with
  | [] => []
  | x :: l' => if p x then f x :: l' else x :: update_found p f l'
  end.

(** [const idx = l.indexOf(l.find(p)); if (idx >= 0) l.splice(idx, 1)] *)
Fixpoint remove_found {A : Type} (p : A -> bool) (l : list A) : list A :=
  match l with
  | [] => []
  | x :: l' => if p x then l' else x :: remove_found p l'
  end.

(** [ids.includes(id)] *)
Definition includes (id : string) (ids : list string) : bool :=
  bool_decide (id ∈ ids).

(** [const idx = ids.indexOf(id); if (idx >= 0) ids.splice(idx, 1)] *)
Definition splice_id (id : string) (ids : list string) : list string :=
  remove_found (String.eqb id) ids.

Definition set_messages (f : list RoomMessage -> list RoomMessage)
    (scoreboard : RoomScoreboard) : RoomScoreboard :=
  {| qaStartTime := qaStartTime scoreboard; messages := f (messages scoreboard) |}.

Definition set_upvotes (f : list string -> list string) (m : RoomMessage) : RoomMessage :=
  {| eventId := eventId m; text := text m; senderId := senderId m;
     senderName := senderName m; senderHttpUrl := senderHttpUrl m;
     activeUpvoteIds := f (activeUpvoteIds m);
     activeDownvoteIds := activeDownvoteIds m |}.

Definition set_downvotes (f : list string -> list string) (m : RoomMessage) : RoomMessage :=
  {| eventId := eventId m; text := text m; senderId := senderId m;
     senderName := senderName m; senderHttpUrl := senderHttpUrl m;
     activeUpvoteIds := activeUpvoteIds m;
     activeDownvoteIds := f (activeDownvoteIds m) |}.

(** [(isUpvote ? message.activeUpvoteIds : message.activeDownvoteIds).push(id)] *)
Definition pushVote (isUpvote : bool) (id : string) (m : RoomMessage) : RoomMessage :=
  if isUpvote then set_upvotes (λ ids, ids ++ [id]) m
  else set_downvotes (λ ids, ids ++ [id]) m.

(** The room object is updated in place; the room is present at every use. *)
Definition update_room (roomId : string) (f : list RoomMessage -> list RoomMessage)
    (sb : Scoreboard) : Scoreboard :=
  set_byRoom (alter (set_messages f) roomId) sb.

(** The room is created when it has no entry yet
    ([if (!scoreboard)], [if (!(roomId in this.byRoom))]). *)
Definition ensureRoom (roomId : string) (sb : Scoreboard) : Scoreboard :=
  match byRoom sb !! roomId with
  | Some _ => sb
  | None => set_byRoom <[roomId := emptyRoom]> sb
  end.

Definition has_eventId (id : string) (m : RoomMessage) : bool := String.eqb (eventId m) id.
Definition has_upvote (id : string) (m : RoomMessage) : bool := includes id (activeUpvoteIds m).
Definition has_downvote (id : string) (m : RoomMessage) : bool := includes id (activeDownvoteIds m).

(** The reaction is pushed on the tracked message that [find] returned. *)
Definition recordVote (roomId target : string) (isUpvote : bool) (id : string)
    : Scoreboard -> Scoreboard :=
  update_room roomId (update_found (has_eventId target) (pushVote isUpvote id)).

(** [scoreboard.messages.push(message)] *)
Definition trackMessage (roomId : string) (message : RoomMessage) : Scoreboard -> Scoreboard :=
  update_room roomId (λ ms, ms ++ [message]).

(** The two splices of [tryRemoveReaction]. Both messages are found before
    either splice; the first splice leaves every downvote list as it is, so
    the second one acts on the message that was found. *)
Definition removeVote (roomId id : string) : Scoreboard -> Scoreboard :=
  update_room roomId (λ ms,
    update_found (has_downvote id) (set_downvotes (splice_id id))
      (update_found (has_upvote id) (set_upvotes (splice_id id)) ms)).

(** The splice of [tryRemoveMessage]. *)
Definition untrackMessage (roomId id : string) : Scoreboard -> Scoreboard :=
  update_room roomId (remove_found (has_eventId id)).

(** [this.byRoom[roomId].qaStartTime = qaStartTime] *)
Definition setQaStartTime (roomId : string) (t : Z) : Scoreboard -> Scoreboard :=
  set_byRoom (alter (λ scoreboard,
    {| qaStartTime := Some t; messages := messages scoreboard |}) roomId).

(** ** The snapshot *)

(** [JSON.stringify] leaves out a property whose value is [undefined]. *)
Definition optional {A : Type} (k : string) (f : A -> value) (o : option A)
    : list (string * value) :=
  match o with
  | Some x => [(k, f x)]
  | None => []
  end.

(** The JSON values of the snapshot. The order of the properties of an
    object is not followed: the reader looks properties up by name. *)
Definition jsonOfMessage (m : RoomMessage) : value :=
  VObj ([("eventId", VStr (eventId m));
         ("text", VStr (text m));
         ("senderId", VStr (senderId m))]
        ++ optional "senderName" VStr (senderName m)
        ++ optional "senderHttpUrl" VStr (senderHttpUrl m)
        ++ [("activeUpvoteIds", VArr (map VStr (activeUpvoteIds m)));
            ("activeDownvoteIds", VArr (map VStr (activeDownvoteIds m)))]).

Definition jsonOfRoom (scoreboard : RoomScoreboard) : value :=
  VObj (optional "qaStartTime" VNum (qaStartTime scoreboard)
        ++ [("messages", VArr (map jsonOfMessage (messages scoreboard)))]).

(** [{ version: Scoreboard.JSON_FORMAT_VERSION, rooms: this.byRoom }] *)
Definition snapshot (sb : Scoreboard) : value :=
  VObj [("version", VNum JSON_FORMAT_VERSION);
        ("rooms", VObj (map (λ entry, (fst entry, jsonOfRoom (snd entry)))
                          (map_to_list (byRoom sb))))].

(** [load] stores [json.rooms[roomId]] as it is, under the type
    [RoomScoreboard]. The cast is made explicit: [decodeRoom] gives the
    typed room when the value has that shape. A value of another shape (a
    field of another type, [null] for an optional field) is stored by the
    program all the same; the typed tables cannot hold it, see
    [loadRooms]. *)
Definition asString (v : value) : option string :=
  match v with VStr s => Some s | _ => None end.

Definition asOptionalString (v : value) : option (option string) :=
  match v with
  | VUndefined => Some None
  | VStr s => Some (Some s)
  | _ => None
  end.

Definition asOptionalNumber (v : value) : option (option Z) :=
  match v with
  | VUndefined => Some None
  | VNum n => Some (Some n)
  | _ => None
  end.

Definition asArray {A : Type} (f : value -> option A) (v : value) : option (list A) :=
  match v with VArr items => mapM f items | _ => None end.

Definition decodeMessage (v : value) : option RoomMessage :=
  match v with
  | VObj _ =>
      id ← asString (get v "eventId");
      body ← asString (get v "text");
      sender ← asString (get v "senderId");
      name ← asOptionalString (get v "senderName");
      url ← asOptionalString (get v "senderHttpUrl");
      ups ← asArray asString (get v "activeUpvoteIds");
      downs ← asArray asString (get v "activeDownvoteIds");
      Some {| eventId := id; text := body; senderId := sender;
              senderName := name; senderHttpUrl := url;
              activeUpvoteIds := ups; activeDownvoteIds := downs |}
  | _ => None
  end.

Definition decodeRoom (v : value) : option RoomScoreboard :=
  match v with
  | VObj _ =>
      qa ← asOptionalNumber (get v "qaStartTime");
      ms ← asArray decodeMessage (get v "messages");
      Some {| qaStartTime := qa; messages := ms |}
  | _ => None
  end.

(** Whether the loop of [calculateRoom] raises a [TypeError] on a message
    that is stored as it was parsed: [message.eventId] of [null], or
    [.length] of a vote list that is [undefined] or [null]. A message that
    is a number, a boolean, a string or an array has no vote lists. *)
Definition messageThrows (v : value) : bool :=
  match v with
  | VObj _ => nullish (get v "activeUpvoteIds") || nullish (get v "activeDownvoteIds")
  | _ => true
  end.

(** Whether [calculateRoom] raises a [TypeError] on a room that is stored
    as it was parsed: [scoreboard.messages] of [null], a [for ... of] over
    a value that is not iterable, or a message on which the body of the
    loop throws. The messages of a string are its characters. *)
Definition roomThrows (v : value) : bool :=
  match v with
  | VObj _ =>
      match get v "messages" with
      | VArr items => existsb messageThrows items
      | VStr s => negb (String.eqb s "")
      | _ => true
      end
  | _ => true
  end.

(** [for (const k in v)] with [v[k]]: the properties of an object, the
    indices of an array or of a string, nothing otherwise. *)
Definition forIn (v : value) : list (string * value) :=
  match v with
  | VObj fields => map (λ k, (k, get v k)) (map fst fields)
  | VArr items => imap (λ i x, (pretty i, x)) items
  | VStr s => imap (λ i c, (pretty i, VStr (String c ""))) (String.list_ascii_of_string s)
  | _ => []
  end.

(** ** Files *)

Inductive FileContent : Type :=
| Document (v : value)   (** the text [JSON.stringify(v)] *)
| Torn (v : value)       (** a proper prefix of that text, [v] an object *)
| Invalid (s : string)   (** a text that is not JSON *)
| Unreadable.            (** reading fails, with a code other than ENOENT *)

Inductive ReadResult : Type :=
| ReadText (c : FileContent)
| ReadENOENT
| ReadError.

Definition readFile (p : string) (files : gmap string FileContent) : ReadResult :=
  match files !! p with
  | None => ReadENOENT
  | Some Unreadable => ReadError
  | Some c => ReadText c
  end.

(** [JSON.parse]; [None] is a [SyntaxError]. *)
Definition JSON_parse (c : FileContent) : option value :=
  match c with
  | Document v => Some v
  | _ => None
  end.

(** ** Events and answers of the homeserver *)

Record RoomEvent : Type := {
  event_type : string;
  event_id : string;
  content : value;
  redacts : option string;
}.

(** What [client.getEvent] resolves to. The code tests [type] and [content];
    it takes [sender] as it comes. *)
Record FetchedEvent : Type := {
  fetched_type : value;
  fetched_content : value;
  sender : string;
}.

Inductive GetEventResult : Type :=
| GetEventRejects
| GetEventResolves (targetEv : option FetchedEvent).

Inductive GetProfileResult : Type :=
| GetProfileRejects
| GetProfileResolves (displayname avatar_url : option string).

(** [s.split('/')] *)
Fixpoint split_slash (s : string) : list string :=
  match s with
  | EmptyString => [""]
  | String c s' =>
      if Ascii.eqb c "/"%char then "" :: split_slash s'
      else match split_slash s' with
           | [] => [String c ""]
           | part :: parts => String c part :: parts
           end
  end.

(** [s.slice(n)] *)
Fixpoint slice (n : nat) (s : string) : string :=
  match n, s with
  | O, _ => s
  | S n', String _ s' => slice n' s'
  | S _, EmptyString => ""
  end.

(** The thumbnail URL built from an [mxc://] avatar. *)
Definition thumbnailUrl `{Collaborators} (avatar : string) : string :=
  let parts := split_slash (slice 6 avatar) in
  (homeserverUrl +:+ "/_matrix/media/r0/thumbnail/"
   +:+ encodeURIComponent (parts !! 0%nat) +:+ "/"
   +:+ encodeURIComponent (parts !! 1%nat)
   +:+ "?method=crop&width=64&height=64")%string.

(** The profile part of [tryAddReaction], with its [try ... catch]. *)
Definition withProfile `{Collaborators} (profile : GetProfileResult) (m : RoomMessage)
    : RoomMessage :=
  match profile with
  | GetProfileRejects => m
  | GetProfileResolves displayname avatar_url =>
      {| eventId := eventId m; text := text m; senderId := senderId m;
         senderName :=
           match displayname with
           | Some name => if String.eqb name "" then senderName m else Some name
           | None => senderName m
           end;
         senderHttpUrl :=
           match avatar_url with
           | Some avatar =>
               if negb (String.eqb avatar "") && String.prefix "mxc://" avatar
               then Some (thumbnailUrl avatar)
               else senderHttpUrl m
           | None => senderHttpUrl m
           end;
         activeUpvoteIds := activeUpvoteIds m;
         activeDownvoteIds := activeDownvoteIds m |}
  end.

(** ** The engine, its lock and the disk *)

Inductive Warning : Type :=
| WarnInvalidJSON            (** [Cannot load scoreboard: invalid JSON] *)
| WarnCannotLoad             (** [Cannot load scoreboard:] with the error *)
| WarnVersion (v : value).   (** [Cannot load scoreboard version ...] *)

(** What a task does in one step. *)
Inductive Action : Type :=
| ActAcquire
| ActRelease
| ActRead
| ActModify
| ActReadFile
| ActWrite
| ActFlush
| ActRename
| ActWarn.

(** [lock] is the task that holds the [AwaitLock], [history] the steps taken
    so far with the task that took each (oldest first). *)
Record World : Type := {
  engine : Scoreboard;
  lock : option nat;
  disk : gmap string FileContent;
  warnings : list Warning;
  history : list (nat * Action);
}.

Definition set_engine (f : Scoreboard -> Scoreboard) (w : World) : World :=
  {| engine := f (engine w); lock := lock w; disk := disk w;
     warnings := warnings w; history := history w |}.

Definition set_lock (holder : option nat) (w : World) : World :=
  {| engine := engine w; lock := holder; disk := disk w;
     warnings := warnings w; history := history w |}.

Definition set_disk (f : gmap string FileContent -> gmap string FileContent)
    (w : World) : World :=
  {| engine := engine w; lock := lock w; disk := f (disk w);
     warnings := warnings w; history := history w |}.

Definition warn (x : Warning) (w : World) : World :=
  {| engine := engine w; lock := lock w; disk := disk w;
     warnings := warnings w ++ [x]; history := history w |}.

Definition note (tid : nat) (a : Action) (w : World) : World :=
  {| engine := engine w; lock := lock w; disk := disk w;
     warnings := warnings w; history := history w ++ [(tid, a)] |}.

(** [fs.rename(src, dst)] on a file that exists: [dst] is replaced in one
    step and [src] is gone. *)
Definition renamed (src dst : string) (c : FileContent)
    (files : gmap string FileContent) : gmap string FileContent :=
  <[dst := c]> (delete src files).

(** ** Tasks *)

Inductive Exn : Type :=
| TypeError
| FetchError    (** the rejection of [client.getEvent] *)
| FsError.      (** the rejection of [fs.rename] *)

(** An [async] method as the sequence of its steps. [Read] and [ReadFile]
    continue with what they read; [TryModify] and [Rename] have a second
    continuation for the exception. [WriteFile] is not atomic: the file is
    first a torn prefix, and complete after [FlushFile]. A failure of
    [fs.writeFile] itself is not modelled. [Untyped] ends a task that has
    stored a value outside the typed model. *)
Inductive Task : Type :=
| Ret
| Throw (e : Exn)
| Untyped
| Acquire (k : Task)
| Release (k : Task)
| Read (k : Scoreboard -> Task)
| Modify (f : Scoreboard -> Scoreboard) (k : Task)
| TryModify (f : Scoreboard -> option Scoreboard) (k kthrow : Task)
| ReadFile (p : string) (k : ReadResult -> Task)
| WriteFile (p : string) (v : value) (k : Task)
| FlushFile (p : string) (v : value) (k : Task)
| Rename (src dst : string) (k kthrow : Task)
| Warn (x : Warning) (k : Task).

(** [await t; k] *)
Fixpoint andThen (t k : Task) : Task :=
  match t with
  | Ret => k
  | Throw e => Throw e
  | Untyped => Untyped
  | Acquire t' => Acquire (andThen t' k)
  | Release t' => Release (andThen t' k)
  | Read f => Read (λ sb, andThen (f sb) k)
  | Modify f t' => Modify f (andThen t' k)
  | TryModify f t' t'' => TryModify f (andThen t' k) (andThen t'' k)
  | ReadFile p f => ReadFile p (λ r, andThen (f r) k)
  | WriteFile p v t' => WriteFile p v (andThen t' k)
  | FlushFile p v t' => FlushFile p v (andThen t' k)
  | Rename src dst t' t'' => Rename src dst (andThen t' k) (andThen t'' k)
  | Warn x t' => Warn x (andThen t' k)
  end.

(** One step of task [tid]. [None]: the task has ended, or it waits for the
    lock. *)
Definition step (tid : nat) (t : Task) (w : World) : option (Task * World) :=
  match t with
  | Ret | Throw _ | Untyped => None
  | Acquire k =>
      match lock w with
      | None => Some (k, note tid ActAcquire (set_lock (Some tid) w))
      | Some _ => None
      end
  | Release k => Some (k, note tid ActRelease (set_lock None w))
  | Read k => Some (k (engine w), note tid ActRead w)
  | Modify f k => Some (k, note tid ActModify (set_engine f w))
  | TryModify f k kthrow =>
      match f (engine w) with
      | Some sb => Some (k, note tid ActModify (set_engine (λ _, sb) w))
      | None => Some (kthrow, note tid ActModify w)
      end
  | ReadFile p k => Some (k (readFile p (disk w)), note tid ActReadFile w)
  | WriteFile p v k =>
      Some (FlushFile p v k, note tid ActWrite (set_disk <[p := Torn v]> w))
  | FlushFile p v k => Some (k, note tid ActFlush (set_disk <[p := Document v]> w))
  | Rename src dst k kthrow =>
      match disk w !! src with
      | Some c => Some (k, note tid ActRename (set_disk (renamed src dst c) w))
      | None => Some (kthrow, note tid ActRename w)
      end
  | Warn x k => Some (k, note tid ActWarn (warn x w))
  end.

(** The cooperative scheduler: the tasks of [pool] advance one step at a
    time in the order of [schedule]; a pick that cannot move is skipped. *)
Fixpoint exec (schedule : list nat) (pool : list Task) (w : World) : list Task * World :=
  match schedule with
  | [] => (pool, w)
  | tid :: rest =>
      match pool !! tid with
      | Some t =>
          match step tid t w with
          | Some (t', w') => exec rest (<[tid := t']> pool) w'
          | None => exec rest pool w
          end
      | None => exec rest pool w
      end
  end.

(** [n] steps of one task, as far as it can move: where a crash after [n]
    steps leaves the world. *)
Fixpoint steps (n : nat) (tid : nat) (t : Task) (w : World) : Task * World :=
  match n with
  | O => (t, w)
  | S n' =>
      match step tid t w with
      | Some (t', w') => steps n' tid t' w'
      | None => (t, w)
      end
  end.

Inductive Outcome : Type :=
| Returned
| Threw (e : Exn)
| LeftUntyped
| Blocked.

(** A task run alone to its end, as task [0]. *)
Fixpoint run (t : Task) (w : World) : Outcome * World :=
  match t with
  | Ret => (Returned, w)
  | Throw e => (Threw e, w)
  | Untyped => (LeftUntyped, w)
  | Acquire k =>
      match lock w with
      | None => run k (note 0 ActAcquire (set_lock (Some 0%nat) w))
      | Some _ => (Blocked, w)
      end
  | Release k => run k (note 0 ActRelease (set_lock None w))
  | Read k => run (k (engine w)) (note 0 ActRead w)
  | Modify f k => run k (note 0 ActModify (set_engine f w))
  | TryModify f k kthrow =>
      match f (engine w) with
      | Some sb => run k (note 0 ActModify (set_engine (λ _, sb) w))
      | None => run kthrow (note 0 ActModify w)
      end
  | ReadFile p k => run (k (readFile p (disk w))) (note 0 ActReadFile w)
  | WriteFile p v k =>
      run k (note 0 ActFlush (set_disk <[p := Document v]>
               (note 0 ActWrite (set_disk <[p := Torn v]> w))))
  | FlushFile p v k => run k (note 0 ActFlush (set_disk <[p := Document v]> w))
  | Rename src dst k kthrow =>
      match disk w !! src with
      | Some c => run k (note 0 ActRename (set_disk (renamed src dst c) w))
      | None => run kthrow (note 0 ActRename w)
      end
  | Warn x k => run k (note 0 ActWarn (warn x w))
  end.

(** How a task that cannot move has ended. *)
Definition outcome_of (t : Task) : option Outcome :=
  match t with
  | Ret => Some Returned
  | Throw e => Some (Threw e)
  | Untyped => Some LeftUntyped
  | Acquire _ => Some Blocked
  | _ => None
  end.

(** ** The methods of [Scoreboard] *)

Definition tempFilePath `{Collaborators} : string := (path +:+ ".tmp")%string.

(** [save()] *)
Definition save `{Collaborators} : Task :=
  Acquire (Read (λ sb,
    WriteFile tempFilePath (snapshot sb)
      (Rename tempFilePath path
         (Release Ret)
         (Release (Throw FsError))))).

(** The disk once [save()] has run to its end on the tables [sb]. *)
Definition saved `{Collaborators} (sb : Scoreboard) (files : gmap string FileContent)
    : gmap string FileContent :=
  renamed tempFilePath path (Document (snapshot sb))
    (<[tempFilePath := Document (snapshot sb)]>
       (<[tempFilePath := Torn (snapshot sb)]> files)).

(** [await this.calculateRoom(roomId)] inside a [try ... finally] that
    releases the lock. *)
Definition recalculate `{Collaborators} (roomId : string) (k : Task) : Task :=
  TryModify (calculateRoom roomId) k (Release (Throw TypeError)).

(** [resetScoreboard(roomId)] *)
Definition resetScoreboard `{Collaborators} (roomId : string) : Task :=
  Acquire
    (Modify (set_byRoom <[roomId := emptyRoom]>)
       (recalculate roomId
          (Release save))).

(** [showQACountdown(roomId, qaStartTime)] *)
Definition showQACountdown `{Collaborators} (roomId : string) (t : Z) : Task :=
  Acquire
    (Modify (λ sb, setQaStartTime roomId t (ensureRoom roomId sb))
       (recalculate roomId
          (Release save))).

(** [this.conference.storedAuditoriums.some(a => a.roomId === roomId)], with
    the room ids of the stored auditoriums. *)
Definition isAuditorium (auditoriums : list string) (roomId : string) : bool :=
  bool_decide (roomId ∈ auditoriums).

(** The message that [tryAddReaction] builds for an untracked target. *)
Definition newMessage `{Collaborators} (target who body : string)
    (isUpvote : bool) (id : string) (profile : GetProfileResult) : RoomMessage :=
  withProfile profile
    (pushVote isUpvote id
       {| activeUpvoteIds := []; activeDownvoteIds := [];
          eventId := target; senderId := who; text := body;
          senderName := None; senderHttpUrl := None |}).

(** The tests on the fetched target: its sender and its text, when it is a
    plain text message. [None] also when nothing was fetched. *)
Definition plainTextMessage (targetEv : option FetchedEvent) : option (string * string) :=
  match targetEv with
  | None => None
  | Some ev =>
      if negb (is_str (fetched_type ev) "m.room.message") then None
      else if negb (is_str (get_opt (fetched_content ev) "msgtype") "m.text") then None
      else match get_opt (fetched_content ev) "body" with
           | VStr body => Some (sender ev, body)
           | _ => None
           end
  end.

(** The [else] branch of [tryAddReaction]: the target is not tracked. The
    [await] of [getEvent] stands outside any [try ... catch]: its rejection
    leaves the method through the [finally]. *)
Definition addUntracked `{Collaborators} (roomId target : string) (isUpvote : bool)
    (id : string) (targetFetch : GetEventResult) (profile : GetProfileResult) : Task :=
  match targetFetch with
  | GetEventRejects => Release (Throw FetchError)
  | GetEventResolves targetEv =>
      match plainTextMessage targetEv with
      | None => Release Ret
      | Some (who, body) =>
          Modify (trackMessage roomId (newMessage target who body isUpvote id profile))
            (recalculate roomId
               (Release save))
      end
  end.

(** The tests of [tryAddReaction] that come before the lock: the target
    event id and whether the reaction is an upvote, when the event passes
    them all. *)
Definition reactionVote `{Collaborators} (auditoriums : list string)
    (roomId : string) (event : RoomEvent) : option (string * bool) :=
  if negb (isAuditorium auditoriums roomId) then None
  else
    let relation := get_opt (content event) "m.relates_to" in
    if negb (truthy relation) then None
    else if negb (is_str (get relation "rel_type") "m.annotation") then None
    else
      let isUpvote := isEmojiVariant thumbsUp (get relation "key") in
      let isDownvote := isEmojiVariant thumbsDown (get relation "key") in
      if negb isUpvote && negb isDownvote then None
      else
        match get relation "event_id" with
        | VStr target => Some (target, isUpvote)
        | _ => None
        end.

(** [tryAddReaction(roomId, event)]; [targetFetch] and [profile] are what
    [getEvent] and [getUserProfile] answer if they are called. *)
Definition tryAddReaction `{Collaborators} (auditoriums : list string)
    (roomId : string) (event : RoomEvent)
    (targetFetch : GetEventResult) (profile : GetProfileResult) : Task :=
  match reactionVote auditoriums roomId event with
  | None => Ret
  | Some (target, isUpvote) =>
      Acquire
        (Modify (ensureRoom roomId)
           (Read (λ sb,
              match byRoom sb !! roomId with
              | None => Release (Throw TypeError)
              | Some scoreboard =>
                  match find (has_eventId target) (messages scoreboard) with
                  | Some _ =>
                      Modify (recordVote roomId target isUpvote (event_id event))
                        (recalculate roomId
                           (Release save))
                  | None =>
                      addUntracked roomId target isUpvote (event_id event)
                        targetFetch profile
                  end
              end)))
  end.

(** [!event['redacts']] negated: the redacted id, when there is one. *)
Definition redacted (event : RoomEvent) : option string :=
  match redacts event with
  | Some id => if String.eqb id "" then None else Some id
  | None => None
  end.

(** [tryRemoveReaction(roomId, event)] *)
Definition tryRemoveReaction `{Collaborators} (auditoriums : list string)
    (roomId : string) (event : RoomEvent) : Task :=
  if negb (isAuditorium auditoriums roomId) then Ret
  else
    match redacted event with
    | None => Ret
    | Some id =>
        Acquire
          (Read (λ sb,
             match byRoom sb !! roomId with
             | None => Release Ret
             | Some scoreboard =>
                 match find (has_upvote id) (messages scoreboard),
                       find (has_downvote id) (messages scoreboard) with
                 | None, None => Release Ret
                 | _, _ =>
                     Modify (removeVote roomId id)
                       (recalculate roomId
                          (Release save))
                 end
             end))
    end.

(** [tryRemoveMessage(roomId, event)] *)
Definition tryRemoveMessage `{Collaborators} (auditoriums : list string)
    (roomId : string) (event : RoomEvent) : Task :=
  if negb (isAuditorium auditoriums roomId) then Ret
  else
    match redacted event with
    | None => Ret
    | Some id =>
        Acquire
          (Read (λ sb,
             match byRoom sb !! roomId with
             | None => Release Ret
             | Some scoreboard =>
                 match find (has_eventId id) (messages scoreboard) with
                 | None => Release Ret
                 | Some _ =>
                     Modify (untrackMessage roomId id)
                       (recalculate roomId
                          (Release save))
                 end
             end))
    end.

(** The loop of [load], over the entries of [json.rooms]:
    [this.byRoom[roomId] = json.rooms[roomId]], then [calculateRoom]. The
    value is stored as it is. The typed table [byRoom] holds the rooms of
    the shape of a [RoomScoreboard]: once a value of another shape is
    stored under [roomId], the typed table has no entry for that room.
    [calculateRoom] then either throws, before it has touched the view, or
    computes a view from that value and the loop goes on outside the typed
    tables ([Untyped]). *)
Fixpoint loadRooms `{Collaborators} (entries : list (string * value)) : Task :=
  match entries with
  | [] => Release Ret
  | (roomId, v) :: rest =>
      match decodeRoom v with
      | Some scoreboard =>
          Modify (set_byRoom <[roomId := scoreboard]>)
            (recalculate roomId
               (loadRooms rest))
      | None =>
          Modify (set_byRoom (delete roomId))
            (if roomThrows v then Release (Throw TypeError) else Release Untyped)
      end
  end.

(** [load()] *)
Definition load `{Collaborators} : Task :=
  ReadFile path (λ r,
    match r with
    | ReadENOENT => Ret
    | ReadError => Warn WarnCannotLoad Ret
    | ReadText c =>
        match JSON_parse c with
        | None => Warn WarnInvalidJSON Ret
        | Some json =>
            if nullish json then Throw TypeError
            else
              match get json "version" with
              | VNum 1 => Acquire (loadRooms (forIn (get json "rooms")))
              | version => Warn (WarnVersion version) Ret
              end
        end
    end).

(** The [room.event] listener installed by the constructor. *)
Definition onRoomEvent `{Collaborators} (auditoriums : list string)
    (roomId : string) (event : RoomEvent)
    (targetFetch : GetEventResult) (profile : GetProfileResult) : Task :=
  if String.eqb (event_type event) "m.reaction"
  then tryAddReaction auditoriums roomId event targetFetch profile
  else if String.eqb (event_type event) "m.room.redaction"
  then andThen (tryRemoveReaction auditoriums roomId event)
               (tryRemoveMessage auditoriums roomId event)
  else Ret.

(** The calls that change the engine. *)
Inductive Operation : Type :=
| OpReset (roomId : string)
| OpCountdown (roomId : string) (t : Z)
| OpAddReaction (auditoriums : list string) (roomId : string) (event : RoomEvent)
    (targetFetch : GetEventResult) (profile : GetProfileResult)
| OpRemoveReaction (auditoriums : list string) (roomId : string) (event : RoomEvent)
| OpRemoveMessage (auditoriums : list string) (roomId : string) (event : RoomEvent)
| OpLoad
| OpSave.

Definition task_of `{Collaborators} (op : Operation) : Task :=
  match op with
  | OpReset roomId => resetScoreboard roomId
  | OpCountdown roomId t => showQACountdown roomId t
  | OpAddReaction auditoriums roomId event targetFetch profile =>
      tryAddReaction auditoriums roomId event targetFetch profile
  | OpRemoveReaction auditoriums roomId event =>
      tryRemoveReaction auditoriums roomId event
  | OpRemoveMessage auditoriums roomId event =>
      tryRemoveMessage auditoriums roomId event
  | OpLoad => load
  | OpSave => save
  end.

(** ** Notions used in the statements *)

(** The elements of a list with their positions, from [n] on. *)
Fixpoint numbered {A : Type} (n : nat) (l : list A) : list (nat * A) :=
  match l with
  | [] => []
  | x :: l' => (n, x) :: numbered (S n) l'
  end.

(** The tracked messages of a room with their place in the tracking order. *)
Definition tracked (scoreboard : RoomScoreboard) : list (nat * RoomMessage) :=
  numbered 0 (messages scoreboard).

(** [p] is ranked before [q]: a higher score, or the same score and tracked
    earlier. *)
Definition ranks_before (p q : nat * RoomMessage) : Prop :=
  score (snd q) < score (snd p)
  ∨ (score (snd p) = score (snd q) ∧ (fst p < fst q)%nat).

(** Descending by [key]. *)
Definition descending {A : Type} (key : A -> Z) (l : list A) : Prop :=
  StronglySorted (λ a b, key b <= key a) l.

(** The elements of each key come in the same order in both lists. *)
Definition same_order_per_key {A : Type} (key : A -> Z) (l l' : list A) : Prop :=
  ∀ k, filter (λ a, key a = k) l = filter (λ a, key a = k) l'.

(** What the fetch of an untracked target yields for tracking: the sender
    and the text of a plain text message, nothing otherwise. *)
Definition fetchedText (targetFetch : GetEventResult) : option (string * string) :=
  match targetFetch with
  | GetEventRejects => None
  | GetEventResolves targetEv => plainTextMessage targetEv
  end.

(** The tables once the view of a room has been recomputed. *)
Definition recalculated `{Collaborators} (roomId : string) (sb : Scoreboard) : Scoreboard :=
  default sb (calculateRoom roomId sb).

(** One turn of the loop of [load] on a value of the shape of a room. *)
Definition loadRoom `{Collaborators} (sb : Scoreboard) (entry : string * RoomScoreboard)
    : Scoreboard :=
  recalculated (fst entry) (set_byRoom <[fst entry := snd entry]> sb).

(** The entries that the loop of [load] goes through before it meets a
    value that is not of the shape of a room, and how the loop ends. *)
Fixpoint typedPrefix (entries : list (string * value)) : list (string * RoomScoreboard) :=
  match entries with
  | [] => []
  | (roomId, v) :: rest =>
      match decodeRoom v with
      | Some scoreboard => (roomId, scoreboard) :: typedPrefix rest
      | None => []
      end
  end.

Fixpoint loadOutcome (entries : list (string * value)) : Outcome :=
  match entries with
  | [] => Returned
  | (roomId, v) :: rest =>
      match decodeRoom v with
      | Some _ => loadOutcome rest
      | None => if roomThrows v then Threw TypeError else LeftUntyped
      end
  end.

(** The first room of the entries whose value has not the shape of a room. *)
Fixpoint refused (entries : list (string * value)) : option string :=
  match entries with
  | [] => None
  | (roomId, v) :: rest =>
      match decodeRoom v with
      | Some _ => refused rest
      | None => Some roomId
      end
  end.

(** The typed tables that the loop of [load] leaves: the rooms before the
    first value that is not of the shape of a room are stored with their
    views; that value takes the place of the entry of its room, and the
    view of that room stays as it was. *)
Definition loaded `{Collaborators} (sb : Scoreboard) (entries : list (string * value))
    : Scoreboard :=
  match refused entries with
  | Some roomId => set_byRoom (delete roomId) (foldl loadRoom sb (typedPrefix entries))
  | None => foldl loadRoom sb (typedPrefix entries)
  end.





(** The room has an entry and its cached view is the ranking of that entry. *)
Definition view_current `{Collaborators} (sb : Scoreboard) (roomId : string) : Prop :=
  ∃ scoreboard,
    byRoom sb !! roomId = Some scoreboard
    ∧ getScoreboard roomId sb = Some (rankRoom roomId (domain sb) scoreboard).

(** The two vote lists of the message that [find] returns for [target]. *)
Definition votesOn (sb : Scoreboard) (roomId target : string)
    : option (list string * list string) :=
  scoreboard ← byRoom sb !! roomId;
  m ← find (has_eventId target) (messages scoreboard);
  Some (activeUpvoteIds m, activeDownvoteIds m).


(** *** Critical sections *)

(** How far a task has come. [Entered]: it holds the lock and has only
    read so far. [Mutating]: it holds the lock and has updated the tables.
    [Between]: it has released the lock after an update. [Persisting]: it
    holds the lock in the section that writes and renames the file. *)
Inductive Stage : Type :=
| Before
| Entered
| Mutating
| Between
| Persisting
| Finished.

Definition holding (st : Stage) : bool :=
  match st with
  | Entered | Mutating | Persisting => true
  | Before | Between | Finished => false
  end.

(** The steps that a task may take, stage by stage: one critical section
    in which the tables are read and updated, then, after the release, one
    in which the file is written and renamed; a section does not do both. *)
Definition next (st : Stage) (a : Action) : option Stage :=
  match a, st with
  | ActAcquire, Before => Some Entered
  | ActAcquire, Between => Some Persisting
  | ActRead, (Entered | Mutating | Persisting) => Some st
  | ActModify, (Entered | Mutating) => Some Mutating
  | (ActWrite | ActFlush | ActRename), (Entered | Persisting) => Some Persisting
  | ActRelease, (Entered | Persisting) => Some Finished
  | ActRelease, Mutating => Some Between
  | (ActReadFile | ActWarn), _ => Some st
  | _, _ => None
  end.

(** Where a history stands: the holder of the lock and the stage of each
    task ([Before] for a task that has not moved). *)
Record Standing : Type := {
  holder : option nat;
  stages : gmap nat Stage;
}.

Definition start : Standing := {| holder := None; stages := ∅ |}.

Definition stageOf (g : Standing) (tid : nat) : Stage :=
  default Before (stages g !! tid).

(** The discipline of the lock, step by step. The lock is taken only when
    it is free; the tables are read and updated, the files written and
    renamed, and the lock released, only by the task that holds it; and
    each task goes through its stages. [None]: the step breaks this. *)
Definition advance (g : Standing) (e : nat * Action) : option Standing :=
  let tid := fst e in
  match next (stageOf g tid) (snd e) with
  | None => None
  | Some st =>
      match snd e with
      | ActAcquire =>
          match holder g with
          | None => Some {| holder := Some tid; stages := <[tid := st]> (stages g) |}
          | Some _ => None
          end
      | ActReadFile | ActWarn =>
          Some {| holder := holder g; stages := <[tid := st]> (stages g) |}
      | a =>
          if decide (holder g = Some tid)
          then Some {| holder := match a with ActRelease => None | _ => holder g end;
                       stages := <[tid := st]> (stages g) |}
          else None
      end
  end.

Definition replay (g : Standing) (h : list (nat * Action)) : option Standing :=
  foldl (λ acc e, acc ≫= λ g', advance g' e) (Some g) h.

(** What is left of a task goes through the stages, from [st] on. *)
Fixpoint follows (st : Stage) (t : Task) : Prop :=
  match t with
  | Ret | Throw _ | Untyped => holding st = false
  | Acquire k =>
      match next st ActAcquire with Some st' => follows st' k | None => False end
  | Release k =>
      match next st ActRelease with Some st' => follows st' k | None => False end
  | Read k =>
      match next st ActRead with Some st' => ∀ sb, follows st' (k sb) | None => False end
  | Modify _ k =>
      match next st ActModify with Some st' => follows st' k | None => False end
  | TryModify _ k kthrow =>
      match next st ActModify with
      | Some st' => follows st' k ∧ follows st' kthrow
      | None => False
      end
  | ReadFile _ k => ∀ r, follows st (k r)
  | WriteFile _ _ k =>
      match next st ActWrite with
      | Some st' =>
          match next st' ActFlush with Some st'' => follows st'' k | None => False end
      | None => False
      end
  | FlushFile _ _ k =>
      match next st ActFlush with Some st' => follows st' k | None => False end
  | Rename _ _ k kthrow =>
      match next st ActRename with
      | Some st' => follows st' k ∧ follows st' kthrow
      | None => False
      end
  | Warn _ k => follows st k
  end.

(** The scheduler and the history agree, and every task of the pool goes
    on through the stages from where the history has left it. *)
Definition disciplined (pool : list Task) (w : World) : Prop :=
  ∃ g, replay start (history w) = Some g
    ∧ lock w = holder g
    ∧ (∀ tid, holding (stageOf g tid) = true ↔ holder g = Some tid)
    ∧ (∀ tid t, pool !! tid = Some t -> follows (stageOf g tid) t).

(** *** The file under concurrent saves *)

(** The only writes of a task are those of [save]: a document of the
    tables written to the temporary file, then the rename onto the path. *)
Fixpoint saves `{Collaborators} (t : Task) : Prop :=
  match t with
  | Ret | Throw _ | Untyped => True
  | Acquire k | Release k | Modify _ k | Warn _ k => saves k
  | Read k => ∀ sb, saves (k sb)
  | ReadFile _ k => ∀ r, saves (k r)
  | TryModify _ k kthrow => saves k ∧ saves kthrow
  | WriteFile p v k | FlushFile p v k =>
      p = tempFilePath ∧ (∃ sb, v = snapshot sb)
      ∧ match k with
        | Rename src dst k1 k2 =>
            src = tempFilePath ∧ dst = path ∧ saves k1 ∧ saves k2
        | _ => False
        end
  | Rename _ _ _ _ => False
  end.

(** A task of the pool: one that has yet to save, or one that has written
    the temporary file and is about to rename it. *)
Definition saving `{Collaborators} (t : Task) : Prop :=
  match t with
  | Rename src dst k1 k2 => src = tempFilePath ∧ dst = path ∧ saves k1 ∧ saves k2
  | _ => saves t
  end.

Definition renaming (t : Task) : bool :=
  match t with Rename _ _ _ _ => true | _ => false end.

(** The file at the path is what it was at first, or a complete document
    of the tables at some moment. *)
Definition intact `{Collaborators} (first : option FileContent)
    (files : gmap string FileContent) : Prop :=
  files !! path = first ∨ ∃ sb, files !! path = Some (Document (snapshot sb)).

Definition crash_safe `{Collaborators} (first : option FileContent)
    (pool : list Task) (w : World) : Prop :=
  disciplined pool w
  ∧ (∀ tid t, pool !! tid = Some t -> saving t)
  ∧ (∀ tid t, pool !! tid = Some t -> renaming t = true ->
       ∃ sb, disk w !! tempFilePath = Some (Document (snapshot sb)))
  ∧ intact first (disk w).

(** The history has an update of the tables by one task between an update
    by another task and the rename that persists it. *)
Definition interleaved (h : list (nat * Action)) : Prop :=
  ∃ i j h1 h2 h3 h4,
    i ≠ j
    ∧ h = h1 ++ (i, ActModify) :: h2 ++ (j, ActModify) :: h3 ++ (i, ActRename) :: h4
    ∧ (i, ActRename) ∉ h2.

(** ** A concrete setting for the examples *)

(** Modelled from the spec: [isEmojiVariant] of ./utils is not part of the
    sources at hand. The spec asks for equality of the reaction symbol with
    a vote emoji under lenient Unicode-variant equality, not exact string
    match: here, equality once the variation selector U+FE0F is dropped. *)
Fixpoint dropVariationSelectors (s : string) : string :=
  match s with
  | EmptyString => EmptyString
  | String a s1 =>
      match s1 with
      | String b (String c s2) =>
          if Ascii.eqb a (ascii_of_nat 239) && Ascii.eqb b (ascii_of_nat 184)
             && Ascii.eqb c (ascii_of_nat 143)
          then dropVariationSelectors s2
          else String a (dropVariationSelectors s1)
      | _ => String a (dropVariationSelectors s1)
      end
  end.

Definition sameEmoji (expected : string) (v : value) : bool :=
  match v with
  | VStr s => String.eqb (dropVariationSelectors expected) (dropVariationSelectors s)
  | _ => false
  end.

(** A homeserver [example.org] with matrix.to permalinks; URI encoding is
    the identity on the names used in the examples. *)
Definition demo : Collaborators :=
  {| Permalinks_forEvent roomId eventId via :=
       ("https://matrix.to/#/" +:+ roomId +:+ "/" +:+ eventId +:+ "?via="
        +:+ default "undefined" (mjoin (head via)))%string;
     isEmojiVariant := sameEmoji;
     encodeURIComponent o := default "undefined" o;
     homeserverUrl := "https://example.org";
     path := "data/scoreboard.json" |}.

Definition question (id body who : string) (ups downs : list string) : RoomMessage :=
  {| eventId := id; text := body; senderId := who;
     senderName := None; senderHttpUrl := None;
     activeUpvoteIds := ups; activeDownvoteIds := downs |}.

(** Scenario D of the spec, with a third message of a higher score that was
    tracked last. *)
Definition demoRoom : RoomScoreboard :=
  {| qaStartTime := None;
     messages := [question "$m1" "first" "@a:example.org" ["$u1"; "$u2"; "$u3"] [];
                  question "$m2" "second" "@b:example.org" ["$u4"; "$u5"; "$u6"] [];
                  question "$m3" "third" "@c:example.org"
                    ["$u7"; "$u8"; "$u9"; "$u10"; "$u11"] ["$d1"]] |}.

Definition demoEngine : Scoreboard :=
  {| byRoom := {["!hall:example.org" := demoRoom]};
     byRoomCached := ∅;
     domain := Some "example.org" |}.

Definition idle (sb : Scoreboard) (files : gmap string FileContent) : World :=
  {| engine := sb; lock := None; disk := files; warnings := []; history := [] |}.

Definition hall : string := "!hall:example.org".

(** An [m.reaction] event [id] that annotates [target] with [key]. *)
Definition reaction (id target key : string) : RoomEvent :=
  {| event_type := "m.reaction"; event_id := id;
     content := VObj [("m.relates_to",
                       VObj [("rel_type", VStr "m.annotation");
                             ("event_id", VStr target);
                             ("key", VStr key)])];
     redacts := None |}.

(** An [m.room.redaction] event [id] that redacts [target]. *)
Definition redaction (id target : string) : RoomEvent :=
  {| event_type := "m.room.redaction"; event_id := id;
     content := VObj []; redacts := Some target |}.

(** An engine that has tracked nothing yet. *)
Definition freshEngine (dom : option string) : Scoreboard :=
  {| byRoom := ∅; byRoomCached := ∅; domain := dom |}.

(** A snapshot of the current version whose only room has no [messages]. *)
Definition malformedSnapshot : value :=
  VObj [("version", VNum 1); ("rooms", VObj [(hall, VObj [])])].


(** A snapshot of the current version whose only message has no
    [activeDownvoteIds], and one whose only message has [null] for its
    [senderName]. *)
Definition partialSnapshot : value :=
  VObj [("version", VNum 1);
        ("rooms",
         VObj [(hall,
                VObj [("messages",
                       VArr [VObj [("eventId", VStr "$m9");
                                   ("text", VStr "late");
                                   ("senderId", VStr "@d:example.org");
                                   ("activeUpvoteIds", VArr [])]])])])].

Definition namelessSnapshot : value :=
  VObj [("version", VNum 1);
        ("rooms",
         VObj [(hall,
                VObj [("messages",
                       VArr [VObj [("eventId", VStr "$m9");
                                   ("text", VStr "late");
                                   ("senderId", VStr "@d:example.org");
                                   ("senderName", VNull);
                                   ("activeUpvoteIds", VArr []);
                                   ("activeDownvoteIds", VArr [])]])])])].

(** The example room once its view has been computed. *)
Definition demoShown : Scoreboard := @loadRoom demo (freshEngine (Some "example.org")) (hall, demoRoom).

(** Two events that reach the engine close together: a thumbs-up on [$m1]
    and the redaction of [$m2]. *)
Definition demoPool : list Operation :=
  [OpAddReaction [hall] hall (reaction "$r1" "$m1" thumbsUp)
     GetEventRejects GetProfileRejects;
   OpRemoveMessage [hall] hall (redaction "$x1" "$m2")].

(** Task 0 takes the lock; task 1 has to wait (its pick is skipped); task 0
    records the vote and releases; task 1 removes the message and
    releases; only then task 0 saves, and task 1 after it. *)
Definition demoSchedule : list nat :=
  [0; 1; 0; 0; 0; 0; 0;
   1; 1; 1; 1; 1;
   0; 0; 0; 0; 0; 0;
   1; 1; 1; 1; 1; 1]%nat.

(** The question that the scenarios of the spec vote on, as the homeserver
    returns it, and the profile of its sender. *)
Definition demoTarget : FetchedEvent :=
  {| fetched_type := VStr "m.room.message";
     fetched_content := VObj [("msgtype", VStr "m.text"); ("body", VStr "Why?")];
     sender := "@a:example.org" |}.

Definition demoProfile : GetProfileResult :=
  GetProfileResolves (Some "Alice") (Some "mxc://example.org/abc").

(** The listener on a sequence of events, one after the other. *)
Definition deliver (events : list RoomEvent) (w : World) : World :=
  foldl (λ w' event,
           snd (run (@onRoomEvent demo [hall] hall event
                       (GetEventResolves (Some demoTarget)) demoProfile) w'))
    w events.

(** What the scoreboard of a room shows: text and score, in order. *)
Definition shown (roomId : string) (w : World) : option (list (string * Z)) :=
  (map (λ c, (cached_text c, upvotes c)) ∘ ordered) <$> getScoreboard roomId (engine w).

Definition scenarioA : World :=
  deliver [reaction "$u1" "$M" thumbsUp;
           reaction "$u2" "$M" thumbsUp;
           reaction "$d1" "$M" thumbsDown]
    (idle (freshEngine (Some "example.org")) ∅).

(** ** The operations as changes of the tables *)

(** The room that an operation is about. *)
Definition roomOf (op : Operation) : option string :=
  match op with
  | OpReset roomId | OpCountdown roomId _
  | OpAddReaction _ roomId _ _ _
  | OpRemoveReaction _ roomId _ | OpRemoveMessage _ roomId _ => Some roomId
  | OpLoad | OpSave => None
  end.

(** What an operation that runs alone from [w] leaves in the tables, path
    by path of the code, and whether it has saved. *)
Inductive result `{Collaborators} (w : World) : Operation -> Scoreboard -> bool -> Prop :=
| res_nothing op :
    result w op (engine w) false
| res_reset roomId :
    result w (OpReset roomId)
      (recalculated roomId (set_byRoom <[roomId := emptyRoom]> (engine w))) true
| res_countdown roomId t :
    result w (OpCountdown roomId t)
      (recalculated roomId (setQaStartTime roomId t (ensureRoom roomId (engine w)))) true
| res_vote auditoriums roomId event targetFetch profile target isUpvote scoreboard m :
    reactionVote auditoriums roomId event = Some (target, isUpvote) ->
    byRoom (engine w) !! roomId = Some scoreboard ->
    find (has_eventId target) (messages scoreboard) = Some m ->
    result w (OpAddReaction auditoriums roomId event targetFetch profile)
      (recalculated roomId
         (recordVote roomId target isUpvote (event_id event) (engine w))) true
| res_dropped auditoriums roomId event targetFetch profile target isUpvote :
    reactionVote auditoriums roomId event = Some (target, isUpvote) ->
    find (has_eventId target)
      (messages (default emptyRoom (byRoom (engine w) !! roomId))) = None ->
    fetchedText targetFetch = None ->
    result w (OpAddReaction auditoriums roomId event targetFetch profile)
      (ensureRoom roomId (engine w)) false
| res_track auditoriums roomId event targetFetch profile target isUpvote who body :
    reactionVote auditoriums roomId event = Some (target, isUpvote) ->
    find (has_eventId target)
      (messages (default emptyRoom (byRoom (engine w) !! roomId))) = None ->
    fetchedText targetFetch = Some (who, body) ->
    result w (OpAddReaction auditoriums roomId event targetFetch profile)
      (recalculated roomId
         (trackMessage roomId
            (newMessage target who body isUpvote (event_id event) profile)
            (ensureRoom roomId (engine w)))) true
| res_unvote auditoriums roomId event id scoreboard :
    redacted event = Some id ->
    byRoom (engine w) !! roomId = Some scoreboard ->
    result w (OpRemoveReaction auditoriums roomId event)
      (recalculated roomId (removeVote roomId id (engine w))) true
| res_untrack auditoriums roomId event id scoreboard :
    redacted event = Some id ->
    byRoom (engine w) !! roomId = Some scoreboard ->
    result w (OpRemoveMessage auditoriums roomId event)
      (recalculated roomId (untrackMessage roomId id (engine w))) true
| res_load json :
    disk w !! path = Some (Document json) ->
    get json "version" = VNum JSON_FORMAT_VERSION ->
    result w OpLoad (loaded (engine w) (forIn (get json "rooms"))) false
| res_save :
    result w OpSave (engine w) true.

(** What the typed tables can take from a file: every room of a snapshot
    of the current version that is loaded has the shape of a
    [RoomScoreboard]. [load] does not check this. *)
Definition typed_snapshot `{Collaborators} (op : Operation) (w : World) : Prop :=
  match op with
  | OpLoad =>
      ∀ json,
        disk w !! path = Some (Document json) ->
        get json "version" = VNum JSON_FORMAT_VERSION ->
        Forall (λ e, is_Some (decodeRoom (snd e))) (forIn (get json "rooms"))
  | _ => True
  end.

(** The ids of the tracked messages of a room are all different. *)
Definition unique_ids (sb : Scoreboard) : Prop :=
  ∀ roomId scoreboard,
    byRoom sb !! roomId = Some scoreboard -> NoDup (map eventId (messages scoreboard)).

(** What [load] takes for granted on message ids: the messages of each
    room of the snapshot have different ids. *)
Definition unique_snapshot `{Collaborators} (op : Operation) (w : World) : Prop :=
  match op with
  | OpLoad =>
      ∀ json roomId v scoreboard,
        disk w !! path = Some (Document json) ->
        (roomId, v) ∈ forIn (get json "rooms") ->
        decodeRoom v = Some scoreboard ->
        NoDup (map eventId (messages scoreboard))
  | _ => True
  end.

(** The cached view of every room is the ranking of its entry; only a room
    that has no message and no countdown yet may be without a view, and a
    room without an entry has none. *)
Definition views_exact `{Collaborators} (sb : Scoreboard) : Prop :=
  ∀ roomId,
    match byRoom sb !! roomId with
    | Some scoreboard =>
        getScoreboard roomId sb = Some (rankRoom roomId (domain sb) scoreboard)
        ∨ (scoreboard = emptyRoom ∧ getScoreboard roomId sb = None)
    | None => getScoreboard roomId sb = None
    end.

(** The file at the path is a snapshot of the tables, but for rooms that
    a dropped reaction has created since: these are still empty. *)
Definition in_sync `{Collaborators} (w : World) : Prop :=
  ∃ sb, disk w !! path = Some (Document (snapshot sb))
    ∧ ∀ roomId,
        byRoom (engine w) !! roomId = byRoom sb !! roomId
        ∨ (byRoom sb !! roomId = None ∧ byRoom (engine w) !! roomId = Some emptyRoom).


(** * Properties *)

(** ** The sort *)

Section SortFacts.
Context {A : Type}.

Lemma insert_sorted_perm (cmp : A -> A -> Z) x l : insert_sorted cmp x l ≡ₚ x :: l.
Proof.
  induction l as [|y l IH]; simpl; [done|].
  destruct (0 <? cmp x y); [|done].
  rewrite IH. apply Permutation_swap.
Qed.

Lemma js_sort_perm (cmp : A -> A -> Z) l : js_sort cmp l ≡ₚ l.
Proof.
  induction l as [|x l IH]; simpl; [done|].
  fold (js_sort cmp l). by rewrite insert_sorted_perm, IH.
Qed.

Lemma insert_sorted_map {B : Type} (f : B -> A) (cmp : A -> A -> Z) x l :
  insert_sorted cmp (f x) (map f l)
  = map f (insert_sorted (λ a b, cmp (f a) (f b)) x l).
Proof.
  induction l as [|y l IH]; simpl; [done|].
  destruct (0 <? cmp (f x) (f y)); simpl; [by rewrite IH | done].
Qed.

Lemma js_sort_map {B : Type} (f : B -> A) (cmp : A -> A -> Z) l :
  js_sort cmp (map f l) = map f (js_sort (λ a b, cmp (f a) (f b)) l).
Proof.
  induction l as [|x l IH]; simpl; [done|].
  fold (js_sort cmp (map f l)). rewrite IH. apply insert_sorted_map.
Qed.

Variable key : A -> Z.

Lemma insert_sorted_descending x l :
  descending key l -> descending key (insert_sorted (λ a b, key b - key a) x l).
Proof.
  unfold descending. induction 1 as [|y l Hs IH Hy]; simpl.
  - repeat constructor.
  - destruct (0 <? key y - key x) eqn:E.
    + constructor; [done|].
      rewrite insert_sorted_perm. constructor; [lia|done].
    + constructor; [by constructor|].
      constructor; [lia|].
      eapply Forall_impl; [exact Hy|]. simpl. intros z Hz. lia.
Qed.

Lemma js_sort_descending l : descending key (js_sort (λ a b, key b - key a) l).
Proof.
  induction l as [|x l IH]; simpl; [constructor|].
  by apply insert_sorted_descending.
Qed.

Lemma insert_sorted_stable k x l :
  filter (λ a, key a = k) (insert_sorted (λ a b, key b - key a) x l)
  = filter (λ a, key a = k) (x :: l).
Proof.
  induction l as [|y l IH]; simpl; [done|].
  destruct (0 <? key y - key x) eqn:E; [|done].
  rewrite !filter_cons in *. rewrite IH.
  destruct (decide (key y = k)), (decide (key x = k)); try done. lia.
Qed.

Lemma js_sort_stable l :
  same_order_per_key key (js_sort (λ a b, key b - key a) l) l.
Proof.
  intros k. induction l as [|x l IH]; simpl; [done|].
  fold (js_sort (λ a b, key b - key a) l).
  rewrite insert_sorted_stable, !filter_cons. by rewrite IH.
Qed.

(** A descending list with a given order inside each key is unique: the
    contract of a stable sort fixes its result, whatever the algorithm. *)
Lemma stable_sort_unique l1 l2 :
  descending key l1 -> descending key l2 -> same_order_per_key key l1 l2 -> l1 = l2.
Proof.
  unfold descending, same_order_per_key.
  revert l2. induction l1 as [|a l1 IH]; intros l2 S1 S2 Hf.
  - destruct l2 as [|b l2]; [done|].
    specialize (Hf (key b)). rewrite filter_cons in Hf.
    destruct (decide (key b = key b)); [|done]. by rewrite filter_nil in Hf.
  - destruct l2 as [|b l2].
    { specialize (Hf (key a)). rewrite filter_cons, filter_nil in Hf.
      by destruct (decide (key a = key a)). }
    apply StronglySorted_inv in S1 as [S1 Ha].
    apply StronglySorted_inv in S2 as [S2 Hb].
    assert (key a = key b) as Hab.
    { assert (key a <= key b).
      { pose proof (Hf (key a)) as Hk. rewrite !filter_cons in Hk.
        destruct (decide (key a = key a)); [|done].
        destruct (decide (key b = key a)) as [->|]; [lia|].
        assert (a ∈ filter (λ x, key x = key a) l2) as Hin by (rewrite <- Hk; left).
        apply list_elem_of_filter in Hin as [_ Hin].
        rewrite Forall_forall in Hb. by apply Hb. }
      assert (key b <= key a).
      { pose proof (Hf (key b)) as Hk. rewrite !filter_cons in Hk.
        destruct (decide (key b = key b)); [|done].
        destruct (decide (key a = key b)) as [->|]; [lia|].
        assert (b ∈ filter (λ x, key x = key b) l1) as Hin by (rewrite Hk; left).
        apply list_elem_of_filter in Hin as [_ Hin].
        rewrite Forall_forall in Ha. by apply Ha. }
      lia. }
    assert (a = b) as ->.
    { specialize (Hf (key a)). rewrite !filter_cons in Hf.
      destruct (decide (key a = key a)); [|done].
      destruct (decide (key b = key a)); [|congruence]. congruence. }
    f_equal. apply IH; [done..|].
    intros k. specialize (Hf k). rewrite !filter_cons in Hf.
    destruct (decide (key b = k)); congruence.
Qed.
End SortFacts.

(** ** The ranking *)

Lemma numbered_snd {A : Type} n (l : list A) : map snd (numbered n l) = l.
Proof. revert n. induction l as [|x l IH]; intros n; simpl; [done|]. by rewrite IH. Qed.

Lemma numbered_ge {A : Type} n (l : list A) :
  Forall (λ p, (n <= fst p)%nat) (numbered n l).
Proof.
  revert n. induction l as [|x l IH]; intros n; simpl; constructor; [done|].
  eapply Forall_impl; [apply IH|]. simpl. lia.
Qed.

Lemma insert_sorted_ranked x l :
  StronglySorted ranks_before l ->
  Forall (λ y, (fst x < fst y)%nat) l ->
  StronglySorted ranks_before
    (insert_sorted (λ p q, score (snd q) - score (snd p)) x l).
Proof.
  induction 1 as [|y l Hs IH Hy]; intros Hx; simpl.
  - repeat constructor.
  - apply Forall_cons in Hx as [Hxy Hx].
    destruct (0 <? score (snd y) - score (snd x)) eqn:E.
    + constructor; [by apply IH|].
      rewrite insert_sorted_perm. constructor; [|done].
      left. lia.
    + constructor; [by constructor|].
      constructor; [unfold ranks_before; lia|].
      rewrite Forall_forall in Hy, Hx |- *. intros z Hz.
      specialize (Hy z Hz). specialize (Hx z Hz).
      unfold ranks_before in *. lia.
Qed.

Lemma js_sort_ranked {n} (l : list RoomMessage) :
  StronglySorted ranks_before
    (js_sort (λ p q, score (snd q) - score (snd p)) (numbered n l)).
Proof.
  revert n. induction l as [|x l IH]; intros n; simpl; [constructor|].
  apply insert_sorted_ranked; [apply IH|].
  fold (js_sort (λ p q : nat * RoomMessage, score (snd q) - score (snd p))
          (numbered (S n) l)).
  rewrite js_sort_perm.
  eapply Forall_impl; [apply numbered_ge|]. simpl. lia.
Qed.

Lemma numbered_imap_from {A : Type} n (l : list A) :
  numbered n l = imap (λ i x, ((n + i)%nat, x)) l.
Proof.
  revert n. induction l as [|x l IH]; intros n; simpl; [done|].
  rewrite Nat.add_0_r. f_equal. rewrite IH. apply imap_ext. intros i y _. simpl.
  f_equal. lia.
Qed.

Lemma numbered_imap {A : Type} (l : list A) : numbered 0 l = imap pair l.
Proof. rewrite numbered_imap_from. by apply imap_ext. Qed.

(** C1. Whatever the state of a room, [calculateRoom] stores as its view
    the display records of exactly the tracked messages: each record has
    the permalink of the message, its text, its sender with name and
    avatar, and as score the number of its upvotes minus that of its
    downvotes. The records are ordered by score descending and, among
    equal scores, by the place of the message in the room's tracking
    order. The countdown of the view is that of the room. *)
Theorem calculateRoom_ranking `{Collaborators} (roomId : string) (sb : Scoreboard)
    (scoreboard : RoomScoreboard) :
  byRoom sb !! roomId = Some scoreboard ->
  let votes := λ m : RoomMessage,
    Z.of_nat (length (activeUpvoteIds m)) - Z.of_nat (length (activeDownvoteIds m)) in
  ∃ (view : CachedScoreboard) (ranked : list (nat * RoomMessage)),
    calculateRoom roomId sb = Some (set_byRoomCached <[roomId := view]> sb)
    ∧ cached_qaStartTime view = qaStartTime scoreboard
    ∧ ordered view
      = map (λ p, {| permalink := Permalinks_forEvent roomId (eventId (snd p)) [domain sb];
                     senderAvatarHttpUrl := senderHttpUrl (snd p);
                     cached_senderName := senderName (snd p);
                     cached_senderId := senderId (snd p);
                     cached_text := text (snd p);
                     upvotes := votes (snd p) |}) ranked
    ∧ ranked ≡ₚ imap pair (messages scoreboard)
    ∧ StronglySorted
        (λ p q, votes (snd q) < votes (snd p)
                ∨ (votes (snd p) = votes (snd q) ∧ (fst p < fst q)%nat)) ranked.
Proof.
  intros Hroom votes.
  exists (rankRoom roomId (domain sb) scoreboard),
         (js_sort (λ p q, score (snd q) - score (snd p)) (tracked scoreboard)).
  unfold calculateRoom. rewrite Hroom. split; [done|]. split; [done|].
  split; [|split].
  - simpl. unfold tracked.
    rewrite <- (numbered_snd 0 (messages scoreboard)) at 1.
    rewrite map_map.
    apply (js_sort_map (λ p, cachedMessage roomId (domain sb) (snd p)) byUpvotesDesc).
  - rewrite <- numbered_imap. apply js_sort_perm.
  - apply js_sort_ranked.
Qed.

Lemma calculateRoom_ranking_witness :
  let votes := λ m : RoomMessage,
    Z.of_nat (length (activeUpvoteIds m)) - Z.of_nat (length (activeDownvoteIds m)) in
  ∃ (view : CachedScoreboard) (ranked : list (nat * RoomMessage)),
    @calculateRoom demo "!hall:example.org" demoEngine
    = Some (set_byRoomCached <["!hall:example.org" := view]> demoEngine)
    ∧ cached_qaStartTime view = qaStartTime demoRoom
    ∧ ordered view
      = map (λ p, {| permalink := @Permalinks_forEvent demo "!hall:example.org"
                                    (eventId (snd p)) [domain demoEngine];
                     senderAvatarHttpUrl := senderHttpUrl (snd p);
                     cached_senderName := senderName (snd p);
                     cached_senderId := senderId (snd p);
                     cached_text := text (snd p);
                     upvotes := votes (snd p) |}) ranked
    ∧ ranked ≡ₚ imap pair (messages demoRoom)
    ∧ StronglySorted
        (λ p q, votes (snd q) < votes (snd p)
                ∨ (votes (snd p) = votes (snd q) ∧ (fst p < fst q)%nat)) ranked.
Proof.
  apply (@calculateRoom_ranking demo "!hall:example.org" demoEngine demoRoom).
  reflexivity.
Defined.

(** The view is also the only list that is a stable sort of the display
    records by score. *)
Lemma rankRoom_stable_sort `{Collaborators} roomId dom scoreboard :
  let records := map (cachedMessage roomId dom) (messages scoreboard) in
  ordered (rankRoom roomId dom scoreboard) ≡ₚ records
  ∧ descending upvotes (ordered (rankRoom roomId dom scoreboard))
  ∧ same_order_per_key upvotes (ordered (rankRoom roomId dom scoreboard)) records
  ∧ ∀ l, descending upvotes l -> same_order_per_key upvotes l records ->
         l = ordered (rankRoom roomId dom scoreboard).
Proof.
  simpl. split; [apply js_sort_perm|]. split; [apply js_sort_descending|].
  split; [apply js_sort_stable|].
  intros l Hd Hs. apply (stable_sort_unique upvotes); [done|apply js_sort_descending|].
  intros k. rewrite Hs. symmetry. apply js_sort_stable.
Qed.

(** Scenario D on the example room: the third message leads with score 4;
    the first two tie at 3 and keep the order in which they were tracked. *)
Example scenario_D :
  map (λ c, (cached_text c, upvotes c))
    (ordered (@rankRoom demo "!hall:example.org" (Some "example.org") demoRoom))
  = [("third", 4); ("first", 3); ("second", 3)].
Proof. reflexivity. Qed.

(** ** Running the methods *)

(** [run] is [step] taken until the task cannot move. *)
Lemma run_steps t w :
  ∃ n, snd (steps n 0 t w) = snd (run t w)
    ∧ outcome_of (fst (steps n 0 t w)) = Some (fst (run t w))
    ∧ step 0 (fst (steps n 0 t w)) (snd (steps n 0 t w)) = None.
Proof.
  revert w.
  induction t as [| | |k IH|k IH|k IH|f k IH|f k IHk kthrow IHt|p k IH
                 |p v k IH|p v k IH|src dst k IHk kthrow IHt|x k IH];
    intros w.
  - by exists 0%nat.
  - by exists 0%nat.
  - by exists 0%nat.
  - destruct (lock w) eqn:Hlock.
    + exists 0%nat. simpl. by rewrite Hlock.
    + edestruct IH as (n & ? & ? & ?). exists (S n). simpl. rewrite Hlock. eauto.
  - edestruct IH as (n & ? & ? & ?). exists (S n). simpl. eauto.
  - edestruct (IH (engine w)) as (n & ? & ? & ?). exists (S n). simpl. eauto.
  - edestruct IH as (n & ? & ? & ?). exists (S n). simpl. eauto.
  - destruct (f (engine w)) eqn:Hf.
    + edestruct IHk as (n & ? & ? & ?). exists (S n). simpl. rewrite Hf. eauto.
    + edestruct IHt as (n & ? & ? & ?). exists (S n). simpl. rewrite Hf. eauto.
  - edestruct (IH (readFile p (disk w))) as (n & ? & ? & ?). exists (S n). simpl. eauto.
  - edestruct IH as (n & ? & ? & ?). exists (S (S n)). simpl. eauto.
  - edestruct IH as (n & ? & ? & ?). exists (S n). simpl. eauto.
  - destruct (disk w !! src) eqn:Hsrc.
    + edestruct IHk as (n & ? & ? & ?). exists (S n). simpl. rewrite Hsrc. eauto.
    + edestruct IHt as (n & ? & ? & ?). exists (S n). simpl. rewrite Hsrc. eauto.
  - edestruct IH as (n & ? & ? & ?). exists (S n). simpl. eauto.
Qed.

(** [await t; k] runs [k] where [t] has returned. *)
Lemma run_andThen t k w :
  run (andThen t k) w
  = match run t w with
    | (Returned, w') => run k w'
    | ended => ended
    end.
Proof.
  revert w.
  induction t as [| | |t IH|t IH|t IH|f t IH|f t IHk kthrow IHt|p t IH
                 |p v t IH|p v t IH|src dst t IHk kthrow IHt|x t IH];
    intros w; simpl; try done.
  - by destruct (lock w).
  - by destruct (f (engine w)).
  - by destruct (disk w !! src).
Qed.

Arguments save : simpl never.
Arguments recalculate : simpl never.
Arguments addUntracked : simpl never.
Arguments loadRooms : simpl never.

Section Running.
Context `{Collaborators}.

Lemma run_save w :
  lock w = None ->
  ∃ w', run save w = (Returned, w')
    ∧ engine w' = engine w ∧ lock w' = None
    ∧ disk w' = saved (engine w) (disk w)
    ∧ warnings w' = warnings w.
Proof.
  destruct w as [sb lk files ws hs]. simpl. intros ->.
  unfold save. simpl. rewrite lookup_insert_eq. simpl. eauto 10.
Qed.

(** The common end of the mutating methods: recompute the view of the
    room, release the lock, save. *)
Lemma run_commit roomId w scoreboard :
  byRoom (engine w) !! roomId = Some scoreboard ->
  ∃ w', run (recalculate roomId (Release save)) w = (Returned, w')
    ∧ engine w' = recalculated roomId (engine w)
    ∧ lock w' = None
    ∧ disk w' = saved (engine w') (disk w)
    ∧ warnings w' = warnings w.
Proof.
  destruct w as [sb lk files ws hs]. simpl. intros Hroom.
  unfold recalculate, recalculated, calculateRoom. simpl. rewrite Hroom.
  unfold save. simpl. rewrite lookup_insert_eq. simpl. eauto 10.
Qed.
End Running.

(** ** The tables under the updates *)

Section Tables.
Context `{Collaborators}.

Lemma recalculated_byRoom roomId sb : byRoom (recalculated roomId sb) = byRoom sb.
Proof. unfold recalculated, calculateRoom. by destruct (byRoom sb !! roomId). Qed.

Lemma recalculated_domain roomId sb : domain (recalculated roomId sb) = domain sb.
Proof. unfold recalculated, calculateRoom. by destruct (byRoom sb !! roomId). Qed.

Lemma recalculated_view roomId sb scoreboard :
  byRoom sb !! roomId = Some scoreboard ->
  byRoomCached (recalculated roomId sb)
  = <[roomId := rankRoom roomId (domain sb) scoreboard]> (byRoomCached sb).
Proof. intros Hroom. unfold recalculated, calculateRoom. by rewrite Hroom. Qed.

Lemma update_room_lookup roomId f sb :
  byRoom (update_room roomId f sb) !! roomId = set_messages f <$> byRoom sb !! roomId.
Proof. unfold update_room. simpl. by rewrite lookup_alter_eq. Qed.

Lemma update_room_lookup_ne roomId roomId' f sb :
  roomId ≠ roomId' ->
  byRoom (update_room roomId f sb) !! roomId' = byRoom sb !! roomId'.
Proof. intros Hne. unfold update_room. simpl. by rewrite lookup_alter_ne. Qed.

Lemma ensureRoom_lookup roomId sb :
  byRoom (ensureRoom roomId sb) !! roomId
  = Some (default emptyRoom (byRoom sb !! roomId)).
Proof.
  unfold ensureRoom. destruct (byRoom sb !! roomId) eqn:E; simpl; [done|].
  by rewrite lookup_insert_eq.
Qed.

Lemma ensureRoom_lookup_ne roomId roomId' sb :
  roomId ≠ roomId' -> byRoom (ensureRoom roomId sb) !! roomId' = byRoom sb !! roomId'.
Proof.
  intros Hne. unfold ensureRoom. destruct (byRoom sb !! roomId); simpl; [done|].
  by rewrite lookup_insert_ne.
Qed.

Lemma loadRoom_eq sb roomId scoreboard :
  loadRoom sb (roomId, scoreboard)
  = set_byRoomCached <[roomId := rankRoom roomId (domain sb) scoreboard]>
      (set_byRoom <[roomId := scoreboard]> sb).
Proof.
  unfold loadRoom, recalculated, calculateRoom. simpl. by rewrite lookup_insert_eq.
Qed.

Lemma ensureRoom_present roomId sb scoreboard :
  byRoom sb !! roomId = Some scoreboard -> ensureRoom roomId sb = sb.
Proof. intros Hroom. unfold ensureRoom. by rewrite Hroom. Qed.
End Tables.

(** ** What each method does when it runs alone *)

Section Methods.
Context `{Collaborators}.

Lemma run_resetScoreboard roomId w :
  lock w = None ->
  ∃ w', run (resetScoreboard roomId) w = (Returned, w')
    ∧ engine w' = recalculated roomId (set_byRoom <[roomId := emptyRoom]> (engine w))
    ∧ lock w' = None
    ∧ disk w' = saved (engine w') (disk w)
    ∧ warnings w' = warnings w.
Proof.
  intros Hlock. unfold resetScoreboard. cbn [run]. rewrite Hlock.
  edestruct run_commit as (w' & -> & He & ? & ? & ?);
    [|exists w'; split; [done|]; split; [|done]].
  - simpl. apply lookup_insert_eq.
  - by rewrite He.
Qed.

Lemma run_showQACountdown roomId t w :
  lock w = None ->
  ∃ w', run (showQACountdown roomId t) w = (Returned, w')
    ∧ engine w' = recalculated roomId (setQaStartTime roomId t (ensureRoom roomId (engine w)))
    ∧ lock w' = None
    ∧ disk w' = saved (engine w') (disk w)
    ∧ warnings w' = warnings w.
Proof.
  intros Hlock. unfold showQACountdown. cbn [run]. rewrite Hlock.
  edestruct run_commit as (w' & -> & He & ? & ? & ?);
    [|exists w'; split; [done|]; split; [|done]].
  - simpl. rewrite lookup_alter_eq, ensureRoom_lookup. done.
  - by rewrite He.
Qed.

Lemma run_tryAddReaction_dropped auditoriums roomId event targetFetch profile w :
  reactionVote auditoriums roomId event = None ->
  run (tryAddReaction auditoriums roomId event targetFetch profile) w = (Returned, w).
Proof. intros Hvote. unfold tryAddReaction. by rewrite Hvote. Qed.

(** The target is tracked: the vote is pushed on it. *)
Lemma run_tryAddReaction_tracked auditoriums roomId event targetFetch profile w
    target isUpvote scoreboard m :
  lock w = None ->
  reactionVote auditoriums roomId event = Some (target, isUpvote) ->
  byRoom (engine w) !! roomId = Some scoreboard ->
  find (has_eventId target) (messages scoreboard) = Some m ->
  ∃ w', run (tryAddReaction auditoriums roomId event targetFetch profile) w
        = (Returned, w')
    ∧ engine w'
      = recalculated roomId (recordVote roomId target isUpvote (event_id event) (engine w))
    ∧ lock w' = None
    ∧ disk w' = saved (engine w') (disk w)
    ∧ warnings w' = warnings w.
Proof.
  intros Hlock Hvote Hroom Hfind. unfold tryAddReaction. rewrite Hvote.
  cbn [run]. rewrite Hlock. simpl.
  rewrite (ensureRoom_present _ _ _ Hroom), Hroom, Hfind. cbn [run].
  edestruct run_commit as (w' & -> & He & ? & ? & ?);
    [|exists w'; split; [done|]; split; [|done]].
  - simpl. rewrite lookup_alter_eq, ensureRoom_lookup, Hroom. done.
  - rewrite He. simpl. by rewrite (ensureRoom_present _ _ _ Hroom).
Qed.

(** The target is not tracked. *)
Lemma run_tryAddReaction_untracked auditoriums roomId event targetFetch profile w
    target isUpvote :
  lock w = None ->
  reactionVote auditoriums roomId event = Some (target, isUpvote) ->
  find (has_eventId target)
    (messages (default emptyRoom (byRoom (engine w) !! roomId))) = None ->
  ∃ w', run (tryAddReaction auditoriums roomId event targetFetch profile) w
        = (match targetFetch with
           | GetEventRejects => Threw FetchError
           | GetEventResolves _ => Returned
           end, w')
    ∧ engine w'
      = match fetchedText targetFetch with
        | Some (who, body) =>
            recalculated roomId
              (trackMessage roomId
                 (newMessage target who body isUpvote (event_id event) profile)
                 (ensureRoom roomId (engine w)))
        | None => ensureRoom roomId (engine w)
        end
    ∧ lock w' = None
    ∧ disk w' = match fetchedText targetFetch with
                | Some _ => saved (engine w') (disk w)
                | None => disk w
                end
    ∧ warnings w' = warnings w.
Proof.
  intros Hlock Hvote Hfind. unfold tryAddReaction. rewrite Hvote.
  cbn [run]. rewrite Hlock. simpl.
  rewrite ensureRoom_lookup, Hfind. unfold addUntracked, fetchedText.
  destruct targetFetch as [|targetEv];
    [eexists; split; [reflexivity|done]|].
  destruct (plainTextMessage targetEv) as [[who body]|];
    [|eexists; split; [reflexivity|done]].
  cbn [run].
  edestruct run_commit as (w' & -> & He & ? & ? & ?);
    [|exists w'; split; [done|]; split; [|done]].
  - simpl. rewrite lookup_alter_eq, ensureRoom_lookup. done.
  - by rewrite He.
Qed.

Lemma run_tryRemoveReaction auditoriums roomId event w :
  lock w = None ->
  ∃ w', run (tryRemoveReaction auditoriums roomId event) w = (Returned, w')
    ∧ lock w' = None ∧ warnings w' = warnings w
    ∧ ((engine w' = engine w ∧ disk w' = disk w)
       ∨ ∃ id scoreboard,
           redacted event = Some id
           ∧ byRoom (engine w) !! roomId = Some scoreboard
           ∧ engine w' = recalculated roomId (removeVote roomId id (engine w))
           ∧ disk w' = saved (engine w') (disk w)).
Proof.
  intros Hlock. unfold tryRemoveReaction.
  destruct (negb (isAuditorium auditoriums roomId)); [simpl; eauto 10|].
  destruct (redacted event) as [id|] eqn:Hid; [|simpl; eauto 10].
  cbn [run]. rewrite Hlock. simpl.
  destruct (byRoom (engine w) !! roomId) as [scoreboard|] eqn:Hroom;
    [|simpl; eauto 10].
  assert (∃ w', run (Modify (removeVote roomId id) (recalculate roomId (Release save)))
                  (note 0 ActRead (note 0 ActAcquire (set_lock (Some 0%nat) w)))
                = (Returned, w')
            ∧ lock w' = None ∧ warnings w' = warnings w
            ∧ engine w' = recalculated roomId (removeVote roomId id (engine w))
            ∧ disk w' = saved (engine w') (disk w)) as (w' & Hrun & ? & ? & ? & ?).
  { cbn [run].
    edestruct run_commit as (w' & -> & He & ? & ? & ?); [|by exists w'].
    simpl. by rewrite lookup_alter_eq, Hroom. }
  destruct (find (has_upvote id) (messages scoreboard)),
           (find (has_downvote id) (messages scoreboard));
    try (rewrite Hrun; exists w'; eauto 15).
  simpl. eauto 10.
Qed.

Lemma run_tryRemoveMessage auditoriums roomId event w :
  lock w = None ->
  ∃ w', run (tryRemoveMessage auditoriums roomId event) w = (Returned, w')
    ∧ lock w' = None ∧ warnings w' = warnings w
    ∧ ((engine w' = engine w ∧ disk w' = disk w)
       ∨ ∃ id scoreboard,
           redacted event = Some id
           ∧ byRoom (engine w) !! roomId = Some scoreboard
           ∧ engine w' = recalculated roomId (untrackMessage roomId id (engine w))
           ∧ disk w' = saved (engine w') (disk w)).
Proof.
  intros Hlock. unfold tryRemoveMessage.
  destruct (negb (isAuditorium auditoriums roomId)); [simpl; eauto 10|].
  destruct (redacted event) as [id|] eqn:Hid; [|simpl; eauto 10].
  cbn [run]. rewrite Hlock. simpl.
  destruct (byRoom (engine w) !! roomId) as [scoreboard|] eqn:Hroom;
    [|simpl; eauto 10].
  destruct (find (has_eventId id) (messages scoreboard)); [|simpl; eauto 10].
  cbn [run].
  edestruct run_commit as (w' & -> & He & ? & ? & ?);
    [|exists w'; eauto 15].
  simpl. by rewrite lookup_alter_eq, Hroom.
Qed.

Lemma run_loadRooms entries w :
  ∃ w', run (loadRooms entries) w = (loadOutcome entries, w')
    ∧ engine w' = loaded (engine w) entries
    ∧ lock w' = None ∧ disk w' = disk w ∧ warnings w' = warnings w.
Proof.
  revert w. induction entries as [|[roomId v] rest IH]; intros w.
  - simpl. eauto 10.
  - unfold loadRooms; fold (loadRooms rest). unfold loaded. simpl.
    destruct (decodeRoom v) as [scoreboard|]; simpl.
    + unfold recalculate. cbn [run]. simpl.
      unfold calculateRoom at 1. simpl. rewrite lookup_insert_eq.
      edestruct IH as (w' & -> & He & ? & ? & ?).
      exists w'. split; [done|]. split; [|done].
      rewrite He. unfold loaded. simpl. by rewrite loadRoom_eq.
    + destruct (roomThrows v); simpl; eauto 10.
Qed.

(** On entries that all have the shape of a room, the loop stores them
    all. *)
Lemma refused_typed entries :
  Forall (λ e, is_Some (decodeRoom (snd e))) entries -> refused entries = None.
Proof.
  induction 1 as [|[roomId v] entries [scoreboard Hdec] _ IH]; simpl in *; [done|].
  by rewrite Hdec.
Qed.

Lemma loaded_typed sb entries :
  Forall (λ e, is_Some (decodeRoom (snd e))) entries ->
  loaded sb entries = foldl loadRoom sb (typedPrefix entries).
Proof. intros Hall. unfold loaded. by rewrite refused_typed. Qed.

Lemma run_load w :
  lock w = None ->
  ∃ o w', run load w = (o, w') ∧ lock w' = None ∧ disk w' = disk w
    ∧ match readFile path (disk w) with
      | ReadENOENT =>
          o = Returned ∧ engine w' = engine w ∧ warnings w' = warnings w
      | ReadError =>
          o = Returned ∧ engine w' = engine w
          ∧ warnings w' = warnings w ++ [WarnCannotLoad]
      | ReadText c =>
          match JSON_parse c with
          | None =>
              o = Returned ∧ engine w' = engine w
              ∧ warnings w' = warnings w ++ [WarnInvalidJSON]
          | Some json =>
              if nullish json
              then o = Threw TypeError ∧ engine w' = engine w
                   ∧ warnings w' = warnings w
              else match get json "version" with
                   | VNum 1 =>
                       o = loadOutcome (forIn (get json "rooms"))
                       ∧ engine w' = loaded (engine w) (forIn (get json "rooms"))
                       ∧ warnings w' = warnings w
                   | version =>
                       o = Returned ∧ engine w' = engine w
                       ∧ warnings w' = warnings w ++ [WarnVersion version]
                   end
          end
      end.
Proof.
  intros Hlock. unfold load. cbn [run].
  destruct (readFile path (disk w)) as [c| |]; [|simpl; eauto 10..].
  destruct (JSON_parse c) as [json|]; [|simpl; eauto 10].
  destruct (nullish json); [simpl; eauto 10|].
  destruct (get json "version") as [| | |n| | |]; try (simpl; by eauto 10).
  destruct n as [|[p|p|]|p]; try (simpl; by eauto 10).
  cbn [run]. simpl. rewrite Hlock.
  edestruct run_loadRooms as (w' & -> & ? & ? & ? & ?). eauto 10.
Qed.
End Methods.

(** ** Reactions *)

Section Reactions.
Context `{Collaborators}.

Lemma find_update_found {A : Type} (p : A -> bool) (f : A -> A) l m :
  find p l = Some m -> p (f m) = true -> find p (update_found p f l) = Some (f m).
Proof.
  intros Hfind Hp. induction l as [|x l IH]; simpl in *; [done|].
  destruct (p x) eqn:E; simpl.
  - injection Hfind as ->. by rewrite Hp.
  - rewrite E. by apply IH.
Qed.

Lemma has_eventId_pushVote target isUpvote id m :
  has_eventId target (pushVote isUpvote id m) = has_eventId target m.
Proof. by destruct isUpvote. Qed.

Lemma find_has_eventId target l m :
  find (has_eventId target) l = Some m -> has_eventId target m = true.
Proof.
  induction l as [|x l IH]; simpl; [done|].
  destruct (has_eventId target x) eqn:E; [|done]. by intros [= <-].
Qed.

Lemma score_pushVote isUpvote id m :
  score (pushVote isUpvote id m) = score m + (if isUpvote then 1 else -1).
Proof.
  unfold score. destruct isUpvote; simpl; rewrite length_app; simpl; lia.
Qed.

End Reactions.




(** ** The tests before the lock *)

(** A run only adds to the history. *)
Lemma run_history t w : ∃ rest, history (snd (run t w)) = history w ++ rest.
Proof.
  revert w.
  induction t as [| | |k IH|k IH|k IH|f k IH|f k IHk kthrow IHt|p k IH
                 |p v k IH|p v k IH|src dst k IHk kthrow IHt|x k IH];
    intros w; simpl;
    try (exists []; by rewrite app_nil_r);
    try (edestruct IH as [rest ->]; simpl; rewrite <- ?app_assoc; by eauto).
  - destruct (lock w); [exists []; by rewrite app_nil_r|].
    edestruct IH as [rest ->]; simpl; rewrite <- app_assoc; by eauto.
  - destruct (f (engine w)).
    + edestruct IHk as [rest ->]; simpl; rewrite <- app_assoc; by eauto.
    + edestruct IHt as [rest ->]; simpl; rewrite <- app_assoc; by eauto.
  - destruct (disk w !! src).
    + edestruct IHk as [rest ->]; simpl; rewrite <- app_assoc; by eauto.
    + edestruct IHt as [rest ->]; simpl; rewrite <- app_assoc; by eauto.
Qed.

(** C9, as stated, fails on the target id: a thumbs-up whose target event
    id is the empty string passes the tests, the lock is taken, and the
    room gets an entry. *)
Lemma tryAddReaction_empty_target_counterexample :
  let event := reaction "$r1" "" thumbsUp in
  let w := idle (freshEngine (Some "example.org")) ∅ in
  let w' := snd (run (@tryAddReaction demo [hall] hall event
                        (GetEventResolves None) GetProfileRejects) w) in
  get (get_opt (content event) "m.relates_to") "event_id" = VStr ""
  ∧ @reactionVote demo [hall] hall event = Some ("", true)
  ∧ head (history w') = Some (0%nat, ActAcquire)
  ∧ byRoom (engine w) !! hall = None
  ∧ byRoom (engine w') !! hall = Some emptyRoom.
Proof. by vm_compute. Qed.

(** C9, amended. A reaction is taken up exactly when the room is an
    auditorium, the relation is an annotation, the symbol is a variant of
    one of the two vote emoji and the target event id is a string, the
    empty string included. Any other event leaves the method at once: no
    step is taken, so the lock, the tables and the disk are as before. An
    event that is taken up takes the lock first. *)
Theorem tryAddReaction_tests `{Collaborators} (auditoriums : list string)
    (roomId : string) (event : RoomEvent) (targetFetch : GetEventResult)
    (profile : GetProfileResult) (w : World) :
  let relation := get_opt (content event) "m.relates_to" in
  let add := tryAddReaction auditoriums roomId event targetFetch profile in
  (∀ target isUpvote,
     reactionVote auditoriums roomId event = Some (target, isUpvote)
     ↔ roomId ∈ auditoriums
       ∧ get relation "rel_type" = VStr "m.annotation"
       ∧ (isEmojiVariant thumbsUp (get relation "key") = true
          ∨ isEmojiVariant thumbsDown (get relation "key") = true)
       ∧ get relation "event_id" = VStr target
       ∧ isUpvote = isEmojiVariant thumbsUp (get relation "key"))
  ∧ (reactionVote auditoriums roomId event = None -> run add w = (Returned, w))
  ∧ (is_Some (reactionVote auditoriums roomId event) -> lock w = None ->
     ∃ rest, history (snd (run add w)) = history w ++ (0%nat, ActAcquire) :: rest).
Proof.
  intros relation add. split; [|split].
  - intros target isUpvote. unfold reactionVote. fold relation.
    unfold isAuditorium. case_bool_decide as Haud; simpl.
    2:{ split; [done|]. by intros [? _]. }
    destruct (truthy relation) eqn:Htruthy; simpl.
    2:{ split; [done|]. intros (_ & Hrel & _). by destruct relation. }
    destruct (get relation "rel_type") as [| | | |rel| |] eqn:Hrel; simpl;
      try (split; [done|]; by intros (_ & ? & _)).
    destruct (String.eqb rel "m.annotation") eqn:Hann; simpl.
    2:{ split; [done|]. intros (_ & [= ->] & _). by rewrite String.eqb_refl in Hann. }
    apply String.eqb_eq in Hann as ->.
    destruct (isEmojiVariant thumbsUp (get relation "key")) eqn:Hup;
      destruct (isEmojiVariant thumbsDown (get relation "key")) eqn:Hdown; simpl;
      (destruct (get relation "event_id") eqn:Hid;
       (split;
        [intros [= <- <-]; eauto 10
        |intros (_ & _ & [?|?] & [= <-] & ->); done])).
  - intros Hvote. subst add. unfold tryAddReaction. by rewrite Hvote.
  - intros [[target isUpvote] Hvote] Hlock. subst add. unfold tryAddReaction.
    rewrite Hvote. cbn [run]. rewrite Hlock.
    edestruct run_history as [rest ->]. simpl. rewrite <- !app_assoc. simpl.
    by eexists.
Qed.

Lemma tryAddReaction_tests_witness :
  let event := reaction "$r1" "$m1" "👍️" in
  let relation := get_opt (content event) "m.relates_to" in
  let w := idle demoEngine ∅ in
  let add := @tryAddReaction demo [hall] hall event GetEventRejects GetProfileRejects in
  (∀ target isUpvote,
     @reactionVote demo [hall] hall event = Some (target, isUpvote)
     ↔ hall ∈ [hall]
       ∧ get relation "rel_type" = VStr "m.annotation"
       ∧ (sameEmoji thumbsUp (get relation "key") = true
          ∨ sameEmoji thumbsDown (get relation "key") = true)
       ∧ get relation "event_id" = VStr target
       ∧ isUpvote = sameEmoji thumbsUp (get relation "key"))
  ∧ (@reactionVote demo [hall] hall event = None -> run add w = (Returned, w))
  ∧ ∃ rest, history (snd (run add w)) = history w ++ (0%nat, ActAcquire) :: rest.
Proof.
  destruct (@tryAddReaction_tests demo [hall] hall (reaction "$r1" "$m1" "👍️")
              GetEventRejects GetProfileRejects (idle demoEngine ∅))
    as (Htests & Hdrop & Htake).
  split; [exact Htests|]. split; [exact Hdrop|].
  apply Htake; [eexists; vm_compute; reflexivity | reflexivity].
Defined.

(** ** Failures of the fetches *)

(** The profile fetch sits in a [try ... catch]: when it is rejected, the
    message is tracked without name and avatar, and the method returns. *)
Lemma tryAddReaction_profile_rejected `{Collaborators} auditoriums roomId event
    targetEv w target isUpvote who body :
  lock w = None ->
  reactionVote auditoriums roomId event = Some (target, isUpvote) ->
  find (has_eventId target)
    (messages (default emptyRoom (byRoom (engine w) !! roomId))) = None ->
  plainTextMessage targetEv = Some (who, body) ->
  ∃ w' scoreboard m,
    run (tryAddReaction auditoriums roomId event (GetEventResolves targetEv)
           GetProfileRejects) w = (Returned, w')
    ∧ byRoom (engine w') !! roomId = Some scoreboard
    ∧ last (messages scoreboard) = Some m
    ∧ eventId m = target ∧ senderName m = None ∧ senderHttpUrl m = None.
Proof.
  intros Hlock Hvote Hfind Htext.
  destruct (run_tryAddReaction_untracked auditoriums roomId event
              (GetEventResolves targetEv) GetProfileRejects w target isUpvote
              Hlock Hvote Hfind) as (w' & Hrun & He & _).
  unfold fetchedText in He. rewrite Htext in He.
  exists w'. eexists. eexists. split; [exact Hrun|].
  rewrite He, recalculated_byRoom. unfold trackMessage.
  rewrite update_room_lookup, ensureRoom_lookup. simpl.
  split; [reflexivity|]. simpl. rewrite last_snoc.
  split; [reflexivity|]. by destruct isUpvote.
Qed.

(** A fetch that resolves to nothing, or to something that is not a plain
    text message, drops the reaction: the method returns, no message is
    tracked and nothing is saved; the room has an entry from then on. *)
Lemma tryAddReaction_not_text `{Collaborators} auditoriums roomId event
    targetEv profile w target isUpvote :
  lock w = None ->
  reactionVote auditoriums roomId event = Some (target, isUpvote) ->
  find (has_eventId target)
    (messages (default emptyRoom (byRoom (engine w) !! roomId))) = None ->
  plainTextMessage targetEv = None ->
  ∃ w', run (tryAddReaction auditoriums roomId event (GetEventResolves targetEv)
               profile) w = (Returned, w')
    ∧ engine w' = ensureRoom roomId (engine w)
    ∧ disk w' = disk w ∧ lock w' = None.
Proof.
  intros Hlock Hvote Hfind Htext.
  destruct (run_tryAddReaction_untracked auditoriums roomId event
              (GetEventResolves targetEv) profile w target isUpvote
              Hlock Hvote Hfind) as (w' & Hrun & He & ? & Hd & _).
  unfold fetchedText in He, Hd. rewrite Htext in He, Hd. by exists w'.
Qed.

(** C8: where the code departs from the claim. [getEvent] is awaited
    outside any [try ... catch]: when the fetch of an untracked target is
    rejected, the method releases the lock and rejects in turn. *)
Theorem tryAddReaction_fetch_rejected `{Collaborators} (auditoriums : list string)
    (roomId : string) (event : RoomEvent) (profile : GetProfileResult) (w : World)
    (target : string) (isUpvote : bool) :
  lock w = None ->
  reactionVote auditoriums roomId event = Some (target, isUpvote) ->
  find (has_eventId target)
    (messages (default emptyRoom (byRoom (engine w) !! roomId))) = None ->
  ∃ w', run (tryAddReaction auditoriums roomId event GetEventRejects profile) w
        = (Threw FetchError, w')
    ∧ engine w' = ensureRoom roomId (engine w)
    ∧ disk w' = disk w ∧ lock w' = None.
Proof.
  intros Hlock Hvote Hfind.
  destruct (run_tryAddReaction_untracked auditoriums roomId event GetEventRejects
              profile w target isUpvote Hlock Hvote Hfind)
    as (w' & Hrun & He & ? & Hd & _).
  by exists w'.
Qed.

Lemma tryAddReaction_fetch_rejected_witness :
  ∃ w', run (@tryAddReaction demo [hall] hall (reaction "$r1" "$gone" thumbsUp)
               GetEventRejects GetProfileRejects) (idle demoEngine ∅)
        = (Threw FetchError, w')
    ∧ engine w' = ensureRoom hall demoEngine
    ∧ disk w' = ∅ ∧ lock w' = None.
Proof.
  apply (@tryAddReaction_fetch_rejected demo [hall] hall
           (reaction "$r1" "$gone" thumbsUp) GetProfileRejects (idle demoEngine ∅)
           "$gone" true); by vm_compute.
Defined.

(** ** The countdown *)

(** C10. [showQACountdown] sets the countdown of its room and keeps the
    messages of the room, starting from none when the room had no entry;
    the entries and the cached views of all other rooms stay as they are. *)
Theorem showQACountdown_frame `{Collaborators} (roomId : string) (t : Z) (w : World) :
  lock w = None ->
  ∃ w', run (showQACountdown roomId t) w = (Returned, w')
    ∧ byRoom (engine w') !! roomId
      = Some {| qaStartTime := Some t;
                messages := match byRoom (engine w) !! roomId with
                            | Some scoreboard => messages scoreboard
                            | None => []
                            end |}
    ∧ (∀ other, other ≠ roomId ->
         byRoom (engine w') !! other = byRoom (engine w) !! other
         ∧ byRoomCached (engine w') !! other = byRoomCached (engine w) !! other)
    ∧ domain (engine w') = domain (engine w).
Proof.
  intros Hlock.
  destruct (run_showQACountdown roomId t w Hlock) as (w' & Hrun & He & _).
  exists w'. split; [done|]. rewrite He.
  rewrite recalculated_byRoom, recalculated_domain.
  split; [|split].
  - unfold setQaStartTime. simpl. rewrite lookup_alter_eq, ensureRoom_lookup.
    by destruct (byRoom (engine w) !! roomId).
  - intros other Hne. split.
    + unfold setQaStartTime. simpl.
      rewrite lookup_alter_ne by done. by apply ensureRoom_lookup_ne.
    + erewrite recalculated_view.
      2:{ unfold setQaStartTime. simpl.
          by rewrite lookup_alter_eq, ensureRoom_lookup. }
      rewrite lookup_insert_ne by done.
      unfold ensureRoom. by destruct (byRoom (engine w) !! roomId).
  - unfold ensureRoom. by destruct (byRoom (engine w) !! roomId).
Qed.

Lemma showQACountdown_frame_witness :
  ∃ w', run (@showQACountdown demo "!annex:example.org" 1700000000000)
          (idle demoEngine ∅) = (Returned, w')
    ∧ byRoom (engine w') !! "!annex:example.org"
      = Some {| qaStartTime := Some 1700000000000; messages := [] |}
    ∧ (∀ other, other ≠ "!annex:example.org" ->
         byRoom (engine w') !! other = byRoom demoEngine !! other
         ∧ byRoomCached (engine w') !! other = byRoomCached demoEngine !! other)
    ∧ domain (engine w') = domain demoEngine.
Proof.
  apply (@showQACountdown_frame demo "!annex:example.org" 1700000000000
           (idle demoEngine ∅)).
  reflexivity.
Defined.

(** ** Loading *)

Section Loading.
Context `{Collaborators}.

Lemma loadRoom_domain sb e : domain (loadRoom sb e) = domain sb.
Proof. destruct e. by rewrite loadRoom_eq. Qed.

Lemma foldl_loadRoom_domain l sb : domain (foldl loadRoom sb l) = domain sb.
Proof.
  revert sb. induction l as [|e l IH]; intros sb; simpl; [done|].
  by rewrite IH, loadRoom_domain.
Qed.

Lemma loadRoom_view_current sb roomId scoreboard :
  view_current (loadRoom sb (roomId, scoreboard)) roomId.
Proof.
  exists scoreboard. unfold getScoreboard. rewrite loadRoom_eq. simpl.
  by rewrite !lookup_insert_eq.
Qed.

Lemma loadRoom_view_current_other sb e roomId :
  view_current sb roomId -> view_current (loadRoom sb e) roomId.
Proof.
  destruct e as [k scoreboard]. intros (old & Hroom & Hview).
  destruct (decide (k = roomId)) as [->|Hne]; [apply loadRoom_view_current|].
  exists old. unfold getScoreboard in *. rewrite loadRoom_eq. simpl.
  by rewrite !lookup_insert_ne.
Qed.

Lemma foldl_loadRoom_keeps l sb roomId :
  view_current sb roomId -> view_current (foldl loadRoom sb l) roomId.
Proof.
  revert sb. induction l as [|e l IH]; intros sb Hv; simpl; [done|].
  by apply IH, loadRoom_view_current_other.
Qed.

Lemma foldl_loadRoom_view_current l sb roomId :
  roomId ∈ l.*1 -> view_current (foldl loadRoom sb l) roomId.
Proof.
  revert sb. induction l as [|[k scoreboard] l IH]; intros sb Hin; simpl in *.
  - by apply elem_of_nil in Hin.
  - apply elem_of_cons in Hin as [->|Hin]; [|by apply IH].
    apply foldl_loadRoom_keeps, loadRoom_view_current.
Qed.

Lemma typedPrefix_all entries :
  Forall (λ e, is_Some (decodeRoom (snd e))) entries ->
  loadOutcome entries = Returned ∧ (typedPrefix entries).*1 = entries.*1.
Proof.
  induction 1 as [|[k v] entries [scoreboard Hdec] _ [IHo IHk]]; simpl in *; [done|].
  rewrite Hdec. simpl. split; [done|]. by f_equal.
Qed.

Lemma typedPrefix_elem entries roomId scoreboard :
  (roomId, scoreboard) ∈ typedPrefix entries ->
  ∃ v, (roomId, v) ∈ entries ∧ decodeRoom v = Some scoreboard.
Proof.
  induction entries as [|[k v] entries IH]; simpl; [by intros ?%elem_of_nil|].
  destruct (decodeRoom v) as [decoded|] eqn:Hdec; [|by intros ?%elem_of_nil].
  intros [[= -> ->]|Hin]%elem_of_cons.
  - exists v. split; [left|done].
  - destruct (IH Hin) as (v' & ? & ?). exists v'. split; [by right|done].
Qed.
End Loading.

(** C5, as stated, fails on a snapshot of the current version whose shape
    is not the expected one: here the only room has no [messages], and
    [load] is rejected with the [TypeError] of [calculateRoom]. *)
Lemma load_malformed_counterexample :
  JSON_parse (Document malformedSnapshot) = Some malformedSnapshot
  ∧ get malformedSnapshot "version" = VNum JSON_FORMAT_VERSION
  ∧ fst (run (@load demo)
           (idle (freshEngine (Some "example.org"))
              {[@path demo := Document malformedSnapshot]}))
    = Threw TypeError.
Proof. by vm_compute. Qed.

(** C5, amended. With no snapshot file [load] returns and changes nothing.
    When the file cannot be read, is not JSON, or is a document other than
    [null] whose version is not the current one, [load] logs a warning,
    returns and leaves the tables as they are. When the document has the
    current version and every value under [rooms] has the shape of a room,
    [load] returns, and every room of the document has an entry whose
    cached view is the ranking of that entry. *)
Theorem load_tolerant `{Collaborators} (w : World) :
  lock w = None ->
  ∃ o w', run load w = (o, w') ∧ lock w' = None ∧ disk w' = disk w
    ∧ (disk w !! path = None ->
       o = Returned ∧ engine w' = engine w ∧ warnings w' = warnings w)
    ∧ (disk w !! path = Some Unreadable ->
       o = Returned ∧ engine w' = engine w
       ∧ warnings w' = warnings w ++ [WarnCannotLoad])
    ∧ (∀ c, disk w !! path = Some c -> c ≠ Unreadable -> JSON_parse c = None ->
       o = Returned ∧ engine w' = engine w
       ∧ warnings w' = warnings w ++ [WarnInvalidJSON])
    ∧ (∀ json, disk w !! path = Some (Document json) -> nullish json = false ->
       get json "version" ≠ VNum JSON_FORMAT_VERSION ->
       o = Returned ∧ engine w' = engine w
       ∧ warnings w' = warnings w ++ [WarnVersion (get json "version")])
    ∧ (∀ json, disk w !! path = Some (Document json) ->
       get json "version" = VNum JSON_FORMAT_VERSION ->
       Forall (λ e, is_Some (decodeRoom (snd e))) (forIn (get json "rooms")) ->
       o = Returned ∧ warnings w' = warnings w
       ∧ ∀ roomId, roomId ∈ (forIn (get json "rooms")).*1 ->
           view_current (engine w') roomId).
Proof.
  intros Hlock. destruct (run_load w Hlock) as (o & w' & Hrun & ? & ? & Hcases).
  exists o, w'. split; [done|]. split; [done|]. split; [done|].
  unfold readFile in Hcases.
  split; [|split; [|split; [|split]]].
  - intros Hfile. by rewrite Hfile in Hcases.
  - intros Hfile. by rewrite Hfile in Hcases.
  - intros c Hfile Hc Hparse. rewrite Hfile in Hcases.
    destruct c; try done; by rewrite Hparse in Hcases.
  - intros json Hfile Hnull Hversion. rewrite Hfile in Hcases. simpl in Hcases.
    rewrite Hnull in Hcases.
    destruct (get json "version") as [| | |n| | |]; try done.
    by destruct n as [|[p|p|]|p].
  - intros json Hfile Hversion Hshape. rewrite Hfile in Hcases. simpl in Hcases.
    assert (nullish json = false) as Hnull by by destruct json.
    rewrite Hnull, Hversion in Hcases. simpl in Hcases.
    destruct Hcases as (-> & He & ?).
    destruct (typedPrefix_all _ Hshape) as [Ho Hkeys].
    split; [done|]. split; [done|].
    intros roomId Hin. rewrite He, (loaded_typed _ _ Hshape).
    apply foldl_loadRoom_view_current.
    by rewrite Hkeys.
Qed.

Lemma load_tolerant_witness :
  ∃ o w', run (@load demo)
            (idle (freshEngine (Some "example.org"))
               {[@path demo := Document (snapshot demoEngine)]}) = (o, w')
    ∧ o = Returned ∧ warnings w' = [] ∧ @view_current demo (engine w') hall.
Proof.
  destruct (@load_tolerant demo
              (idle (freshEngine (Some "example.org"))
                 {[@path demo := Document (snapshot demoEngine)]}) eq_refl)
    as (o & w' & Hrun & _ & _ & _ & _ & _ & _ & Hloaded).
  destruct (Hloaded (snapshot demoEngine)) as (Ho & Hw & Hviews).
  - by vm_compute.
  - by vm_compute.
  - vm_compute. repeat constructor. eexists. reflexivity.
  - exists o, w'. split; [exact Hrun|]. split; [exact Ho|]. split; [exact Hw|].
    apply Hviews. vm_compute. left.
Defined.

(** A room of the file that is not of the shape of a room is stored before
    [calculateRoom] runs. When the only message has no [activeDownvoteIds],
    [calculateRoom] throws: the room that was tracked is gone from the
    typed table, its view is the one of before, and the lock is free. *)
Example load_stores_before_throw :
  let w := idle demoShown {[@path demo := Document partialSnapshot]} in
  fst (run (@load demo) w) = Threw TypeError
  ∧ byRoom (engine (snd (run (@load demo) w))) !! hall = None
  ∧ getScoreboard hall (engine (snd (run (@load demo) w))) = getScoreboard hall demoShown
  ∧ lock (snd (run (@load demo) w)) = None.
Proof. by vm_compute. Qed.

(** With [null] for the name of the sender, [calculateRoom] does not throw,
    and the program goes on with a room that the typed tables cannot
    hold. *)
Example load_leaves_typed_tables :
  fst (run (@load demo) (idle demoShown {[@path demo := Document namelessSnapshot]}))
  = LeftUntyped.
Proof. by vm_compute. Qed.

(** ** Writing the snapshot and reading it back *)

Section RoundTrip.
Context `{Collaborators}.

Lemma mapM_map_Some {A B : Type} (f : A -> option B) (g : B -> A) l :
  (∀ x, f (g x) = Some x) -> mapM f (map g l) = Some l.
Proof.
  intros Hfg. induction l as [|x l IH]; simpl; [done|].
  by rewrite Hfg, IH.
Qed.

Lemma decodeMessage_jsonOfMessage m : decodeMessage (jsonOfMessage m) = Some m.
Proof.
  destruct m as [id body who name url ups downs].
  destruct name, url; simpl;
    rewrite !(mapM_map_Some asString VStr) by done; done.
Qed.

Lemma decodeRoom_jsonOfRoom scoreboard : decodeRoom (jsonOfRoom scoreboard) = Some scoreboard.
Proof.
  destruct scoreboard as [qa ms].
  destruct qa; simpl;
    rewrite (mapM_map_Some decodeMessage jsonOfMessage) by apply decodeMessage_jsonOfMessage;
    done.
Qed.

Lemma assoc_nodup {A : Type} k (v : A) l :
  NoDup l.*1 -> (k, v) ∈ l -> assoc k l = Some v.
Proof.
  induction l as [|[k' v'] l IH]; simpl; intros Hnd Hin.
  - by apply elem_of_nil in Hin.
  - apply NoDup_cons in Hnd as [Hk Hnd].
    apply elem_of_cons in Hin as [[= <- <-]|Hin].
    + by rewrite decide_True.
    + rewrite decide_False; [by apply IH|].
      intros ->. apply Hk. apply list_elem_of_fmap. by exists (k, v).
Qed.

Lemma assoc_notin {A : Type} k (l : list (string * A)) : k ∉ l.*1 -> assoc k l = None.
Proof.
  induction l as [|[k' v'] l IH]; simpl; intros Hk; [done|].
  apply not_elem_of_cons in Hk as [Hne Hk].
  rewrite decide_False by done. by apply IH.
Qed.

(** The entries of an object without repeated keys, as [for ... in] and
    the look-up by name give them. *)
Lemma forIn_object fields : NoDup fields.*1 -> forIn (VObj fields) = fields.
Proof.
  intros Hnd. unfold forIn, get.
  assert (∀ l : list (string * value),
            (∀ k v, (k, v) ∈ l -> assoc k fields = Some v) ->
            map (λ k, (k, default VUndefined (assoc k fields))) (map fst l) = l) as Hl.
  { induction l as [|[k v] l IH]; intros Hassoc; simpl; [done|].
    rewrite (Hassoc k v) by left. simpl. f_equal.
    apply IH. intros k' v' Hin. apply Hassoc. by right. }
  apply Hl. intros k v Hin. by apply assoc_nodup.
Qed.

Lemma encoded_keys (l : list (string * RoomScoreboard)) :
  (map (λ entry, (fst entry, jsonOfRoom (snd entry))) l).*1 = l.*1.
Proof. induction l as [|[k v] l IH]; simpl; [done|]. by f_equal. Qed.

Lemma typedPrefix_encoded (l : list (string * RoomScoreboard)) :
  typedPrefix (map (λ entry, (fst entry, jsonOfRoom (snd entry))) l) = l
  ∧ loadOutcome (map (λ entry, (fst entry, jsonOfRoom (snd entry))) l) = Returned.
Proof.
  induction l as [|[k v] l [IHt IHo]]; [done|].
  cbn [map typedPrefix loadOutcome fst snd].
  rewrite decodeRoom_jsonOfRoom. by rewrite IHt.
Qed.

Lemma loaded_encoded sb (l : list (string * RoomScoreboard)) :
  loaded sb (map (λ entry, (fst entry, jsonOfRoom (snd entry))) l) = foldl loadRoom sb l.
Proof.
  rewrite loaded_typed; [by destruct (typedPrefix_encoded l) as [-> _]|].
  apply Forall_forall. intros e Hin. apply list_elem_of_fmap in Hin as (x & -> & _).
  cbn [snd]. rewrite decodeRoom_jsonOfRoom. by eexists.
Qed.

(** The rooms of the document that [save] writes. *)
Lemma snapshot_rooms sb :
  get (snapshot sb) "version" = VNum JSON_FORMAT_VERSION
  ∧ forIn (get (snapshot sb) "rooms")
    = map (λ entry, (fst entry, jsonOfRoom (snd entry))) (map_to_list (byRoom sb)).
Proof.
  split; [done|].
  change (get (snapshot sb) "rooms")
    with (VObj (map (λ entry, (fst entry, jsonOfRoom (snd entry)))
                  (map_to_list (byRoom sb)))).
  apply forIn_object. rewrite encoded_keys. apply NoDup_fst_map_to_list.
Qed.

Lemma foldl_loadRoom_notin l sb roomId :
  roomId ∉ l.*1 ->
  byRoom (foldl loadRoom sb l) !! roomId = byRoom sb !! roomId
  ∧ byRoomCached (foldl loadRoom sb l) !! roomId = byRoomCached sb !! roomId.
Proof.
  revert sb. induction l as [|[k v] l IH]; intros sb Hk; simpl in *; [done|].
  apply not_elem_of_cons in Hk as [Hne Hk].
  destruct (IH (loadRoom sb (k, v)) Hk) as [-> ->].
  rewrite loadRoom_eq. simpl. by rewrite !lookup_insert_ne.
Qed.

Lemma foldl_loadRoom_lookup l sb roomId scoreboard :
  NoDup l.*1 -> (roomId, scoreboard) ∈ l ->
  byRoom (foldl loadRoom sb l) !! roomId = Some scoreboard
  ∧ byRoomCached (foldl loadRoom sb l) !! roomId
    = Some (rankRoom roomId (domain sb) scoreboard).
Proof.
  revert sb. induction l as [|[k v] l IH]; intros sb Hnd Hin; simpl in *.
  - by apply elem_of_nil in Hin.
  - apply NoDup_cons in Hnd as [Hk Hnd].
    apply elem_of_cons in Hin as [[= <- <-]|Hin].
    + destruct (foldl_loadRoom_notin l (loadRoom sb (roomId, scoreboard)) roomId Hk)
        as [-> ->].
      rewrite loadRoom_eq. simpl. by rewrite !lookup_insert_eq.
    + destruct (IH (loadRoom sb (k, v)) Hnd Hin) as [-> ->].
      by rewrite loadRoom_domain.
Qed.

Lemma saved_path sb files : saved sb files !! path = Some (Document (snapshot sb)).
Proof. unfold saved, renamed. apply lookup_insert_eq. Qed.
End RoundTrip.

(** C7. Whatever the tables, once [save] has written them, [load] into an
    engine that has tracked nothing yet returns with the same rooms: each
    with its countdown, its messages in their tracking order and their
    vote lists (the entries are equal), and each with the ranking of its
    entry as cached view. *)
Theorem save_load_roundtrip `{Collaborators} (w : World) (w0 : World) :
  lock w = None ->
  lock w0 = None ->
  engine w0 = freshEngine (domain (engine w)) ->
  disk w0 = disk (snd (run save w)) ->
  ∃ w', run load w0 = (Returned, w')
    ∧ byRoom (engine w') = byRoom (engine w)
    ∧ (∀ roomId,
         getScoreboard roomId (engine w')
         = rankRoom roomId (domain (engine w)) <$> byRoom (engine w) !! roomId)
    ∧ domain (engine w') = domain (engine w)
    ∧ warnings w' = warnings w0.
Proof.
  intros Hlock Hlock0 Hfresh Hdisk.
  destruct (run_save w Hlock) as (w1 & Hsave & _ & _ & Hd1 & _).
  rewrite Hsave in Hdisk. simpl in Hdisk. rewrite Hd1 in Hdisk.
  destruct (run_load w0 Hlock0) as (o & w' & Hrun & _ & _ & Hcases).
  unfold readFile in Hcases. rewrite Hdisk, saved_path in Hcases.
  cbn [JSON_parse] in Hcases.
  change (nullish (snapshot (engine w))) with false in Hcases.
  destruct (snapshot_rooms (engine w)) as [Hversion Hrooms].
  rewrite Hversion, Hrooms in Hcases. cbn [JSON_FORMAT_VERSION] in Hcases.
  destruct (typedPrefix_encoded (map_to_list (byRoom (engine w)))) as [_ Ho].
  rewrite Ho, loaded_encoded, Hfresh in Hcases. destruct Hcases as (-> & He & Hw).
  exists w'. split; [done|]. rewrite He.
  pose proof (NoDup_fst_map_to_list (byRoom (engine w))) as Hnd.
  assert (∀ roomId,
            byRoom (foldl loadRoom (freshEngine (domain (engine w)))
                      (map_to_list (byRoom (engine w)))) !! roomId
            = byRoom (engine w) !! roomId
            ∧ byRoomCached (foldl loadRoom (freshEngine (domain (engine w)))
                              (map_to_list (byRoom (engine w)))) !! roomId
              = rankRoom roomId (domain (engine w)) <$> byRoom (engine w) !! roomId)
    as Hlookup.
  { intros roomId.
    destruct (byRoom (engine w) !! roomId) as [scoreboard|] eqn:Hroom.
    - apply elem_of_map_to_list in Hroom.
      by destruct (foldl_loadRoom_lookup _ (freshEngine (domain (engine w)))
                     _ _ Hnd Hroom) as [-> ->].
    - destruct (foldl_loadRoom_notin (map_to_list (byRoom (engine w)))
                  (freshEngine (domain (engine w))) roomId) as [-> ->]; [|done].
      intros ([k v] & -> & Hin%elem_of_map_to_list)%list_elem_of_fmap.
      simpl in Hroom. congruence. }
  split; [apply map_eq; intros roomId; apply Hlookup|].
  split; [intros roomId; apply Hlookup|].
  split; [by rewrite foldl_loadRoom_domain|done].
Qed.

Lemma save_load_roundtrip_witness :
  ∃ w', run (@load demo)
          (idle (freshEngine (Some "example.org"))
             (disk (snd (run (@save demo) (idle demoEngine ∅)))))
        = (Returned, w')
    ∧ byRoom (engine w') = byRoom demoEngine
    ∧ (∀ roomId,
         getScoreboard roomId (engine w')
         = @rankRoom demo roomId (Some "example.org") <$> byRoom demoEngine !! roomId)
    ∧ domain (engine w') = Some "example.org"
    ∧ warnings w' = [].
Proof.
  apply (@save_load_roundtrip demo (idle demoEngine ∅)
           (idle (freshEngine (Some "example.org"))
              (disk (snd (run (@save demo) (idle demoEngine ∅))))));
    reflexivity.
Defined.

(** ** The invariant of the ledger *)

Section Invariant.
Context `{Collaborators}.





Lemma ensureRoom_cached roomId sb : byRoomCached (ensureRoom roomId sb) = byRoomCached sb.
Proof. unfold ensureRoom. by destruct (byRoom sb !! roomId). Qed.

Lemma ensureRoom_domain roomId sb : domain (ensureRoom roomId sb) = domain sb.
Proof. unfold ensureRoom. by destruct (byRoom sb !! roomId). Qed.













End Invariant.




(** ** The file under [save] *)

Section Saving.
Context `{Collaborators}.

Lemma append_ne (s t : string) : t ≠ "" -> (s +:+ t)%string ≠ s.
Proof.
  intros Ht. induction s as [|c s IH]; simpl; [done|].
  intros [= Heq]. by apply IH.
Qed.

Lemma tempFilePath_ne : tempFilePath ≠ path.
Proof. by apply append_ne. Qed.

(** Every room of the tables is in the document that [save] writes. *)
Lemma snapshot_covers sb roomId scoreboard :
  byRoom sb !! roomId = Some scoreboard ->
  decodeRoom (get (get (snapshot sb) "rooms") roomId) = Some scoreboard.
Proof.
  intros Hroom.
  change (get (snapshot sb) "rooms")
    with (VObj (map (λ entry, (fst entry, jsonOfRoom (snd entry)))
                  (map_to_list (byRoom sb)))).
  unfold get. erewrite assoc_nodup.
  - simpl. apply decodeRoom_jsonOfRoom.
  - rewrite encoded_keys. apply NoDup_fst_map_to_list.
  - apply list_elem_of_fmap. exists (roomId, scoreboard).
    split; [done|]. by apply elem_of_map_to_list.
Qed.
End Saving.

(** C4. [save] writes the document of all rooms to the temporary file and
    renames it onto the path. Wherever [save] is stopped, the file at the
    path is what it was before or the complete new document; a torn write
    is in the temporary file only. Run to its end, [save] leaves the new
    document at the path, and the document has the format version and
    every room of the tables. *)
Theorem save_atomic `{Collaborators} (w : World) (n : nat) :
  let w' := snd (steps n 0 save w) in
  (disk w' !! path = disk w !! path
   ∨ disk w' !! path = Some (Document (snapshot (engine w))))
  ∧ (lock w = None ->
     disk (snd (steps 3 0 save w)) !! tempFilePath = Some (Torn (snapshot (engine w)))
     ∧ disk (snd (steps 3 0 save w)) !! path = disk w !! path)
  ∧ (lock w = None -> (6 <= n)%nat ->
     fst (steps n 0 save w) = Ret
     ∧ disk w' !! path = Some (Document (snapshot (engine w)))
     ∧ disk w' !! tempFilePath = None
     ∧ lock w' = None)
  ∧ get (snapshot (engine w)) "version" = VNum JSON_FORMAT_VERSION
  ∧ (∀ roomId scoreboard,
       byRoom (engine w) !! roomId = Some scoreboard ->
       decodeRoom (get (get (snapshot (engine w)) "rooms") roomId) = Some scoreboard).
Proof.
  pose proof tempFilePath_ne as Hne.
  assert (∀ m, disk (snd (steps m 0 save w)) !! path = disk w !! path
               ∨ disk (snd (steps m 0 save w)) !! path
                 = Some (Document (snapshot (engine w)))) as Hany.
  { intros m. unfold save.
    destruct m as [|m]; [by left|]. simpl.
    destruct (lock w) eqn:Hlock; [by left|].
    destruct m as [|m]; [by left|]. simpl.
    destruct m as [|m]; [by left|]. simpl.
    destruct m as [|m]; [left; simpl; by rewrite lookup_insert_ne|]. simpl.
    destruct m as [|m]; [left; simpl; by rewrite !lookup_insert_ne|]. simpl.
    rewrite lookup_insert_eq.
    destruct m as [|m]; [right; simpl; apply lookup_insert_eq|]. simpl.
    destruct m as [|m]; right; simpl; apply lookup_insert_eq. }
  intros w'. split; [apply Hany|]. split; [|split; [|split]].
  - intros Hlock. unfold save. simpl. rewrite Hlock. simpl.
    rewrite lookup_insert_eq. by rewrite lookup_insert_ne.
  - intros Hlock Hn. subst w'. unfold save.
    do 6 (destruct n as [|n]; [lia|]). simpl. rewrite Hlock. simpl.
    rewrite lookup_insert_eq. simpl.
    assert (∀ t, steps n 0 Ret t = (Ret, t)) as -> by by destruct n.
    simpl. unfold renamed.
    split; [done|]. split; [apply lookup_insert_eq|]. split; [|done].
    rewrite lookup_insert_ne by done. apply lookup_delete_eq.
  - done.
  - intros roomId scoreboard. apply snapshot_covers.
Qed.

Lemma save_atomic_witness :
  let w := idle demoEngine {[@path demo := Document (snapshot (freshEngine None))]} in
  let w' := snd (steps 6 0 (@save demo) w) in
  fst (steps 6 0 (@save demo) w) = Ret
  ∧ disk w' !! @path demo = Some (Document (snapshot demoEngine))
  ∧ disk w' !! @tempFilePath demo = None
  ∧ lock w' = None.
Proof.
  intros w w'.
  destruct (@save_atomic demo w 6) as (_ & _ & Hend & _).
  apply Hend; [reflexivity | lia].
Defined.

(** ** The lock *)

Section Lock.
Context `{Collaborators}.

Lemma follows_save st : st = Before ∨ st = Between -> follows st save.
Proof. intros [-> | ->]; simpl; done. Qed.

Lemma follows_commit roomId st :
  st = Entered ∨ st = Mutating -> follows st (recalculate roomId (Release save)).
Proof.
  intros Hst. unfold recalculate.
  assert (follows Between save) by (apply follows_save; by right).
  destruct Hst as [-> | ->]; by cbn [follows next].
Qed.

Lemma follows_loadRooms entries st :
  st = Entered ∨ st = Mutating -> follows st (loadRooms entries).
Proof.
  revert st. induction entries as [|[roomId v] entries IH]; intros st Hst.
  - destruct Hst as [-> | ->]; done.
  - unfold loadRooms; fold (loadRooms entries).
    destruct (decodeRoom v).
    + unfold recalculate.
      assert (follows Mutating (loadRooms entries)) by (apply IH; by right).
      destruct Hst as [-> | ->]; by cbn [follows next].
    + destruct (roomThrows v); destruct Hst as [-> | ->]; by cbn [follows next].
Qed.

(** Every method goes through the stages. *)
Lemma follows_task_of op : follows Before (task_of op).
Proof.
  destruct op as [roomId|roomId t|auditoriums roomId event targetFetch profile
                 |auditoriums roomId event|auditoriums roomId event| |];
    cbn [task_of].
  - unfold resetScoreboard. cbn [follows next]. apply follows_commit. by right.
  - unfold showQACountdown. cbn [follows next]. apply follows_commit. by right.
  - unfold tryAddReaction.
    destruct (reactionVote auditoriums roomId event) as [[target isUpvote]|]; [|done].
    cbn [follows next]. intros sb.
    destruct (byRoom sb !! roomId) as [scoreboard|]; [|done].
    destruct (find (has_eventId target) (messages scoreboard)).
    + cbn [follows next]. apply follows_commit. by right.
    + unfold addUntracked. destruct targetFetch as [|targetEv]; [done|].
      destruct (plainTextMessage targetEv) as [[who body]|]; [|done].
      cbn [follows next]. apply follows_commit. by right.
  - unfold tryRemoveReaction.
    destruct (negb (isAuditorium auditoriums roomId)); [done|].
    destruct (redacted event) as [id|]; [|done].
    cbn [follows next]. intros sb.
    destruct (byRoom sb !! roomId) as [scoreboard|]; [|done].
    destruct (find (has_upvote id) (messages scoreboard)),
             (find (has_downvote id) (messages scoreboard));
      try done; cbn [follows next]; apply follows_commit; by right.
  - unfold tryRemoveMessage.
    destruct (negb (isAuditorium auditoriums roomId)); [done|].
    destruct (redacted event) as [id|]; [|done].
    cbn [follows next]. intros sb.
    destruct (byRoom sb !! roomId) as [scoreboard|]; [|done].
    destruct (find (has_eventId id) (messages scoreboard)); [|done].
    cbn [follows next]. apply follows_commit. by right.
  - unfold load. cbn [follows]. intros r.
    destruct r as [c| |]; [|done..].
    destruct (JSON_parse c) as [json|]; [|done].
    destruct (nullish json); [done|].
    destruct (get json "version") as [| | |n| | |]; try done.
    destruct n as [|[p|p|]|p]; try done.
    cbn [follows next]. apply follows_loadRooms. by left.
  - apply follows_save. by left.
Qed.
End Lock.

(** One step of a task that goes through the stages is a step of the
    stages. *)
Lemma step_follows tid t w t' w' st :
  follows st t -> step tid t w = Some (t', w') ->
  ∃ a st',
    history w' = history w ++ [(tid, a)]
    ∧ next st a = Some st'
    ∧ follows st' t'
    ∧ lock w' = match a with
                | ActAcquire => Some tid
                | ActRelease => None
                | _ => lock w
                end
    ∧ (a = ActAcquire -> lock w = None).
Proof.
  intros Hfol Hstep.
  destruct t as [| | |k|k|k|f k|f k kthrow|p k|p v k|p v k|src dst k kthrow|x k];
    cbn [follows] in Hfol; simpl in Hstep; try discriminate Hstep.
  - destruct (lock w) eqn:Hlock; [discriminate Hstep|]. injection Hstep as <- <-.
    destruct (next st ActAcquire) as [st'|] eqn:Hn; [|done].
    exists ActAcquire, st'. by rewrite Hn.
  - injection Hstep as <- <-.
    destruct (next st ActRelease) as [st'|] eqn:Hn; [|done].
    exists ActRelease, st'. by rewrite Hn.
  - injection Hstep as <- <-.
    destruct (next st ActRead) as [st'|] eqn:Hn; [|done].
    exists ActRead, st'. by rewrite Hn.
  - injection Hstep as <- <-.
    destruct (next st ActModify) as [st'|] eqn:Hn; [|done].
    exists ActModify, st'. by rewrite Hn.
  - destruct (next st ActModify) as [st'|] eqn:Hn; [|done]. destruct Hfol.
    exists ActModify, st'.
    destruct (f (engine w)); injection Hstep as <- <-; by rewrite Hn.
  - injection Hstep as <- <-. exists ActReadFile, st.
    split; [done|]. split; [by destruct st|done].
  - injection Hstep as <- <-.
    destruct (next st ActWrite) as [st'|] eqn:Hn; [|done].
    exists ActWrite, st'. by rewrite Hn.
  - injection Hstep as <- <-.
    destruct (next st ActFlush) as [st'|] eqn:Hn; [|done].
    exists ActFlush, st'. by rewrite Hn.
  - destruct (next st ActRename) as [st'|] eqn:Hn; [|done]. destruct Hfol.
    exists ActRename, st'.
    destruct (disk w !! src); injection Hstep as <- <-; by rewrite Hn.
  - injection Hstep as <- <-. exists ActWarn, st.
    split; [done|]. split; [by destruct st|done].
Qed.

Lemma next_holding st a st' :
  next st a = Some st' ->
  match a with
  | ActAcquire => holding st = false ∧ holding st' = true
  | ActRelease => holding st = true ∧ holding st' = false
  | ActReadFile | ActWarn => st' = st
  | _ => holding st = true ∧ holding st' = true
  end.
Proof. destruct a, st; simpl; intros [= <-]; done. Qed.

Lemma replay_snoc g h e :
  replay g (h ++ [e]) = replay g h ≫= λ g', advance g' e.
Proof. unfold replay. by rewrite foldl_app. Qed.

Lemma stageOf_insert g tid st j other :
  stageOf {| holder := other; stages := <[tid := st]> (stages g) |} j
  = if decide (tid = j) then st else stageOf g j.
Proof.
  unfold stageOf. simpl. destruct (decide (tid = j)) as [->|Hne].
  - by rewrite lookup_insert_eq.
  - by rewrite lookup_insert_ne.
Qed.

(** A step of the scheduler keeps the pool and the history in step. *)
Lemma disciplined_step pool w tid t t' w' :
  disciplined pool w -> pool !! tid = Some t -> step tid t w = Some (t', w') ->
  disciplined (<[tid := t']> pool) w'.
Proof.
  intros (g & Hrep & Hlock & Hhold & Hfol) Htid Hstep.
  destruct (step_follows tid t w t' w' (stageOf g tid) (Hfol tid t Htid) Hstep)
    as (a & st' & Hh & Hn & Hfol' & Hlock' & Hfree).
  pose proof (next_holding _ _ _ Hn) as Hnh.
  set (g' := {| holder := match a with
                          | ActAcquire => Some tid
                          | ActRelease => None
                          | _ => holder g
                          end;
                stages := <[tid := st']> (stages g) |}).
  assert (advance g (tid, a) = Some g') as Hadv.
  { unfold advance. simpl. rewrite Hn.
    destruct a; try done;
      try (rewrite decide_True; [done|by apply Hhold, Hnh]).
    rewrite <- Hlock, Hfree; done. }
  exists g'. split; [|split; [|split]].
  - rewrite Hh, replay_snoc, Hrep. exact Hadv.
  - rewrite Hlock', Hlock. by destruct a.
  - intros j. unfold g'. rewrite stageOf_insert.
    destruct (decide (tid = j)) as [<-|Hne].
    + destruct a; simpl in Hnh |- *;
        try (rewrite Hnh; by apply Hhold);
        destruct Hnh as [H1 H2]; rewrite H2;
        first [ by split | by split; intros [=] | by (apply Hhold in H1; split) ].
    + assert (holder g = Some tid -> holding (stageOf g j) = true ↔ Some tid = Some j)
        as Hmine.
      { intros Hg. rewrite Hhold, Hg. done. }
      assert (holder g = None -> holding (stageOf g j) = true ↔ Some tid = Some j)
        as Hnone.
      { intros Hg. rewrite Hhold, Hg. split; [done|]. intros [=]. done. }
      destruct a; simpl; try apply Hhold.
      * apply Hnone. rewrite <- Hlock. by apply Hfree.
      * destruct Hnh as [H1 _]. apply Hhold in H1.
        rewrite Hhold, H1. split; [intros [=]; done|done].
  - intros j tj Hj. unfold g'. rewrite stageOf_insert.
    destruct (decide (tid = j)) as [<-|Hne].
    + rewrite list_lookup_insert_eq in Hj by by eapply lookup_lt_Some.
      by injection Hj as <-.
    + rewrite list_lookup_insert_ne in Hj by done. by apply Hfol.
Qed.

Lemma exec_disciplined schedule pool w :
  disciplined pool w ->
  disciplined (fst (exec schedule pool w)) (snd (exec schedule pool w)).
Proof.
  revert pool w. induction schedule as [|tid schedule IH]; intros pool w Hd; [done|].
  simpl. destruct (pool !! tid) as [t|] eqn:Htid; [|by apply IH].
  destruct (step tid t w) as [[t' w']|] eqn:Hstep; [|by apply IH].
  apply IH. by eapply disciplined_step.
Qed.

Lemma lookup_map_Some {A B : Type} (f : A -> B) l (i : nat) y :
  map f l !! i = Some y -> ∃ x, l !! i = Some x ∧ y = f x.
Proof.
  revert i. induction l as [|x l IH]; intros [|i]; simpl; try done.
  - intros [= <-]. by exists x.
  - apply IH.
Qed.

(** C3, as stated, fails: the persist of a mutation is not in the critical
    section of the mutation. In the example the redaction of [$m2] (task 1)
    updates the tables after the vote on [$m1] (task 0) has been recorded
    and before task 0 has saved; what task 0 then writes is the state after
    both. *)
Lemma lock_interleaving_counterexample :
  let run2 := exec demoSchedule (map (@task_of demo) demoPool) (idle demoShown ∅) in
  fst run2 = [Ret; Ret]
  ∧ history (snd run2)
    = [(0, ActAcquire); (0, ActModify); (0, ActRead); (0, ActModify); (0, ActModify);
       (0, ActRelease);
       (1, ActAcquire); (1, ActRead); (1, ActModify); (1, ActModify); (1, ActRelease);
       (0, ActAcquire); (0, ActRead); (0, ActWrite); (0, ActFlush); (0, ActRename);
       (0, ActRelease);
       (1, ActAcquire); (1, ActRead); (1, ActWrite); (1, ActFlush); (1, ActRename);
       (1, ActRelease)]%nat
  ∧ interleaved (history (snd run2))
  ∧ (let saved0 := snd (exec (take 18 demoSchedule) (map (@task_of demo) demoPool)
                          (idle demoShown ∅)) in
     last (history saved0) = Some (0%nat, ActRelease)
     ∧ disk saved0 !! @path demo = Some (Document (snapshot (engine saved0)))
     ∧ (map eventId ∘ messages) <$> byRoom (engine saved0) !! hall
       = Some ["$m1"; "$m3"]).
Proof.
  split; [by vm_compute|]. split; [by vm_compute|].
  split; [|by vm_compute].
  exists 0%nat, 1%nat,
    [(0, ActAcquire); (0, ActModify); (0, ActRead); (0, ActModify)]%nat,
    [(0, ActRelease); (1, ActAcquire); (1, ActRead)]%nat,
    [(1, ActModify); (1, ActRelease); (0, ActAcquire); (0, ActRead); (0, ActWrite);
     (0, ActFlush)]%nat,
    [(0, ActRelease); (1, ActAcquire); (1, ActRead); (1, ActWrite); (1, ActFlush);
     (1, ActRename); (1, ActRelease)]%nat.
  split; [done|]. split; [by vm_compute|].
  intros Hin. repeat (apply elem_of_cons in Hin as [Hin|Hin]; [discriminate Hin|]).
  by apply elem_of_nil in Hin.
Qed.

(** C3, amended. Whatever the operations that run together and however
    the scheduler interleaves their steps, the history keeps the discipline
    of [advance]: the lock is taken only when it is free; every read and
    update of the tables and every write and rename of the file is a step
    of the task that holds the lock; each operation has one critical
    section for its reads and updates of the tables, view included, and,
    after it has released the lock, one more for the write and rename of
    [save]. The critical sections are thus totally ordered and a persist
    does not overlap an update; the persist of an update is a later
    section than the update itself. *)
Theorem lock_discipline `{Collaborators} (ops : list Operation) (schedule : list nat)
    (w : World) :
  lock w = None ->
  history w = [] ->
  ∃ g, replay start (history (snd (exec schedule (map task_of ops) w))) = Some g
    ∧ lock (snd (exec schedule (map task_of ops) w)) = holder g
    ∧ ∀ tid, holding (stageOf g tid) = true ↔ holder g = Some tid.
Proof.
  intros Hlock Hhistory.
  destruct (exec_disciplined schedule (map task_of ops) w) as (g & ? & ? & ? & _).
  - exists start. rewrite Hhistory, Hlock. split; [done|]. split; [done|].
    split; [by split|].
    intros tid t Htid. apply lookup_map_Some in Htid as (op & _ & ->).
    apply follows_task_of.
  - by exists g.
Qed.

Lemma lock_discipline_witness :
  ∃ g, replay start
         (history (snd (exec demoSchedule (map (@task_of demo) demoPool)
                          (idle demoShown ∅)))) = Some g
    ∧ lock (snd (exec demoSchedule (map (@task_of demo) demoPool)
                   (idle demoShown ∅))) = holder g
    ∧ ∀ tid, holding (stageOf g tid) = true ↔ holder g = Some tid.
Proof.
  apply (@lock_discipline demo demoPool demoSchedule (idle demoShown ∅));
    reflexivity.
Defined.

(** A history in which an update of the tables and the write of the file
    share one critical section, as C3 has it, is not one that [replay]
    accepts; nor is an update by a task that does not hold the lock. *)
Example replay_rejects_shared_section :
  replay start [(0, ActAcquire); (0, ActModify); (0, ActWrite)]%nat = None
  ∧ replay start [(0, ActAcquire); (1, ActModify)]%nat = None
  ∧ replay start [(0, ActAcquire); (1, ActAcquire)]%nat = None.
Proof. by vm_compute. Qed.

(** ** The scenarios of the spec *)

(** Scenario A: upvotes [u1], [u2] and downvote [d1] give the score 1. The
    message is tracked on the first reaction, with the name and the
    thumbnail of its sender. *)
Example scenario_A :
  shown hall scenarioA = Some [("Why?", 1)]
  ∧ votesOn (engine scenarioA) hall "$M" = Some (["$u1"; "$u2"], ["$d1"])
  ∧ (map (λ m, (senderName m, senderHttpUrl m)) ∘ messages)
      <$> byRoom (engine scenarioA) !! hall
    = Some [(Some "Alice",
             Some "https://example.org/_matrix/media/r0/thumbnail/example.org/abc?method=crop&width=64&height=64")].
Proof. by vm_compute. Qed.

(** Scenario B: the redaction of [u2] brings the score to 0. *)
Example scenario_B :
  shown hall (deliver [redaction "$x1" "$u2"] scenarioA) = Some [("Why?", 0)].
Proof. by vm_compute. Qed.

(** Scenario C: the redaction of the message removes it from the ranking. *)
Example scenario_C :
  shown hall (deliver [redaction "$x2" "$M"] scenarioA) = Some [].
Proof. by vm_compute. Qed.

(** Scenario E: a countdown that is set is gone after a reset. *)
Example scenario_E :
  let counting := snd (run (@showQACountdown demo hall 1700000000000) scenarioA) in
  let cleared := snd (run (@resetScoreboard demo hall) counting) in
  (cached_qaStartTime <$> getScoreboard hall (engine counting)) = Some (Some 1700000000000)
  ∧ byRoom (engine cleared) !! hall = Some emptyRoom
  ∧ (cached_qaStartTime <$> getScoreboard hall (engine cleared)) = Some None.
Proof. by vm_compute. Qed.

(** ** The file at the path under concurrent operations *)

Section CrashSafety.
Context `{Collaborators}.

Lemma saves_commit roomId : saves (recalculate roomId (Release save)).
Proof.
  unfold recalculate, save. simpl. split; [|done]. intros sb.
  split; [done|]. split; [by exists sb|done].
Qed.

Lemma saves_loadRooms entries : saves (loadRooms entries).
Proof.
  induction entries as [|[roomId v] entries IH]; [done|].
  unfold loadRooms; fold (loadRooms entries).
  destruct (decodeRoom v); [|by destruct (roomThrows v)].
  unfold recalculate. by simpl.
Qed.

Lemma saves_task_of op : saves (task_of op).
Proof.
  pose proof saves_commit as Hcommit.
  destruct op as [roomId|roomId t|auditoriums roomId event targetFetch profile
                 |auditoriums roomId event|auditoriums roomId event| |];
    cbn [task_of].
  - unfold resetScoreboard. cbn [saves]. apply Hcommit.
  - unfold showQACountdown. cbn [saves]. apply Hcommit.
  - unfold tryAddReaction.
    destruct (reactionVote auditoriums roomId event) as [[target isUpvote]|]; [|done].
    cbn [saves]. intros sb.
    destruct (byRoom sb !! roomId) as [scoreboard|]; [|done].
    destruct (find (has_eventId target) (messages scoreboard)); [apply Hcommit|].
    unfold addUntracked. destruct targetFetch as [|targetEv]; [done|].
    destruct (plainTextMessage targetEv) as [[who body]|]; [|done].
    apply Hcommit.
  - unfold tryRemoveReaction.
    destruct (negb (isAuditorium auditoriums roomId)); [done|].
    destruct (redacted event) as [id|]; [|done].
    cbn [saves]. intros sb.
    destruct (byRoom sb !! roomId) as [scoreboard|]; [|done].
    destruct (find (has_upvote id) (messages scoreboard)),
             (find (has_downvote id) (messages scoreboard));
      try done; apply Hcommit.
  - unfold tryRemoveMessage.
    destruct (negb (isAuditorium auditoriums roomId)); [done|].
    destruct (redacted event) as [id|]; [|done].
    cbn [saves]. intros sb.
    destruct (byRoom sb !! roomId) as [scoreboard|]; [|done].
    destruct (find (has_eventId id) (messages scoreboard)); [|done].
    apply Hcommit.
  - unfold load. cbn [saves]. intros r.
    destruct r as [c| |]; [|done..].
    destruct (JSON_parse c) as [json|]; [|done].
    destruct (nullish json); [done|].
    destruct (get json "version") as [| | |n| | |]; try done.
    destruct n as [|[p|p|]|p]; try done.
    apply saves_loadRooms.
  - unfold save. simpl. intros sb. split; [done|]. split; [by exists sb|done].
Qed.

Lemma saves_saving t : saves t -> saving t.
Proof. by destruct t. Qed.

Lemma saves_not_renaming t : saves t -> renaming t = false.
Proof. by destruct t. Qed.

(** A task that is about to write or rename holds the lock. *)
Lemma writer_holds g tid t :
  (∀ j, holding (stageOf g j) = true ↔ holder g = Some j) ->
  follows (stageOf g tid) t ->
  match t with
  | WriteFile _ _ _ | FlushFile _ _ _ | Rename _ _ _ _ => holder g = Some tid
  | _ => True
  end.
Proof.
  intros Hhold Hfol. destruct t; try done; cbn [follows] in Hfol; apply Hhold.
  - destruct (next (stageOf g tid) ActWrite) eqn:Hn; [|done].
    by destruct (next_holding _ _ _ Hn).
  - destruct (next (stageOf g tid) ActFlush) eqn:Hn; [|done].
    by destruct (next_holding _ _ _ Hn).
  - destruct (next (stageOf g tid) ActRename) eqn:Hn; [|done].
    by destruct (next_holding _ _ _ Hn).
Qed.

(** A step that leaves the disk alone. *)
Lemma crash_safe_quiet first pool w tid t t' w' :
  crash_safe first pool w -> pool !! tid = Some t ->
  disciplined (<[tid := t']> pool) w' ->
  disk w' = disk w -> saves t' ->
  crash_safe first (<[tid := t']> pool) w'.
Proof.
  intros (_ & Hsav & Hren & Hint) Htid Hd Hdisk Ht'.
  split; [done|]. rewrite Hdisk. split; [|split; [|done]].
  - intros j tj Hj. destruct (decide (tid = j)) as [<-|Hne].
    + rewrite list_lookup_insert_eq in Hj by by eapply lookup_lt_Some.
      injection Hj as <-. by apply saves_saving.
    + rewrite list_lookup_insert_ne in Hj by done. by eapply Hsav.
  - intros j tj Hj Hr. destruct (decide (tid = j)) as [<-|Hne].
    + rewrite list_lookup_insert_eq in Hj by by eapply lookup_lt_Some.
      injection Hj as <-. by rewrite saves_not_renaming in Hr.
    + rewrite list_lookup_insert_ne in Hj by done. by eapply Hren.
Qed.

Lemma crash_safe_step first pool w tid t t' w' :
  crash_safe first pool w -> pool !! tid = Some t -> step tid t w = Some (t', w') ->
  crash_safe first (<[tid := t']> pool) w'.
Proof.
  intros Hsafe Htid Hstep.
  pose proof Hsafe as (Hd & Hsav & Hren & Hint).
  pose proof (disciplined_step _ _ _ _ _ _ Hd Htid Hstep) as Hd'.
  pose proof (Hsav tid t Htid) as Ht.
  pose proof tempFilePath_ne as Hne.
  destruct Hd as (g & _ & _ & Hhold & Hfol).
  pose proof (writer_holds g tid t Hhold (Hfol tid t Htid)) as Hmine.
  assert (∀ j tj, holder g = Some tid -> pool !! j = Some tj ->
                  renaming tj = true -> j = tid) as Hone.
  { intros j tj Hg Hj Hr.
    pose proof (writer_holds g j tj Hhold (Hfol j tj Hj)) as Hj'.
    destruct tj; try discriminate Hr. congruence. }
  destruct t as [| | |k|k|k|f k|f k kthrow|p k|p v k|p v k|src dst k kthrow|x k];
    simpl in Hstep; try discriminate Hstep.
  - destruct (lock w); [discriminate Hstep|]. injection Hstep as <- <-.
    by eapply crash_safe_quiet.
  - injection Hstep as <- <-. by eapply crash_safe_quiet.
  - injection Hstep as <- <-. eapply crash_safe_quiet; first [done|apply Ht].
  - injection Hstep as <- <-. by eapply crash_safe_quiet.
  - destruct Ht. destruct (f (engine w)); injection Hstep as <- <-;
      by eapply crash_safe_quiet.
  - injection Hstep as <- <-. eapply crash_safe_quiet; first [done|apply Ht].
  - (* the write to the temporary file *)
    injection Hstep as <- <-. cbn [saving saves] in Ht.
    destruct Ht as (-> & Hv & Hk).
    split; [done|]. split; [|split].
    + intros j tj Hj. destruct (decide (tid = j)) as [<-|Hj'].
      * rewrite list_lookup_insert_eq in Hj by by eapply lookup_lt_Some.
        injection Hj as <-. by cbn [saving saves].
      * rewrite list_lookup_insert_ne in Hj by done. by eapply Hsav.
    + intros j tj Hj Hr. destruct (decide (tid = j)) as [<-|Hj'].
      * rewrite list_lookup_insert_eq in Hj by by eapply lookup_lt_Some.
        by injection Hj as <-.
      * rewrite list_lookup_insert_ne in Hj by done.
        by destruct Hj'; symmetry; eapply Hone.
    + destruct Hint as [Hint|[sb Hint]]; [left|right; exists sb];
        simpl; by rewrite lookup_insert_ne.
  - (* the end of the write *)
    injection Hstep as <- <-. cbn [saving saves] in Ht.
    destruct Ht as (-> & [sb ->] & Hk).
    split; [done|]. split; [|split].
    + intros j tj Hj. destruct (decide (tid = j)) as [<-|Hj'].
      * rewrite list_lookup_insert_eq in Hj by by eapply lookup_lt_Some.
        injection Hj as <-. by destruct k.
      * rewrite list_lookup_insert_ne in Hj by done. by eapply Hsav.
    + intros j tj Hj Hr. exists sb. simpl. apply lookup_insert_eq.
    + destruct Hint as [Hint|[sb' Hint]]; [left|right; exists sb'];
        simpl; by rewrite lookup_insert_ne.
  - (* the rename *)
    cbn [saving] in Ht. destruct Ht as (-> & -> & Hk1 & Hk2).
    destruct (Hren tid _ Htid eq_refl) as [sb Htmp]. rewrite Htmp in Hstep.
    injection Hstep as <- <-.
    split; [done|]. split; [|split].
    + intros j tj Hj. destruct (decide (tid = j)) as [<-|Hj'].
      * rewrite list_lookup_insert_eq in Hj by by eapply lookup_lt_Some.
        injection Hj as <-. by apply saves_saving.
      * rewrite list_lookup_insert_ne in Hj by done. by eapply Hsav.
    + intros j tj Hj Hr. destruct (decide (tid = j)) as [<-|Hj'].
      * rewrite list_lookup_insert_eq in Hj by by eapply lookup_lt_Some.
        injection Hj as <-. by rewrite saves_not_renaming in Hr.
      * rewrite list_lookup_insert_ne in Hj by done.
        by destruct Hj'; symmetry; eapply Hone.
    + right. exists sb. simpl. apply lookup_insert_eq.
  - injection Hstep as <- <-. by eapply crash_safe_quiet.
Qed.

Lemma exec_crash_safe first schedule pool w :
  crash_safe first pool w ->
  crash_safe first (fst (exec schedule pool w)) (snd (exec schedule pool w)).
Proof.
  revert pool w. induction schedule as [|tid schedule IH]; intros pool w Hs; [done|].
  simpl. destruct (pool !! tid) as [t|] eqn:Htid; [|by apply IH].
  destruct (step tid t w) as [[t' w']|] eqn:Hstep; [|by apply IH].
  apply IH. by eapply crash_safe_step.
Qed.

End CrashSafety.

(** X4. Wherever the operations that run together are stopped, under any
    schedule, the file at the path is the one that was there at first or a
    complete document of the tables: no interleaving of the methods leaves
    a torn write at the path. *)
Theorem path_never_torn `{Collaborators} (ops : list Operation) (schedule : list nat)
    (w : World) :
  lock w = None -> history w = [] ->
  intact (disk w !! path) (disk (snd (exec schedule (map task_of ops) w))).
Proof.
  intros Hlock Hhistory.
  apply (exec_crash_safe (disk w !! path) schedule (map task_of ops) w).
  split; [|split; [|split]].
  - exists start. rewrite Hhistory, Hlock. split; [done|]. split; [done|].
    split; [by split|].
    intros tid t Htid. apply lookup_map_Some in Htid as (op & _ & ->).
    apply follows_task_of.
  - intros tid t Htid. apply lookup_map_Some in Htid as (op & _ & ->).
    apply saves_saving, saves_task_of.
  - intros tid t Htid Hr. apply lookup_map_Some in Htid as (op & _ & ->).
    by rewrite (saves_not_renaming _ (saves_task_of op)) in Hr.
  - by left.
Qed.

Lemma path_never_torn_witness :
  @intact demo (disk (idle demoShown ∅) !! @path demo)
    (disk (snd (exec demoSchedule (map (@task_of demo) demoPool) (idle demoShown ∅)))).
Proof.
  exact (@path_never_torn demo demoPool demoSchedule (idle demoShown ∅) eq_refl eq_refl).
Defined.

(** ** The operations path by path *)

Section Results.
Context `{Collaborators}.

Lemma find_None_default roomId sb target :
  byRoom sb !! roomId = None ->
  find (has_eventId target) (messages (default emptyRoom (byRoom sb !! roomId))) = None.
Proof. by intros ->. Qed.

(** Every operation that runs alone ends on one of the paths of [result],
    with the lock released; it has saved exactly when the path says so. *)
Lemma run_result op w :
  lock w = None ->
  ∃ sb saved_, result w op sb saved_
    ∧ engine (snd (run (task_of op) w)) = sb
    ∧ lock (snd (run (task_of op) w)) = None
    ∧ disk (snd (run (task_of op) w))
      = (if saved_ then saved sb (disk w) else disk w).
Proof.
  intros Hlock.
  destruct op as [roomId|roomId t|auditoriums roomId event targetFetch profile
                 |auditoriums roomId event|auditoriums roomId event| |];
    cbn [task_of].
  - destruct (run_resetScoreboard roomId w Hlock) as (w' & Hrun & He & ? & Hd & _).
    rewrite Hrun. simpl. eexists _, true. split; [apply res_reset|].
    by rewrite <- He.
  - destruct (run_showQACountdown roomId t w Hlock) as (w' & Hrun & He & ? & Hd & _).
    rewrite Hrun. simpl. eexists _, true. split; [apply res_countdown|].
    by rewrite <- He.
  - destruct (reactionVote auditoriums roomId event) as [[target isUpvote]|] eqn:Hvote.
    2:{ rewrite run_tryAddReaction_dropped by done. simpl.
        eexists _, false. split; [apply res_nothing|done]. }
    destruct (find (has_eventId target)
                (messages (default emptyRoom (byRoom (engine w) !! roomId))))
      as [m|] eqn:Hfind.
    + destruct (byRoom (engine w) !! roomId) as [scoreboard|] eqn:Hroom; [|done].
      simpl in Hfind.
      destruct (run_tryAddReaction_tracked auditoriums roomId event targetFetch
                  profile w target isUpvote scoreboard m Hlock Hvote Hroom Hfind)
        as (w' & Hrun & He & ? & Hd & _).
      rewrite Hrun. simpl. eexists _, true.
      split; [by eapply res_vote|]. by rewrite <- He.
    + destruct (run_tryAddReaction_untracked auditoriums roomId event targetFetch
                  profile w target isUpvote Hlock Hvote Hfind)
        as (w' & Hrun & He & ? & Hd & _).
      rewrite Hrun. simpl.
      destruct (fetchedText targetFetch) as [[who body]|] eqn:Htext.
      * eexists _, true. split; [by eapply res_track|]. by rewrite <- He.
      * eexists _, false. split; [by eapply res_dropped|]. by rewrite <- He.
  - destruct (run_tryRemoveReaction auditoriums roomId event w Hlock)
      as (w' & Hrun & ? & _ & [[He Hd]|(id & scoreboard & ? & ? & He & Hd)]);
      rewrite Hrun; simpl.
    + eexists _, false. split; [apply res_nothing|]. by rewrite He.
    + eexists _, true. split; [by eapply res_unvote|]. by rewrite <- He.
  - destruct (run_tryRemoveMessage auditoriums roomId event w Hlock)
      as (w' & Hrun & ? & _ & [[He Hd]|(id & scoreboard & ? & ? & He & Hd)]);
      rewrite Hrun; simpl.
    + eexists _, false. split; [apply res_nothing|]. by rewrite He.
    + eexists _, true. split; [by eapply res_untrack|]. by rewrite <- He.
  - destruct (run_load w Hlock) as (o & w' & Hrun & ? & Hd & Hcases).
    rewrite Hrun. simpl.
    assert (engine w' = engine w ->
            ∃ sb saved_, result w OpLoad sb saved_ ∧ engine w' = sb ∧ lock w' = None
              ∧ disk w' = (if saved_ then saved sb (disk w) else disk w)) as Hsame.
    { intros He. eexists _, false. split; [apply res_nothing|]. by rewrite He. }
    unfold readFile in Hcases.
    destruct (disk w !! path) as [c|] eqn:Hfile; [|by apply Hsame, Hcases].
    destruct c as [json| | |]; try by apply Hsame, Hcases.
    simpl in Hcases.
    destruct (nullish json); [by apply Hsame, Hcases|].
    destruct (get json "version") as [| | |n| | |] eqn:Hversion;
      try by apply Hsame, Hcases.
    destruct n as [|[p|p|]|p]; try by apply Hsame, Hcases.
    destruct Hcases as (_ & He & _).
    eexists _, false. split; [by apply res_load|]. by rewrite He.
  - destruct (run_save w Hlock) as (w' & Hrun & He & ? & Hd & _).
    rewrite Hrun. simpl. eexists _, true. split; [apply res_save|].
    by rewrite He in *.
Qed.
End Results.

(** ** Rooms do not touch each other *)

Section Frame.
Context `{Collaborators}.

Lemma recalculated_cached_ne roomId other sb :
  roomId ≠ other ->
  byRoomCached (recalculated roomId sb) !! other = byRoomCached sb !! other.
Proof.
  intros Hne. unfold recalculated, calculateRoom.
  destruct (byRoom sb !! roomId); simpl; [|done]. by rewrite lookup_insert_ne.
Qed.

Lemma setQaStartTime_lookup_ne roomId other t sb :
  roomId ≠ other -> byRoom (setQaStartTime roomId t sb) !! other = byRoom sb !! other.
Proof. intros Hne. unfold setQaStartTime. simpl. by rewrite lookup_alter_ne. Qed.

(** An operation on one room leaves the other rooms alone. *)
Lemma result_frame w op sb saved_ roomId other :
  result w op sb saved_ -> roomOf op = Some roomId -> other ≠ roomId ->
  byRoom sb !! other = byRoom (engine w) !! other
  ∧ byRoomCached sb !! other = byRoomCached (engine w) !! other
  ∧ domain sb = domain (engine w).
Proof.
  intros Hres Hroom Hne.
  destruct Hres; simpl in Hroom; try discriminate Hroom; try done;
    injection Hroom as ->;
    rewrite ?recalculated_byRoom, ?recalculated_domain,
      ?recalculated_cached_ne by done;
    unfold recordVote, trackMessage, removeVote, untrackMessage, update_room,
      setQaStartTime; simpl;
    rewrite ?lookup_alter_ne, ?lookup_insert_ne, ?ensureRoom_lookup_ne,
      ?ensureRoom_cached, ?ensureRoom_domain by done;
    done.
Qed.
End Frame.

(** X1. An operation on a room (reset, countdown, reaction, redaction)
    leaves the entry and the cached view of every other room, and the
    domain, as they were. *)
Theorem operation_frame `{Collaborators} (op : Operation) (w : World)
    (roomId other : string) :
  lock w = None ->
  roomOf op = Some roomId ->
  other ≠ roomId ->
  byRoom (engine (snd (run (task_of op) w))) !! other = byRoom (engine w) !! other
  ∧ getScoreboard other (engine (snd (run (task_of op) w)))
    = getScoreboard other (engine w)
  ∧ domain (engine (snd (run (task_of op) w))) = domain (engine w).
Proof.
  intros Hlock Hroom Hne.
  destruct (run_result op w Hlock) as (sb & saved_ & Hres & -> & _).
  by eapply result_frame.
Qed.

Lemma operation_frame_witness :
  let w' := snd (run (@task_of demo (OpReset "!annex:example.org")) (idle demoShown ∅)) in
  byRoom (engine w') !! hall = byRoom demoShown !! hall
  ∧ getScoreboard hall (engine w') = getScoreboard hall demoShown
  ∧ domain (engine w') = domain demoShown.
Proof.
  apply (@operation_frame demo (OpReset "!annex:example.org") (idle demoShown ∅)
           "!annex:example.org" hall); [reflexivity | reflexivity | discriminate].
Defined.

(** ** The cached views *)

Section Views.
Context `{Collaborators}.

Lemma views_exact_fresh dom : views_exact (freshEngine dom).
Proof. intros roomId. unfold getScoreboard. simpl. by rewrite !lookup_empty. Qed.

Lemma views_exact_commit sb sb' roomId :
  views_exact sb ->
  (∀ other, other ≠ roomId -> byRoom sb' !! other = byRoom sb !! other) ->
  byRoomCached sb' = byRoomCached sb ->
  domain sb' = domain sb ->
  is_Some (byRoom sb' !! roomId) ->
  views_exact (recalculated roomId sb').
Proof.
  intros Hv Hother Hcache Hdom [scoreboard Hroom] r.
  unfold getScoreboard. rewrite recalculated_byRoom, recalculated_domain.
  rewrite (recalculated_view _ _ _ Hroom).
  destruct (decide (r = roomId)) as [->|Hne].
  - rewrite Hroom, lookup_insert_eq. by left.
  - rewrite lookup_insert_ne, Hother, Hcache, Hdom by done. apply Hv.
Qed.

Lemma views_exact_ensureRoom sb roomId :
  views_exact sb -> views_exact (ensureRoom roomId sb).
Proof.
  intros Hv r. pose proof (Hv r) as Hr. pose proof (Hv roomId) as Hroom.
  unfold ensureRoom, getScoreboard in *.
  destruct (byRoom sb !! roomId) eqn:E; [done|]. simpl.
  destruct (decide (roomId = r)) as [<-|Hne].
  - rewrite lookup_insert_eq. by right.
  - by rewrite lookup_insert_ne.
Qed.

Lemma views_exact_loadRoom sb roomId scoreboard :
  views_exact sb -> views_exact (loadRoom sb (roomId, scoreboard)).
Proof.
  intros Hv. unfold loadRoom. simpl. apply (views_exact_commit sb); try done.
  - intros other Hne. simpl. by rewrite lookup_insert_ne.
  - simpl. by rewrite lookup_insert_eq.
Qed.

Lemma views_exact_foldl l sb : views_exact sb -> views_exact (foldl loadRoom sb l).
Proof.
  revert sb. induction l as [|[k v] l IH]; intros sb Hv; simpl; [done|].
  by apply IH, views_exact_loadRoom.
Qed.

Lemma views_exact_result w op sb saved_ :
  views_exact (engine w) -> typed_snapshot op w -> result w op sb saved_ ->
  views_exact sb.
Proof.
  intros Hv Htyped Hres. destruct Hres; try done.
  - apply (views_exact_commit (engine w)); try done.
    + intros other Hne. simpl. by rewrite lookup_insert_ne.
    + simpl. by rewrite lookup_insert_eq.
  - apply (views_exact_commit (engine w)); try done.
    + intros other Hne. by rewrite setQaStartTime_lookup_ne, ensureRoom_lookup_ne.
    + apply ensureRoom_cached.
    + apply ensureRoom_domain.
    + unfold setQaStartTime. simpl. by rewrite lookup_alter_eq, ensureRoom_lookup.
  - apply (views_exact_commit (engine w)); try done.
    + intros other Hne. by apply update_room_lookup_ne.
    + unfold recordVote. by rewrite update_room_lookup, H1.
  - by apply views_exact_ensureRoom.
  - apply (views_exact_commit (engine w)); try done.
    + intros other Hne. unfold trackMessage.
      by rewrite update_room_lookup_ne, ensureRoom_lookup_ne.
    + apply ensureRoom_cached.
    + apply ensureRoom_domain.
    + unfold trackMessage. by rewrite update_room_lookup, ensureRoom_lookup.
  - apply (views_exact_commit (engine w)); try done.
    + intros other Hne. by apply update_room_lookup_ne.
    + unfold removeVote. by rewrite update_room_lookup, H1.
  - apply (views_exact_commit (engine w)); try done.
    + intros other Hne. by apply update_room_lookup_ne.
    + unfold untrackMessage. by rewrite update_room_lookup, H1.
  - rewrite (loaded_typed _ _ (Htyped json H0 H1)). by apply views_exact_foldl.
Qed.
End Views.

(** X2. The cached views follow the tables: when the view of every room is
    the ranking of its entry before an operation, it is so afterwards, for
    every operation and on every path; for [load], when the rooms of the
    file have the shape of a room. Only a room that a dropped reaction has
    created, still without message and countdown, has no view. *)
Theorem views_exact_preserved `{Collaborators} (op : Operation) (w : World) :
  lock w = None ->
  views_exact (engine w) ->
  typed_snapshot op w ->
  views_exact (engine (snd (run (task_of op) w))).
Proof.
  intros Hlock Hv Htyped.
  destruct (run_result op w Hlock) as (sb & saved_ & Hres & -> & _).
  by eapply views_exact_result.
Qed.

Lemma views_exact_preserved_witness :
  @views_exact demo
    (engine (snd (run (@task_of demo OpLoad)
                    (idle demoShown
                       {[@path demo := Document (snapshot demoShown)]})))).
Proof.
  apply (@views_exact_preserved demo OpLoad
           (idle demoShown {[@path demo := Document (snapshot demoShown)]})).
  - reflexivity.
  - apply views_exact_loadRoom, views_exact_fresh.
  - intros json Hfile Hversion.
    vm_compute in Hfile. injection Hfile as <-.
    vm_compute. repeat constructor. by eexists.
Defined.

(** ** The ids of the tracked messages *)

Section UniqueIds.
Context `{Collaborators}.

Lemma eventId_update_found (p : RoomMessage -> bool) (f : RoomMessage -> RoomMessage) l :
  (∀ m, eventId (f m) = eventId m) ->
  map eventId (update_found p f l) = map eventId l.
Proof.
  intros Hf. induction l as [|x l IH]; simpl; [done|].
  destruct (p x); simpl; by rewrite ?Hf, ?IH.
Qed.

Lemma remove_found_sublist {A : Type} (p : A -> bool) l : remove_found p l `sublist_of` l.
Proof.
  induction l as [|x l IH]; simpl; [done|].
  destruct (p x); [by apply sublist_cons | by apply sublist_skip].
Qed.

Lemma find_None_notin target l :
  find (has_eventId target) l = None -> target ∉ map eventId l.
Proof.
  induction l as [|x l IH]; simpl; [intros _; apply not_elem_of_nil|].
  unfold has_eventId at 1. destruct (String.eqb_spec (eventId x) target); [done|].
  intros Hf. apply not_elem_of_cons. split; [done | by apply IH].
Qed.

Lemma eventId_newMessage target who body isUpvote id profile :
  eventId (newMessage target who body isUpvote id profile) = target.
Proof. unfold newMessage. by destruct profile, isUpvote. Qed.

Lemma unique_ids_recalculated roomId sb :
  unique_ids (recalculated roomId sb) ↔ unique_ids sb.
Proof. unfold unique_ids. by rewrite recalculated_byRoom. Qed.

Lemma unique_ids_update_room sb roomId f :
  unique_ids sb ->
  (∀ scoreboard, byRoom sb !! roomId = Some scoreboard ->
     NoDup (map eventId (messages scoreboard)) ->
     NoDup (map eventId (f (messages scoreboard)))) ->
  unique_ids (update_room roomId f sb).
Proof.
  intros Hu Hf r scoreboard. destruct (decide (r = roomId)) as [->|Hne].
  - rewrite update_room_lookup. destruct (byRoom sb !! roomId) eqn:E; [|done].
    intros [= <-]. simpl. by apply Hf, (Hu roomId).
  - rewrite update_room_lookup_ne by done. apply Hu.
Qed.

Lemma unique_ids_insert sb roomId scoreboard :
  unique_ids sb -> NoDup (map eventId (messages scoreboard)) ->
  unique_ids (set_byRoom <[roomId := scoreboard]> sb).
Proof.
  intros Hu Hn r s. simpl. destruct (decide (r = roomId)) as [->|Hne].
  - rewrite lookup_insert_eq. by intros [= <-].
  - rewrite lookup_insert_ne by done. apply Hu.
Qed.

Lemma unique_ids_ensureRoom sb roomId : unique_ids sb -> unique_ids (ensureRoom roomId sb).
Proof.
  intros Hu. unfold ensureRoom. destruct (byRoom sb !! roomId); [done|].
  apply unique_ids_insert; [done | apply NoDup_nil_2].
Qed.

Lemma unique_ids_foldl l sb :
  unique_ids sb ->
  (∀ roomId scoreboard, (roomId, scoreboard) ∈ l -> NoDup (map eventId (messages scoreboard))) ->
  unique_ids (foldl loadRoom sb l).
Proof.
  revert sb. induction l as [|[k v] l IH]; intros sb Hu Hl; simpl; [done|].
  apply IH.
  - unfold loadRoom. simpl. apply unique_ids_recalculated, unique_ids_insert; [done|].
    apply (Hl k). apply list_elem_of_here.
  - intros roomId scoreboard Hin. apply (Hl roomId). by apply list_elem_of_further.
Qed.

Lemma unique_ids_result w op sb saved_ :
  unique_ids (engine w) -> unique_snapshot op w -> typed_snapshot op w ->
  result w op sb saved_ -> unique_ids sb.
Proof.
  intros Hu Hsnap Htyped Hres. destruct Hres; try done.
  - apply unique_ids_recalculated, unique_ids_insert; [done | apply NoDup_nil_2].
  - apply unique_ids_recalculated. intros r s. unfold setQaStartTime. simpl.
    destruct (decide (r = roomId)) as [->|Hne].
    + rewrite lookup_alter_eq.
      destruct (byRoom (ensureRoom roomId (engine w)) !! roomId) eqn:E; [|done].
      intros [= <-]. simpl. by apply (unique_ids_ensureRoom _ roomId Hu roomId).
    + rewrite lookup_alter_ne by done. by apply unique_ids_ensureRoom.
  - apply unique_ids_recalculated, unique_ids_update_room; [done|].
    intros s _ Hl. rewrite eventId_update_found; [done|]. by intros []; destruct isUpvote.
  - by apply unique_ids_ensureRoom.
  - apply unique_ids_recalculated, unique_ids_update_room.
    { by apply unique_ids_ensureRoom. }
    intros s Hs Hl. rewrite map_app. simpl. rewrite eventId_newMessage.
    apply NoDup_app. split; [done|]. split; [|apply NoDup_singleton].
    intros x Hx Hx'. apply list_elem_of_singleton in Hx' as ->.
    revert Hx. apply find_None_notin.
    rewrite ensureRoom_lookup in Hs. injection Hs as <-. done.
  - apply unique_ids_recalculated, unique_ids_update_room; [done|].
    intros s _ Hl. by rewrite !eventId_update_found.
  - apply unique_ids_recalculated, unique_ids_update_room; [done|].
    intros s _ Hl. apply (sublist_NoDup _ _ Hl).
    apply (fmap_sublist eventId), remove_found_sublist.
  - rewrite (loaded_typed _ _ (Htyped json H0 H1)).
    apply unique_ids_foldl; [done|].
    intros roomId scoreboard Hin. apply typedPrefix_elem in Hin as (v & Hin & Hdec).
    by apply (Hsnap json roomId v).
Qed.
End UniqueIds.

(** X3. No message is tracked twice: when the ids of the tracked messages of
    every room are all different, they still are after any operation. A
    reaction adds a message only after [find] has missed its id, the
    redactions only take away, and the votes leave the ids alone; [load]
    stores what the file holds, so for it the rooms of the file are taken
    to have the shape of a room, with messages of different ids. *)
Theorem unique_ids_preserved `{Collaborators} (op : Operation) (w : World) :
  lock w = None ->
  unique_ids (engine w) ->
  unique_snapshot op w ->
  typed_snapshot op w ->
  unique_ids (engine (snd (run (task_of op) w))).
Proof.
  intros Hlock Hu Hsnap Htyped.
  destruct (run_result op w Hlock) as (sb & saved_ & Hres & -> & _).
  by eapply unique_ids_result.
Qed.

Lemma unique_ids_preserved_witness :
  unique_ids
    (engine (snd (run (@task_of demo OpLoad)
                    (idle (freshEngine (Some "example.org"))
                       {[ "data/scoreboard.json" := Document (snapshot demoShown) ]})))).
Proof.
  apply (@unique_ids_preserved demo OpLoad
           (idle (freshEngine (Some "example.org"))
              {[ "data/scoreboard.json" := Document (snapshot demoShown) ]})).
  - reflexivity.
  - intros roomId scoreboard Hroom. simpl in Hroom. by rewrite lookup_empty in Hroom.
  - intros json roomId v scoreboard Hfile Hin Hdec.
    vm_compute in Hfile. injection Hfile as <-.
    vm_compute in Hin. apply list_elem_of_singleton in Hin. injection Hin as -> ->.
    vm_compute in Hdec. injection Hdec as <-.
    simpl.
    repeat (apply NoDup_cons_2;
            [intros Hid;
             repeat (apply elem_of_cons in Hid as [Hid|Hid]; [discriminate Hid|]);
             by apply elem_of_nil in Hid|]).
    apply NoDup_nil_2.
  - intros json Hfile Hversion.
    vm_compute in Hfile. injection Hfile as <-.
    vm_compute. repeat constructor. by eexists.
Defined.

(** ** Redactions *)

Section Redactions.
Context `{Collaborators}.

Lemma find_None_Forall {A : Type} (p : A -> bool) l :
  find p l = None ↔ ∀ x, x ∈ l -> p x = false.
Proof.
  induction l as [|x l IH]; simpl.
  - split; [by intros _ ? ?%elem_of_nil|done].
  - destruct (p x) eqn:E.
    + split; [done|]. intros Hall. specialize (Hall x (list_elem_of_here _ _)). congruence.
    + rewrite IH. split.
      * intros Hall y [->|Hy]%elem_of_cons; [done|by apply Hall].
      * intros Hall y Hy. apply Hall. by right.
Qed.

Lemma update_found_miss {A : Type} (p : A -> bool) (f : A -> A) l :
  find p l = None -> update_found p f l = l.
Proof.
  induction l as [|x l IH]; simpl; [done|].
  destruct (p x); [done|]. intros Hf. by rewrite IH.
Qed.

Lemma remove_found_miss {A : Type} (p : A -> bool) l :
  find p l = None -> remove_found p l = l.
Proof.
  induction l as [|x l IH]; simpl; [done|].
  destruct (p x); [done|]. intros Hf. by rewrite IH.
Qed.

(** The redacted id is no vote of the room: nothing is changed, nothing is
    saved. *)
Lemma run_tryRemoveReaction_miss auditoriums roomId event w :
  lock w = None ->
  (∀ id scoreboard,
     redacted event = Some id -> byRoom (engine w) !! roomId = Some scoreboard ->
     find (has_upvote id) (messages scoreboard) = None
     ∧ find (has_downvote id) (messages scoreboard) = None) ->
  ∃ w', run (tryRemoveReaction auditoriums roomId event) w = (Returned, w')
    ∧ engine w' = engine w ∧ lock w' = None ∧ disk w' = disk w
    ∧ warnings w' = warnings w.
Proof.
  intros Hlock Hmiss. unfold tryRemoveReaction.
  destruct (negb (isAuditorium auditoriums roomId)); [simpl; eauto 10|].
  destruct (redacted event) as [id|] eqn:Hid; [|simpl; eauto 10].
  cbn [run]. rewrite Hlock. simpl.
  destruct (byRoom (engine w) !! roomId) as [scoreboard|] eqn:Hroom;
    [|simpl; eauto 10].
  destruct (Hmiss id scoreboard eq_refl eq_refl) as [-> ->]. simpl. eauto 10.
Qed.

(** The redacted id is a vote of the room. *)
Lemma run_tryRemoveReaction_hit auditoriums roomId event w id scoreboard :
  lock w = None ->
  roomId ∈ auditoriums ->
  redacted event = Some id ->
  byRoom (engine w) !! roomId = Some scoreboard ->
  find (has_upvote id) (messages scoreboard) ≠ None
  ∨ find (has_downvote id) (messages scoreboard) ≠ None ->
  ∃ w', run (tryRemoveReaction auditoriums roomId event) w = (Returned, w')
    ∧ engine w' = recalculated roomId (removeVote roomId id (engine w))
    ∧ lock w' = None
    ∧ disk w' = saved (engine w') (disk w)
    ∧ warnings w' = warnings w.
Proof.
  intros Hlock Haud Hid Hroom Hhit. unfold tryRemoveReaction, isAuditorium.
  rewrite bool_decide_eq_true_2, Hid by done.
  cbn [run negb]. rewrite Hlock. simpl. rewrite Hroom.
  assert (∃ w', run (Modify (removeVote roomId id) (recalculate roomId (Release save)))
                  (note 0 ActRead (note 0 ActAcquire (set_lock (Some 0%nat) w)))
                = (Returned, w')
            ∧ engine w' = recalculated roomId (removeVote roomId id (engine w))
            ∧ lock w' = None
            ∧ disk w' = saved (engine w') (disk w)
            ∧ warnings w' = warnings w) as Hrun.
  { cbn [run].
    edestruct run_commit as (w' & -> & He & ? & ? & ?); [|by exists w'].
    simpl. by rewrite lookup_alter_eq, Hroom. }
  destruct (find (has_upvote id) (messages scoreboard)),
           (find (has_downvote id) (messages scoreboard)); try done.
  by destruct Hhit.
Qed.

Lemma run_tryRemoveMessage_miss auditoriums roomId event w :
  lock w = None ->
  (∀ id scoreboard,
     redacted event = Some id -> byRoom (engine w) !! roomId = Some scoreboard ->
     find (has_eventId id) (messages scoreboard) = None) ->
  ∃ w', run (tryRemoveMessage auditoriums roomId event) w = (Returned, w')
    ∧ engine w' = engine w ∧ lock w' = None ∧ disk w' = disk w
    ∧ warnings w' = warnings w.
Proof.
  intros Hlock Hmiss. unfold tryRemoveMessage.
  destruct (negb (isAuditorium auditoriums roomId)); [simpl; eauto 10|].
  destruct (redacted event) as [id|] eqn:Hid; [|simpl; eauto 10].
  cbn [run]. rewrite Hlock. simpl.
  destruct (byRoom (engine w) !! roomId) as [scoreboard|] eqn:Hroom;
    [|simpl; eauto 10].
  rewrite (Hmiss id scoreboard eq_refl eq_refl). simpl. eauto 10.
Qed.

Lemma run_tryRemoveMessage_hit auditoriums roomId event w id scoreboard m :
  lock w = None ->
  roomId ∈ auditoriums ->
  redacted event = Some id ->
  byRoom (engine w) !! roomId = Some scoreboard ->
  find (has_eventId id) (messages scoreboard) = Some m ->
  ∃ w', run (tryRemoveMessage auditoriums roomId event) w = (Returned, w')
    ∧ engine w' = recalculated roomId (untrackMessage roomId id (engine w))
    ∧ lock w' = None
    ∧ disk w' = saved (engine w') (disk w)
    ∧ warnings w' = warnings w.
Proof.
  intros Hlock Haud Hid Hroom Hfind. unfold tryRemoveMessage, isAuditorium.
  rewrite bool_decide_eq_true_2, Hid by done.
  cbn [run negb]. rewrite Hlock. simpl. rewrite Hroom, Hfind. cbn [run].
  edestruct run_commit as (w' & -> & He & ? & ? & ?); [|by exists w'].
  simpl. by rewrite lookup_alter_eq, Hroom.
Qed.
End Redactions.

(** X5. The listener on a redaction that is nothing to the room: when the
    redacted id is no tracked message of the room and stands in no vote
    list of it, both handlers return without a change of the tables and
    without a write to the disk, and the lock is free again. *)
Theorem redaction_unknown `{Collaborators} (auditoriums : list string) (roomId : string)
    (event : RoomEvent) (targetFetch : GetEventResult) (profile : GetProfileResult)
    (w : World) :
  lock w = None ->
  event_type event = "m.room.redaction" ->
  (∀ id scoreboard m,
     redacted event = Some id -> byRoom (engine w) !! roomId = Some scoreboard ->
     m ∈ messages scoreboard ->
     eventId m ≠ id ∧ (id ∉ activeUpvoteIds m) ∧ (id ∉ activeDownvoteIds m)) ->
  ∃ w', run (onRoomEvent auditoriums roomId event targetFetch profile) w = (Returned, w')
    ∧ engine w' = engine w ∧ disk w' = disk w ∧ lock w' = None
    ∧ warnings w' = warnings w.
Proof.
  intros Hlock Htype Hunknown. unfold onRoomEvent. rewrite Htype. simpl.
  rewrite run_andThen.
  destruct (run_tryRemoveReaction_miss auditoriums roomId event w Hlock)
    as (w1 & -> & He1 & Hl1 & Hd1 & Hw1).
  { intros id scoreboard Hid Hroom. split; apply find_None_Forall; intros m Hm;
      destruct (Hunknown id scoreboard m Hid Hroom Hm) as (_ & Hup & Hdown);
      by apply bool_decide_eq_false_2. }
  destruct (run_tryRemoveMessage_miss auditoriums roomId event w1 Hl1)
    as (w2 & -> & He2 & Hl2 & Hd2 & Hw2).
  { intros id scoreboard Hid Hroom. rewrite He1 in Hroom.
    apply find_None_Forall. intros m Hm.
    destruct (Hunknown id scoreboard m Hid Hroom Hm) as (Hne & _).
    unfold has_eventId. by apply String.eqb_neq. }
  exists w2. rewrite He2, Hd2, Hw2. done.
Qed.

Lemma redaction_unknown_witness :
  ∃ w', run (@onRoomEvent demo [hall] hall (redaction "$x1" "$other")
               GetEventRejects GetProfileRejects) (idle demoShown ∅) = (Returned, w')
    ∧ engine w' = demoShown ∧ disk w' = ∅ ∧ lock w' = None ∧ warnings w' = [].
Proof.
  apply (@redaction_unknown demo [hall] hall (redaction "$x1" "$other")
           GetEventRejects GetProfileRejects (idle demoShown ∅)).
  - reflexivity.
  - reflexivity.
  - intros id scoreboard m Hid Hroom Hm.
    injection Hid as <-. vm_compute in Hroom. injection Hroom as <-.
    repeat (apply elem_of_cons in Hm as [->|Hm]);
      [..|by apply elem_of_nil in Hm];
      (split; [discriminate|]); split; intros Hin;
      repeat (apply elem_of_cons in Hin as [Hin|Hin]; [discriminate Hin|]);
      by apply elem_of_nil in Hin.
Defined.

(** ** A vote and its redaction *)

Section VoteRoundTrip.
Context `{Collaborators}.

Lemma splice_id_last id ids : id ∉ ids -> splice_id id (ids ++ [id]) = ids.
Proof.
  unfold splice_id. induction ids as [|x ids IH]; simpl; intros Hin.
  - by rewrite String.eqb_refl.
  - apply not_elem_of_cons in Hin as [Hne Hin].
    destruct (String.eqb_spec id x); [done|]. by rewrite IH.
Qed.

Lemma update_found_undo {A : Type} (p q : A -> bool) (f g : A -> A) l :
  (∀ x, x ∈ l -> q x = false) ->
  (∀ x, x ∈ l -> p x = true -> q (f x) = true ∧ g (f x) = x) ->
  update_found q g (update_found p f l) = l.
Proof.
  induction l as [|x l IH]; simpl; intros Hq Hp; [done|].
  destruct (p x) eqn:E; simpl.
  - destruct (Hp x (list_elem_of_here _ _) E) as [-> ->]. done.
  - rewrite (Hq x (list_elem_of_here _ _)). f_equal. apply IH.
    + intros y Hy. apply Hq. by right.
    + intros y Hy. apply Hp. by right.
Qed.

Lemma find_update_found_other {A : Type} (p q : A -> bool) (f : A -> A) l :
  (∀ x, x ∈ l -> q x = false ∧ q (f x) = false) ->
  find q (update_found p f l) = None.
Proof.
  induction l as [|x l IH]; simpl; intros Hq; [done|].
  destruct (Hq x (list_elem_of_here _ _)) as [Hx Hfx].
  destruct (p x); simpl.
  - rewrite Hfx. apply find_None_Forall. intros y Hy. apply Hq. by right.
  - rewrite Hx. apply IH. intros y Hy. apply Hq. by right.
Qed.

Lemma find_update_found_hit {A : Type} (p q : A -> bool) (f : A -> A) l m :
  find p l = Some m -> (∀ x, q (f x) = true) -> find q (update_found p f l) ≠ None.
Proof.
  intros Hfind Hq. induction l as [|x l IH]; simpl in *; [done|].
  destruct (p x); simpl.
  - by rewrite Hq.
  - destruct (q x); [done|]. by apply IH.
Qed.

Lemma set_upvotes_undo id m :
  id ∉ activeUpvoteIds m ->
  set_upvotes (splice_id id) (pushVote true id m) = m.
Proof. intros Hin. destruct m. unfold set_upvotes. simpl in *. by rewrite splice_id_last. Qed.

Lemma set_downvotes_undo id m :
  id ∉ activeDownvoteIds m ->
  set_downvotes (splice_id id) (pushVote false id m) = m.
Proof. intros Hin. destruct m. unfold set_downvotes. simpl in *. by rewrite splice_id_last. Qed.

(** The two splices of a redaction undo the push of the reaction, when its
    id was in no vote list before. *)
Lemma removeVote_recordVote target (isUpvote : bool) id ms :
  (∀ m, m ∈ ms -> (id ∉ activeUpvoteIds m) ∧ (id ∉ activeDownvoteIds m)) ->
  update_found (has_downvote id) (set_downvotes (splice_id id))
    (update_found (has_upvote id) (set_upvotes (splice_id id))
       (update_found (has_eventId target) (pushVote isUpvote id) ms)) = ms.
Proof.
  intros Hfresh. destruct isUpvote.
  - rewrite (update_found_undo (has_eventId target) (has_upvote id)).
    + apply update_found_miss, find_None_Forall. intros m Hm.
      apply bool_decide_eq_false_2, (Hfresh m Hm).
    + intros m Hm. apply bool_decide_eq_false_2, (Hfresh m Hm).
    + intros m Hm _. split; [|apply set_upvotes_undo, (Hfresh m Hm)].
      apply bool_decide_eq_true_2. simpl. apply elem_of_app. right. by left.
  - rewrite (update_found_miss (has_upvote id)).
    + apply update_found_undo.
      * intros m Hm. apply bool_decide_eq_false_2, (Hfresh m Hm).
      * intros m Hm _. split; [|apply set_downvotes_undo, (Hfresh m Hm)].
        apply bool_decide_eq_true_2. simpl. apply elem_of_app. right. by left.
    + apply find_update_found_other. intros m Hm.
      split; apply bool_decide_eq_false_2, (Hfresh m Hm).
Qed.

Lemma snapshot_byRoom sb sb' : byRoom sb = byRoom sb' -> snapshot sb = snapshot sb'.
Proof. unfold snapshot. by intros ->. Qed.
End VoteRoundTrip.

(** X6. A vote and its redaction cancel. When the reaction is on a message
    that the room tracks and its id stands in no vote list of the room
    yet, the reaction followed by the redaction of that reaction leaves
    the vote tables of every room as they were at first; the view of the
    room is the ranking of its first entry, and the file holds the
    snapshot of the first tables. *)
Theorem vote_then_redaction `{Collaborators} (auditoriums : list string) (roomId : string)
    (event undo : RoomEvent) (targetFetch : GetEventResult) (profile : GetProfileResult)
    (w : World) (target : string) (isUpvote : bool) (scoreboard : RoomScoreboard)
    (m : RoomMessage) :
  lock w = None ->
  reactionVote auditoriums roomId event = Some (target, isUpvote) ->
  byRoom (engine w) !! roomId = Some scoreboard ->
  find (has_eventId target) (messages scoreboard) = Some m ->
  (∀ m', m' ∈ messages scoreboard ->
     (event_id event ∉ activeUpvoteIds m') ∧ (event_id event ∉ activeDownvoteIds m')) ->
  redacted undo = Some (event_id event) ->
  let w1 := snd (run (tryAddReaction auditoriums roomId event targetFetch profile) w) in
  let w2 := snd (run (tryRemoveReaction auditoriums roomId undo) w1) in
  byRoom (engine w2) = byRoom (engine w)
  ∧ getScoreboard roomId (engine w2)
    = Some (rankRoom roomId (domain (engine w)) scoreboard)
  ∧ disk w2 !! path = Some (Document (snapshot (engine w)))
  ∧ lock w2 = None.
Proof.
  intros Hlock Hvote Hroom Hfind Hfresh Hundo w1 w2.
  assert (roomId ∈ auditoriums) as Haud.
  { unfold reactionVote, isAuditorium in Hvote.
    destruct (decide (roomId ∈ auditoriums)) as [|Hno]; [done|].
    by rewrite bool_decide_eq_false_2 in Hvote. }
  destruct (run_tryAddReaction_tracked auditoriums roomId event targetFetch profile w
              target isUpvote scoreboard m Hlock Hvote Hroom Hfind)
    as (w1' & Hrun1 & He1 & Hl1 & Hd1 & _).
  assert (w1 = w1') as -> by (unfold w1; by rewrite Hrun1).
  assert (byRoom (engine w1') !! roomId
          = Some (set_messages (update_found (has_eventId target)
                                  (pushVote isUpvote (event_id event))) scoreboard))
    as Hroom1.
  { rewrite He1, recalculated_byRoom. unfold recordVote.
    by rewrite update_room_lookup, Hroom. }
  destruct (run_tryRemoveReaction_hit auditoriums roomId undo w1' (event_id event)
              _ Hl1 Haud Hundo Hroom1) as (w2' & Hrun2 & He2 & Hl2 & Hd2 & _).
  { simpl. destruct isUpvote; [left|right];
      apply (find_update_found_hit _ _ _ _ m Hfind); intros x;
      apply bool_decide_eq_true_2; simpl; apply elem_of_app; right; by left. }
  assert (w2 = w2') as -> by (unfold w2; by rewrite Hrun2).
  assert (byRoom (engine w2') = byRoom (engine w)) as Hsame.
  { rewrite He2, recalculated_byRoom. apply map_eq. intros r.
    destruct (decide (r = roomId)) as [->|Hne].
    - unfold removeVote. rewrite update_room_lookup, Hroom1, Hroom. simpl.
      f_equal. destruct scoreboard as [qa ms]. unfold set_messages. simpl. f_equal.
      by apply removeVote_recordVote.
    - unfold removeVote. rewrite update_room_lookup_ne by done.
      rewrite He1, recalculated_byRoom. unfold recordVote.
      by rewrite update_room_lookup_ne. }
  split; [done|]. split; [|split; [|done]].
  - unfold getScoreboard. rewrite He2.
    assert (byRoom (removeVote roomId (event_id event) (engine w1')) !! roomId
            = Some scoreboard) as Hback.
    { rewrite <- Hroom, <- Hsame, He2, recalculated_byRoom. done. }
    rewrite (recalculated_view _ _ _ Hback), lookup_insert_eq.
    do 2 f_equal. unfold removeVote, update_room. simpl.
    rewrite He1, recalculated_domain. done.
  - rewrite Hd2, saved_path. do 2 f_equal. by apply snapshot_byRoom.
Qed.

Lemma vote_then_redaction_witness :
  let w1 := snd (run (@tryAddReaction demo [hall] hall (reaction "$r1" "$m2" thumbsDown)
                        GetEventRejects GetProfileRejects) (idle demoShown ∅)) in
  let w2 := snd (run (@tryRemoveReaction demo [hall] hall (redaction "$x1" "$r1")) w1) in
  byRoom (engine w2) = byRoom demoShown
  ∧ getScoreboard hall (engine w2)
    = Some (@rankRoom demo hall (Some "example.org") demoRoom)
  ∧ disk w2 !! "data/scoreboard.json" = Some (Document (snapshot demoShown))
  ∧ lock w2 = None.
Proof.
  apply (@vote_then_redaction demo [hall] hall (reaction "$r1" "$m2" thumbsDown)
           (redaction "$x1" "$r1") GetEventRejects GetProfileRejects (idle demoShown ∅)
           "$m2" false demoRoom
           (question "$m2" "second" "@b:example.org" ["$u4"; "$u5"; "$u6"] [])).
  - reflexivity.
  - reflexivity.
  - reflexivity.
  - reflexivity.
  - intros m' Hm.
    repeat (apply elem_of_cons in Hm as [->|Hm]);
      [..|by apply elem_of_nil in Hm];
      split; intros Hin;
      repeat (apply elem_of_cons in Hin as [Hin|Hin]; [discriminate Hin|]);
      by apply elem_of_nil in Hin.
  - reflexivity.
Defined.

(** ** The redaction of a tracked message *)

Section RemoveMessage.
Context `{Collaborators}.

Lemma filter_all {A : Type} (P : A -> Prop) `{∀ x, Decision (P x)} (l : list A) :
  (∀ x, x ∈ l -> P x) -> filter P l = l.
Proof.
  induction l as [|x l IH]; intros Hall; [done|].
  rewrite filter_cons_True by (apply Hall; by left).
  f_equal. apply IH. intros y Hy. apply Hall. by right.
Qed.

(** With ids that are all different, the splice of the first message of
    an id takes away every message of that id. *)
Lemma remove_found_filter id l :
  NoDup (map eventId l) ->
  remove_found (has_eventId id) l = filter (λ m, eventId m ≠ id) l.
Proof.
  induction l as [|x l IH]; simpl; intros Hnd; [done|].
  apply NoDup_cons in Hnd as [Hx Hnd]. unfold has_eventId at 1.
  destruct (String.eqb_spec (eventId x) id) as [Heq|Hne].
  - rewrite filter_cons_False by (by intros ?).
    symmetry. apply filter_all. intros y Hy Hid. apply Hx.
    rewrite Heq, <- Hid. apply list_elem_of_fmap. by exists y.
  - rewrite filter_cons_True by done. f_equal. by apply IH.
Qed.

End RemoveMessage.

(** X7. The redaction of a question. In a room whose tracked messages
    have ids that are all different, [tryRemoveMessage] leaves the room
    with exactly the messages of another id, in their order of tracking
    and with their votes; when the id was tracked, the view of the room is
    the ranking of what is left and the file holds the new tables. *)
Theorem tryRemoveMessage_removes `{Collaborators} (auditoriums : list string)
    (roomId : string) (event : RoomEvent) (w : World) (id : string)
    (scoreboard : RoomScoreboard) :
  lock w = None ->
  roomId ∈ auditoriums ->
  redacted event = Some id ->
  byRoom (engine w) !! roomId = Some scoreboard ->
  NoDup (map eventId (messages scoreboard)) ->
  let w' := snd (run (tryRemoveMessage auditoriums roomId event) w) in
  let remaining := set_messages (filter (λ m, eventId m ≠ id)) scoreboard in
  byRoom (engine w') !! roomId = Some remaining
  ∧ (is_Some (find (has_eventId id) (messages scoreboard)) ->
     getScoreboard roomId (engine w') = Some (rankRoom roomId (domain (engine w)) remaining)
     ∧ disk w' !! path = Some (Document (snapshot (engine w')))).
Proof.
  intros Hlock Haud Hid Hroom Hnd w' remaining.
  assert (remaining = set_messages (remove_found (has_eventId id)) scoreboard) as ->.
  { unfold remaining, set_messages. by rewrite remove_found_filter. }
  destruct (find (has_eventId id) (messages scoreboard)) as [m|] eqn:Hfind.
  - destruct (run_tryRemoveMessage_hit auditoriums roomId event w id scoreboard m
                Hlock Haud Hid Hroom Hfind) as (w1 & Hrun & He & Hl & Hd & _).
    assert (w' = w1) as -> by (unfold w'; by rewrite Hrun).
    assert (byRoom (untrackMessage roomId id (engine w)) !! roomId
            = Some (set_messages (remove_found (has_eventId id)) scoreboard)) as Hrest.
    { unfold untrackMessage. by rewrite update_room_lookup, Hroom. }
    split; [by rewrite He, recalculated_byRoom|].
    intros _. split.
    + unfold getScoreboard. rewrite He, (recalculated_view _ _ _ Hrest).
      by rewrite lookup_insert_eq.
    + by rewrite Hd, saved_path.
  - destruct (run_tryRemoveMessage_miss auditoriums roomId event w Hlock)
      as (w1 & Hrun & He & _).
    { intros id' scoreboard' Hid' Hroom'. congruence. }
    assert (w' = w1) as -> by (unfold w'; by rewrite Hrun).
    split; [|by intros [? ?]].
    rewrite He, Hroom. f_equal. unfold set_messages.
    rewrite remove_found_miss by done. by destruct scoreboard.
Qed.

Lemma tryRemoveMessage_removes_witness :
  let w' := snd (run (@tryRemoveMessage demo [hall] hall (redaction "$x1" "$m2"))
                   (idle demoShown ∅)) in
  let remaining := set_messages (filter (λ m, eventId m ≠ "$m2")) demoRoom in
  byRoom (engine w') !! hall = Some remaining
  ∧ (is_Some (find (has_eventId "$m2") (messages demoRoom)) ->
     getScoreboard hall (engine w') = Some (@rankRoom demo hall (Some "example.org") remaining)
     ∧ disk w' !! "data/scoreboard.json" = Some (Document (snapshot (engine w')))).
Proof.
  apply (@tryRemoveMessage_removes demo [hall] hall (redaction "$x1" "$m2")
           (idle demoShown ∅) "$m2" demoRoom).
  - reflexivity.
  - by left.
  - reflexivity.
  - reflexivity.
  - simpl.
    repeat (apply NoDup_cons_2;
            [intros Hid;
             repeat (apply elem_of_cons in Hid as [Hid|Hid]; [discriminate Hid|]);
             by apply elem_of_nil in Hid|]).
    apply NoDup_nil_2.
Defined.

(** ** The holder of the lock *)

Lemma step_lock tid t w t' w' holder_ :
  step tid t w = Some (t', w') -> lock w' = Some holder_ ->
  holder_ = tid ∨ lock w = Some holder_.
Proof.
  intros Hstep Hlock. destruct t; simpl in Hstep; try done.
  - destruct (lock w); [done|]. injection Hstep as <- <-. simpl in Hlock.
    left. congruence.
  - injection Hstep as <- <-. done.
  - injection Hstep as <- <-. by right.
  - injection Hstep as <- <-. by right.
  - destruct (f (engine w)); injection Hstep as <- <-; by right.
  - injection Hstep as <- <-. by right.
  - injection Hstep as <- <-. by right.
  - injection Hstep as <- <-. by right.
  - destruct (disk w !! src); injection Hstep as <- <-; by right.
  - injection Hstep as <- <-. by right.
Qed.

Lemma exec_holder_in_pool schedule pool w :
  (∀ tid, lock w = Some tid -> is_Some (pool !! tid)) ->
  ∀ tid, lock (snd (exec schedule pool w)) = Some tid ->
         is_Some (fst (exec schedule pool w) !! tid).
Proof.
  revert pool w. induction schedule as [|j schedule IH]; intros pool w Hin; [done|].
  simpl. destruct (pool !! j) as [t|] eqn:Hj; [|by apply IH].
  destruct (step j t w) as [[t' w']|] eqn:Hstep; [|by apply IH].
  apply IH. intros tid Hlock.
  apply lookup_lt_is_Some. rewrite length_insert. apply lookup_lt_is_Some.
  destruct (step_lock _ _ _ _ _ _ Hstep Hlock) as [->|Hold]; [by eexists|by apply Hin].
Qed.

Lemma follows_holding_moves st tid t w :
  follows st t -> holding st = true -> lock w = Some tid -> is_Some (step tid t w).
Proof.
  intros Hfol Hhold Hlock. destruct t; simpl in *; try congruence; try by eexists.
  - by destruct st.
  - destruct (f (engine w)); by eexists.
  - destruct (disk w !! src); by eexists.
Qed.

(** X8. No method keeps the lock: whenever the lock is held while the
    operations run together, under any schedule, its holder is one of
    them and can take its next step. So a task never ends or waits with
    the lock in its hands, whatever path it takes, an exception included. *)
Theorem lock_holder_moves `{Collaborators} (ops : list Operation) (schedule : list nat)
    (w : World) (tid : nat) :
  lock w = None ->
  history w = [] ->
  lock (snd (exec schedule (map task_of ops) w)) = Some tid ->
  ∃ t, fst (exec schedule (map task_of ops) w) !! tid = Some t
    ∧ is_Some (step tid t (snd (exec schedule (map task_of ops) w))).
Proof.
  intros Hlock Hhistory Hheld.
  destruct (exec_holder_in_pool schedule (map task_of ops) w) with (tid := tid)
    as [t Ht]; [by rewrite Hlock|done|].
  exists t. split; [done|].
  destruct (exec_disciplined schedule (map task_of ops) w) as (g & _ & Hg & Hhold & Hfol).
  - exists start. rewrite Hhistory, Hlock. split; [done|]. split; [done|].
    split; [by split|].
    intros j t' Hj. apply lookup_map_Some in Hj as (op & _ & ->).
    apply follows_task_of.
  - apply (follows_holding_moves (stageOf g tid)); [by apply Hfol| |done].
    apply Hhold. by rewrite <- Hg.
Qed.

Lemma lock_holder_moves_witness :
  ∃ t, fst (exec [0; 1; 0]%nat (map (@task_of demo) demoPool) (idle demoShown ∅)) !! 0%nat
       = Some t
    ∧ is_Some (step 0 t (snd (exec [0; 1; 0]%nat (map (@task_of demo) demoPool)
                                (idle demoShown ∅)))).
Proof.
  apply (@lock_holder_moves demo demoPool [0; 1; 0]%nat (idle demoShown ∅) 0%nat);
    reflexivity.
Defined.

(** ** The avatar of the sender *)

Section Avatar.
Context `{Collaborators}.

Lemma split_slash_part part rest :
  "/"%char ∉ String.list_ascii_of_string part ->
  split_slash (part +:+ "/" +:+ rest) = part :: split_slash rest.
Proof.
  induction part as [|c part IH]; simpl; intros Hno; [done|].
  apply not_elem_of_cons in Hno as [Hc Hno].
  destruct (Ascii.eqb_spec c "/"%char) as [->|_]; [done|].
  by rewrite IH.
Qed.

Lemma split_slash_last part :
  "/"%char ∉ String.list_ascii_of_string part -> split_slash part = [part].
Proof.
  induction part as [|c part IH]; simpl; intros Hno; [done|].
  apply not_elem_of_cons in Hno as [Hc Hno].
  destruct (Ascii.eqb_spec c "/"%char) as [->|_]; [done|].
  by rewrite IH.
Qed.
End Avatar.

(** X9. The avatar of a tracked question. For a profile whose avatar is
    [mxc://server/media], the message that [tryAddReaction] builds links
    the 64x64 crop thumbnail of that media on the homeserver of the bot,
    with both parts URI-encoded. An avatar [mxc://server] without a media
    part is not refused: the second part of the link is the encoding of
    [undefined]. *)
Theorem newMessage_avatar `{Collaborators} (target who body : string) (isUpvote : bool)
    (id : string) (displayname : option string) (server media : string) :
  "/"%char ∉ String.list_ascii_of_string server ->
  "/"%char ∉ String.list_ascii_of_string media ->
  senderHttpUrl (newMessage target who body isUpvote id
                   (GetProfileResolves displayname
                      (Some ("mxc://" +:+ server +:+ "/" +:+ media)%string)))
  = Some (homeserverUrl +:+ "/_matrix/media/r0/thumbnail/"
          +:+ encodeURIComponent (Some server) +:+ "/"
          +:+ encodeURIComponent (Some media)
          +:+ "?method=crop&width=64&height=64")%string
  ∧ senderHttpUrl (newMessage target who body isUpvote id
                     (GetProfileResolves displayname (Some ("mxc://" +:+ server)%string)))
    = Some (homeserverUrl +:+ "/_matrix/media/r0/thumbnail/"
            +:+ encodeURIComponent (Some server) +:+ "/"
            +:+ encodeURIComponent None
            +:+ "?method=crop&width=64&height=64")%string.
Proof.
  intros Hserver Hmedia. unfold newMessage, withProfile, thumbnailUrl. simpl.
  change ("" +:+ server +:+ "/" +:+ media)%string with (server +:+ "/" +:+ media)%string.
  change ("" +:+ server)%string with server.
  rewrite (split_slash_part server media Hserver), (split_slash_last media Hmedia).
  rewrite (split_slash_last server Hserver). simpl.
  by destruct server.
Qed.

Lemma newMessage_avatar_witness :
  senderHttpUrl (@newMessage demo "$M" "@a:example.org" "Why?" true "$u1" demoProfile)
  = Some "https://example.org/_matrix/media/r0/thumbnail/example.org/abc?method=crop&width=64&height=64"
  ∧ senderHttpUrl (@newMessage demo "$M" "@a:example.org" "Why?" true "$u1"
                     (GetProfileResolves (Some "Alice") (Some "mxc://example.org")))
    = Some "https://example.org/_matrix/media/r0/thumbnail/example.org/undefined?method=crop&width=64&height=64".
Proof.
  apply (@newMessage_avatar demo "$M" "@a:example.org" "Why?" true "$u1" (Some "Alice")
           "example.org" "abc");
    intros Hin; simpl in Hin;
    repeat (apply elem_of_cons in Hin as [Hin|Hin]; [discriminate Hin|]);
    by apply elem_of_nil in Hin.
Defined.

(** ** Loading over tables that are not empty *)

Section Merge.
Context `{Collaborators}.

Lemma assoc_Some_elem {A : Type} k (v : A) l : assoc k l = Some v -> k ∈ l.*1.
Proof.
  induction l as [|[k' v'] l IH]; simpl; [done|].
  destruct (decide (k' = k)) as [->|Hne]; [intros _; by left|].
  intros Hl. right. by apply IH.
Qed.

Lemma assoc_None_notin {A : Type} k (l : list (string * A)) : assoc k l = None -> k ∉ l.*1.
Proof.
  induction l as [|[k' v'] l IH]; simpl; [intros _; apply not_elem_of_nil|].
  destruct (decide (k' = k)) as [->|Hne]; [done|].
  intros Hl. apply not_elem_of_cons. split; [done|by apply IH].
Qed.

(** The last entry of a room decides; here every entry of the room is the
    same. *)
Lemma foldl_loadRoom_same l sb roomId scoreboard :
  (∀ s, (roomId, s) ∈ l -> s = scoreboard) ->
  roomId ∈ l.*1 ->
  byRoom (foldl loadRoom sb l) !! roomId = Some scoreboard
  ∧ byRoomCached (foldl loadRoom sb l) !! roomId
    = Some (rankRoom roomId (domain sb) scoreboard).
Proof.
  induction l as [|[k v] l IH] using rev_ind; intros Hsame Hin;
    [by apply elem_of_nil in Hin|].
  rewrite foldl_app. simpl. rewrite loadRoom_eq. simpl.
  rewrite foldl_loadRoom_domain.
  destruct (decide (k = roomId)) as [->|Hne].
  - rewrite !lookup_insert_eq.
    rewrite (Hsame v); [done|]. apply elem_of_app. right. by left.
  - rewrite !lookup_insert_ne by done. apply IH.
    + intros s Hs. apply Hsame. apply elem_of_app. by left.
    + rewrite fmap_app in Hin. apply elem_of_app in Hin as [Hin|Hin]; [done|].
      simpl in Hin. apply list_elem_of_singleton in Hin. congruence.
Qed.

Lemma forIn_elem fields roomId v :
  (roomId, v) ∈ forIn (VObj fields) -> v = get (VObj fields) roomId.
Proof.
  unfold forIn. intros Hin. apply list_elem_of_fmap in Hin as (k & Heq & _).
  by injection Heq as -> ->.
Qed.

Lemma forIn_keys fields : (forIn (VObj fields)).*1 = fields.*1.
Proof.
  unfold forIn. generalize (VObj fields). intros v.
  induction fields as [|[k x] fields IH]; simpl; [done|]. f_equal. apply IH.
Qed.
End Merge.

(** X10. [load] merges. On a snapshot of the current version whose rooms
    all have the shape of a room, [load] returns; every room of the file
    takes the place of the entry of that room, with its view recomputed,
    and a room that the file does not have keeps its entry and its view:
    the tables are not emptied first. *)
Theorem load_merges `{Collaborators} (w : World) (json : value)
    (fields : list (string * value)) :
  lock w = None ->
  disk w !! path = Some (Document json) ->
  get json "version" = VNum JSON_FORMAT_VERSION ->
  get json "rooms" = VObj fields ->
  Forall (λ e, is_Some (decodeRoom (snd e))) (forIn (VObj fields)) ->
  ∃ w', run load w = (Returned, w')
    ∧ ∀ roomId,
        match assoc roomId fields with
        | Some v =>
            byRoom (engine w') !! roomId = decodeRoom v
            ∧ getScoreboard roomId (engine w')
              = rankRoom roomId (domain (engine w)) <$> decodeRoom v
        | None =>
            byRoom (engine w') !! roomId = byRoom (engine w) !! roomId
            ∧ getScoreboard roomId (engine w') = getScoreboard roomId (engine w)
        end.
Proof.
  intros Hlock Hfile Hversion Hrooms Hall.
  destruct (run_load w Hlock) as (o & w' & Hrun & _ & _ & Hcase).
  unfold readFile in Hcase. rewrite Hfile in Hcase. simpl in Hcase.
  assert (nullish json = false) as Hnn by (by destruct json).
  rewrite Hnn, Hversion, Hrooms in Hcase. unfold JSON_FORMAT_VERSION in Hcase.
  destruct Hcase as (-> & He & _).
  destruct (typedPrefix_all _ Hall) as [Hout Hkeys].
  exists w'. split; [by rewrite Hrun, Hout|].
  intros roomId. unfold getScoreboard. rewrite He, (loaded_typed _ _ Hall).
  destruct (assoc roomId fields) as [v|] eqn:Hv.
  - assert (is_Some (decodeRoom v)) as [scoreboard Hdec].
    { rewrite Forall_forall in Hall. apply (Hall (roomId, v)).
      unfold forIn. apply list_elem_of_fmap. exists roomId.
      split; [|by eapply assoc_Some_elem]. simpl. by rewrite Hv. }
    rewrite Hdec. apply (foldl_loadRoom_same _ _ roomId scoreboard).
    + intros s Hs. apply typedPrefix_elem in Hs as (v' & Hin & Hdec').
      apply forIn_elem in Hin. simpl in Hin. rewrite Hv in Hin. simpl in Hin.
      congruence.
    + rewrite Hkeys, forIn_keys. by eapply assoc_Some_elem.
  - apply foldl_loadRoom_notin. rewrite Hkeys, forIn_keys. by apply assoc_None_notin.
Qed.

Lemma load_merges_witness :
  let fields := [("!annex:example.org", VObj [("messages", VArr [])])] in
  let w := idle demoShown
             {[ "data/scoreboard.json"
                := Document (VObj [("version", VNum 1); ("rooms", VObj fields)]) ]} in
  ∃ w', run (@load demo) w = (Returned, w')
    ∧ ∀ roomId,
        match assoc roomId fields with
        | Some v =>
            byRoom (engine w') !! roomId = decodeRoom v
            ∧ getScoreboard roomId (engine w')
              = @rankRoom demo roomId (domain (engine w)) <$> decodeRoom v
        | None =>
            byRoom (engine w') !! roomId = byRoom (engine w) !! roomId
            ∧ getScoreboard roomId (engine w') = getScoreboard roomId (engine w)
        end.
Proof.
  apply (@load_merges demo
           (idle demoShown
              {[ "data/scoreboard.json"
                 := Document (VObj [("version", VNum 1);
                                    ("rooms", VObj [("!annex:example.org",
                                                     VObj [("messages", VArr [])])])]) ]})
           (VObj [("version", VNum 1);
                  ("rooms", VObj [("!annex:example.org", VObj [("messages", VArr [])])])])
           [("!annex:example.org", VObj [("messages", VArr [])])]).
  - reflexivity.
  - reflexivity.
  - reflexivity.
  - reflexivity.
  - repeat constructor. by eexists.
Defined.

(** ** The first vote on a question *)

(** X11. The first vote on a question. A vote on a plain text message that
    the room does not track yet puts the message at the end of the
    messages of the room, which is created if need be, with the text and
    the sender that were fetched and this one vote; the view of the room
    has one entry more, among them this message with the score 1 or -1,
    and the file holds the new tables. *)
Theorem tryAddReaction_tracks `{Collaborators} (auditoriums : list string) (roomId : string)
    (event : RoomEvent) (targetFetch : GetEventResult) (profile : GetProfileResult)
    (w : World) (target : string) (isUpvote : bool) (who body : string) :
  lock w = None ->
  reactionVote auditoriums roomId event = Some (target, isUpvote) ->
  find (has_eventId target)
    (messages (default emptyRoom (byRoom (engine w) !! roomId))) = None ->
  fetchedText targetFetch = Some (who, body) ->
  let w' := snd (run (tryAddReaction auditoriums roomId event targetFetch profile) w) in
  let before := default emptyRoom (byRoom (engine w) !! roomId) in
  ∃ m c,
    byRoom (engine w') !! roomId = Some (set_messages (λ ms, ms ++ [m]) before)
    ∧ eventId m = target ∧ text m = body ∧ senderId m = who
    ∧ (activeUpvoteIds m, activeDownvoteIds m)
      = (if isUpvote then ([event_id event], []) else ([], [event_id event]))
    ∧ getScoreboard roomId (engine w') = Some c
    ∧ cachedMessage roomId (domain (engine w)) m ∈ ordered c
    ∧ upvotes (cachedMessage roomId (domain (engine w)) m) = (if isUpvote then 1 else -1)
    ∧ length (ordered c) = S (length (messages before))
    ∧ disk w' !! path = Some (Document (snapshot (engine w'))).
Proof.
  intros Hlock Hvote Hfind Htext w' before.
  destruct (run_tryAddReaction_untracked auditoriums roomId event targetFetch profile w
              target isUpvote Hlock Hvote Hfind) as (w1 & Hrun & He & _ & Hd & _).
  assert (w' = w1) as -> by (unfold w'; by rewrite Hrun).
  rewrite Htext in He, Hd.
  set (m := newMessage target who body isUpvote (event_id event) profile) in *.
  assert (byRoom (trackMessage roomId m (ensureRoom roomId (engine w))) !! roomId
          = Some (set_messages (λ ms, ms ++ [m]) before)) as Hroom.
  { unfold trackMessage. by rewrite update_room_lookup, ensureRoom_lookup. }
  exists m, (rankRoom roomId (domain (engine w)) (set_messages (λ ms, ms ++ [m]) before)).
  split; [by rewrite He, recalculated_byRoom|].
  split; [apply eventId_newMessage|].
  split; [unfold m, newMessage; by destruct profile, isUpvote|].
  split; [unfold m, newMessage; by destruct profile, isUpvote|].
  split; [unfold m, newMessage; by destruct profile, isUpvote|].
  split.
  { unfold getScoreboard. rewrite He, (recalculated_view _ _ _ Hroom), lookup_insert_eq.
    do 2 f_equal. unfold trackMessage, update_room. simpl. apply ensureRoom_domain. }
  split.
  { simpl. rewrite js_sort_perm. apply list_elem_of_fmap. exists m.
    split; [done|]. apply elem_of_app. right. by left. }
  split; [unfold m, newMessage, score; by destruct profile, isUpvote|].
  split.
  { simpl. rewrite js_sort_perm, length_map, length_app. simpl. lia. }
  by rewrite Hd, saved_path.
Qed.

Lemma tryAddReaction_tracks_witness :
  let w' := snd (run (@tryAddReaction demo [hall] hall (reaction "$u1" "$M" thumbsUp)
                        (GetEventResolves (Some demoTarget)) demoProfile)
                   (idle (freshEngine (Some "example.org")) ∅)) in
  ∃ m c,
    byRoom (engine w') !! hall = Some (set_messages (λ ms, ms ++ [m]) emptyRoom)
    ∧ eventId m = "$M" ∧ text m = "Why?" ∧ senderId m = "@a:example.org"
    ∧ (activeUpvoteIds m, activeDownvoteIds m) = (["$u1"], [])
    ∧ getScoreboard hall (engine w') = Some c
    ∧ @cachedMessage demo hall (Some "example.org") m ∈ ordered c
    ∧ upvotes (@cachedMessage demo hall (Some "example.org") m) = 1
    ∧ length (ordered c) = 1%nat
    ∧ disk w' !! "data/scoreboard.json" = Some (Document (snapshot (engine w'))).
Proof.
  apply (@tryAddReaction_tracks demo [hall] hall (reaction "$u1" "$M" thumbsUp)
           (GetEventResolves (Some demoTarget)) demoProfile
           (idle (freshEngine (Some "example.org")) ∅) "$M" true "@a:example.org" "Why?");
    reflexivity.
Defined.

(** ** The reset of a room *)

(** X12. The reset of a room. Whatever the room held, and also when it
    had no entry, after [resetScoreboard] it has no message and no
    countdown, its view is empty with no countdown, and the file holds the
    new tables. *)
Theorem resetScoreboard_clears `{Collaborators} (roomId : string) (w : World) :
  lock w = None ->
  let w' := snd (run (resetScoreboard roomId) w) in
  fst (run (resetScoreboard roomId) w) = Returned
  ∧ byRoom (engine w') !! roomId = Some emptyRoom
  ∧ getScoreboard roomId (engine w')
    = Some {| cached_qaStartTime := None; ordered := [] |}
  ∧ disk w' !! path = Some (Document (snapshot (engine w')))
  ∧ lock w' = None.
Proof.
  intros Hlock w'.
  destruct (run_resetScoreboard roomId w Hlock) as (w1 & Hrun & He & Hl & Hd & _).
  assert (w' = w1) as -> by (unfold w'; by rewrite Hrun).
  rewrite Hrun. split; [done|].
  assert (byRoom (set_byRoom <[roomId := emptyRoom]> (engine w)) !! roomId
          = Some emptyRoom) as Hroom by (simpl; apply lookup_insert_eq).
  split; [by rewrite He, recalculated_byRoom|].
  split; [|split; [by rewrite Hd, saved_path|done]].
  unfold getScoreboard. rewrite He, (recalculated_view _ _ _ Hroom), lookup_insert_eq.
  done.
Qed.

Lemma resetScoreboard_clears_witness :
  let w' := snd (run (@resetScoreboard demo hall) (idle demoShown ∅)) in
  fst (run (@resetScoreboard demo hall) (idle demoShown ∅)) = Returned
  ∧ byRoom (engine w') !! hall = Some emptyRoom
  ∧ getScoreboard hall (engine w')
    = Some {| cached_qaStartTime := None; ordered := [] |}
  ∧ disk w' !! "data/scoreboard.json" = Some (Document (snapshot (engine w')))
  ∧ lock w' = None.
Proof.
  apply (@resetScoreboard_clears demo hall (idle demoShown ∅)). reflexivity.
Defined.

(** ** The countdown under votes *)

Section Countdown.
Context `{Collaborators}.

Lemma update_room_qaStartTime roomId f sb :
  byRoom (update_room roomId f sb) !! roomId ≫= qaStartTime
  = byRoom sb !! roomId ≫= qaStartTime.
Proof. rewrite update_room_lookup. by destruct (byRoom sb !! roomId). Qed.

Lemma ensureRoom_qaStartTime roomId sb :
  byRoom (ensureRoom roomId sb) !! roomId ≫= qaStartTime
  = byRoom sb !! roomId ≫= qaStartTime.
Proof. rewrite ensureRoom_lookup. by destruct (byRoom sb !! roomId). Qed.

Lemma result_qaStartTime w op sb saved_ roomId :
  result w op sb saved_ ->
  match op with
  | OpAddReaction _ r _ _ _ | OpRemoveReaction _ r _ | OpRemoveMessage _ r _ =>
      r = roomId
  | _ => False
  end ->
  byRoom sb !! roomId ≫= qaStartTime = byRoom (engine w) !! roomId ≫= qaStartTime.
Proof.
  intros Hres Hop. destruct Hres; try done; subst;
    rewrite ?recalculated_byRoom;
    unfold recordVote, trackMessage, removeVote, untrackMessage;
    by rewrite ?update_room_qaStartTime, ?ensureRoom_qaStartTime.
Qed.
End Countdown.

Lemma vote_qaStartTime `{Collaborators} op w roomId r :
  lock w = None ->
  roomOf op = Some roomId ->
  match op with OpReset _ | OpCountdown _ _ => False | _ => True end ->
  lock (snd (run (task_of op) w)) = None
  ∧ byRoom (engine (snd (run (task_of op) w))) !! r ≫= qaStartTime
    = byRoom (engine w) !! r ≫= qaStartTime.
Proof.
  intros Hlock Hroom Hop.
  destruct (run_result op w Hlock) as (sb & saved_ & Hres & -> & Hl & _).
  split; [done|].
  destruct (decide (r = roomId)) as [->|Hne].
  - apply (result_qaStartTime w op sb saved_ roomId Hres).
    destruct op; simpl in *; try done; congruence.
  - by destruct (result_frame w op sb saved_ roomId r Hres Hroom Hne) as [-> _].
Qed.

(** X13. Votes leave the countdown alone. Whatever event the listener is
    given, a reaction or a redaction, of whatever room, and whatever the
    homeserver answers, the start of the Q and A of every room is
    afterwards what it was: only [showQACountdown], a reset and [load] set
    it. *)
Theorem listener_keeps_countdown `{Collaborators} (auditoriums : list string)
    (roomId : string) (event : RoomEvent) (targetFetch : GetEventResult)
    (profile : GetProfileResult) (w : World) (r : string) :
  lock w = None ->
  byRoom (engine (snd (run (onRoomEvent auditoriums roomId event targetFetch profile) w)))
    !! r ≫= qaStartTime
  = byRoom (engine w) !! r ≫= qaStartTime.
Proof.
  intros Hlock. unfold onRoomEvent.
  destruct (String.eqb (event_type event) "m.reaction").
  { by apply (vote_qaStartTime
                (OpAddReaction auditoriums roomId event targetFetch profile) w roomId r). }
  destruct (String.eqb (event_type event) "m.room.redaction"); [|done].
  rewrite run_andThen.
  destruct (vote_qaStartTime (OpRemoveReaction auditoriums roomId event) w roomId r
              Hlock eq_refl I) as [Hl1 Hq1].
  destruct (run_tryRemoveReaction auditoriums roomId event w Hlock)
    as (w1 & Hrun & _).
  simpl in Hl1, Hq1. rewrite Hrun in Hl1, Hq1 |- *. simpl in Hl1, Hq1.
  destruct (vote_qaStartTime (OpRemoveMessage auditoriums roomId event) w1 roomId r
              Hl1 eq_refl I) as [_ Hq2].
  simpl in Hq2. by rewrite Hq2.
Qed.

Lemma listener_keeps_countdown_witness :
  byRoom (engine (snd (run (@onRoomEvent demo [hall] hall (redaction "$x1" "$m2")
                              GetEventRejects GetProfileRejects) (idle demoShown ∅))))
    !! hall ≫= qaStartTime
  = byRoom demoShown !! hall ≫= qaStartTime.
Proof.
  apply (@listener_keeps_countdown demo [hall] hall (redaction "$x1" "$m2")
           GetEventRejects GetProfileRejects (idle demoShown ∅) hall).
  reflexivity.
Defined.

(** X14. What the listener leaves alone. An event of a room that is not
    an auditorium, and an event that is neither a reaction nor a
    redaction, is dropped before the lock is asked for: the listener
    returns at once, also while another task holds the lock, and nothing
    at all is changed. *)
Theorem listener_ignores `{Collaborators} (auditoriums : list string) (roomId : string)
    (event : RoomEvent) (targetFetch : GetEventResult) (profile : GetProfileResult)
    (w : World) :
  roomId ∉ auditoriums
  ∨ (event_type event ≠ "m.reaction" ∧ event_type event ≠ "m.room.redaction") ->
  run (onRoomEvent auditoriums roomId event targetFetch profile) w = (Returned, w).
Proof.
  intros [Hno|[Hr Hx]]; unfold onRoomEvent.
  - assert (isAuditorium auditoriums roomId = false) as Haud
      by (by apply bool_decide_eq_false_2).
    destruct (String.eqb (event_type event) "m.reaction").
    { apply run_tryAddReaction_dropped. unfold reactionVote. by rewrite Haud. }
    destruct (String.eqb (event_type event) "m.room.redaction"); [|done].
    unfold tryRemoveReaction, tryRemoveMessage. by rewrite Haud.
  - apply String.eqb_neq in Hr, Hx. by rewrite Hr, Hx.
Qed.

Lemma listener_ignores_witness :
  run (@onRoomEvent demo [hall] "!lobby:example.org" (reaction "$r1" "$m1" thumbsUp)
         GetEventRejects GetProfileRejects)
    {| engine := demoShown; lock := Some 7%nat; disk := ∅; warnings := []; history := [] |}
  = (Returned,
     {| engine := demoShown; lock := Some 7%nat; disk := ∅; warnings := [];
        history := [] |}).
Proof.
  apply (@listener_ignores demo [hall] "!lobby:example.org" (reaction "$r1" "$m1" thumbsUp)
           GetEventRejects GetProfileRejects).
  left. intros Hin. apply list_elem_of_singleton in Hin. discriminate Hin.
Defined.

(** ** The file and the tables *)

Section InSync.
Context `{Collaborators}.

Lemma in_sync_saved w files :
  disk w = saved (engine w) files -> in_sync w.
Proof.
  intros Hd. exists (engine w). split; [by rewrite Hd, saved_path|]. intros r. by left.
Qed.

Lemma foldl_loadRoom_own sb sb0 roomId :
  byRoom (foldl loadRoom sb (map_to_list (byRoom sb0))) !! roomId
  = match byRoom sb0 !! roomId with
    | Some scoreboard => Some scoreboard
    | None => byRoom sb !! roomId
    end.
Proof.
  destruct (byRoom sb0 !! roomId) as [scoreboard|] eqn:Hroom.
  - apply foldl_loadRoom_lookup.
    + apply NoDup_fst_map_to_list.
    + by apply elem_of_map_to_list.
  - apply foldl_loadRoom_notin. intros Hin.
    apply list_elem_of_fmap in Hin as ([k s] & -> & Hin).
    apply elem_of_map_to_list in Hin. simpl in Hroom. congruence.
Qed.
End InSync.

(** X15. The file follows the tables. When the file at the path holds a
    snapshot of the tables, it does so again after any operation: each
    method that changes a vote, a message or a countdown saves, and [load]
    of that file changes no entry. The one change that is not saved is the
    empty room that a reaction creates before it is dropped. *)
Theorem in_sync_preserved `{Collaborators} (op : Operation) (w : World) :
  lock w = None ->
  in_sync w ->
  in_sync (snd (run (task_of op) w)).
Proof.
  intros Hlock (sb0 & Hfile & Hrooms).
  destruct (run_result op w Hlock) as (sb & saved_ & Hres & He & _ & Hd).
  destruct Hres;
    try (apply (in_sync_saved _ (disk w)); by rewrite He).
  - exists sb0. rewrite Hd, He. done.
  - exists sb0. rewrite Hd, He. split; [done|]. intros r.
    destruct (decide (r = roomId)) as [->|Hne].
    + rewrite ensureRoom_lookup.
      destruct (Hrooms roomId) as [Hsame|[Hnone Hempty]].
      * destruct (byRoom (engine w) !! roomId) eqn:E; [by left|].
        right. by rewrite <- Hsame.
      * right. by rewrite Hempty.
    + rewrite ensureRoom_lookup_ne by done. apply Hrooms.
  - exists sb0. rewrite Hd, He. split; [done|]. intros r.
    assert (json = snapshot sb0) as -> by congruence.
    destruct (snapshot_rooms sb0) as [_ ->].
    rewrite loaded_encoded, foldl_loadRoom_own.
    destruct (byRoom sb0 !! r) eqn:E; [by left|].
    destruct (Hrooms r) as [Hsame|[Hnone Hempty]]; [left; congruence|by right].
Qed.

Lemma in_sync_preserved_witness :
  @in_sync demo
    (snd (run (@task_of demo
                 (OpAddReaction [hall] hall (reaction "$r1" "$M" thumbsUp)
                    (GetEventResolves None) GetProfileRejects))
            (idle (freshEngine (Some "example.org"))
               {[ "data/scoreboard.json"
                  := Document (snapshot (freshEngine (Some "example.org"))) ]}))).
Proof.
  apply (@in_sync_preserved demo
           (OpAddReaction [hall] hall (reaction "$r1" "$M" thumbsUp)
              (GetEventResolves None) GetProfileRejects)
           (idle (freshEngine (Some "example.org"))
              {[ "data/scoreboard.json"
                 := Document (snapshot (freshEngine (Some "example.org"))) ]})).
  - reflexivity.
  - exists (freshEngine (Some "example.org")). split; [reflexivity|]. intros r. by left.
Defined.

(** ** Votes on a tracked question *)

(** X16. A vote on a tracked question asks the homeserver nothing: when
    the room tracks the target, what [tryAddReaction] does is the same
    whatever [getEvent] and [getUserProfile] would answer, a rejection
    included. The sender and the text of a tracked question are never
    fetched again. *)
Theorem tracked_vote_needs_no_fetch `{Collaborators} (auditoriums : list string)
    (roomId : string) (event : RoomEvent) (targetFetch targetFetch' : GetEventResult)
    (profile profile' : GetProfileResult) (w : World) (target : string) (isUpvote : bool)
    (scoreboard : RoomScoreboard) (m : RoomMessage) :
  reactionVote auditoriums roomId event = Some (target, isUpvote) ->
  byRoom (engine w) !! roomId = Some scoreboard ->
  find (has_eventId target) (messages scoreboard) = Some m ->
  run (tryAddReaction auditoriums roomId event targetFetch profile) w
  = run (tryAddReaction auditoriums roomId event targetFetch' profile') w.
Proof.
  intros Hvote Hroom Hfind. unfold tryAddReaction. rewrite Hvote. cbn [run].
  destruct (lock w); [done|]. simpl.
  by rewrite (ensureRoom_present _ _ _ Hroom), Hroom, Hfind.
Qed.

Lemma tracked_vote_needs_no_fetch_witness :
  run (@tryAddReaction demo [hall] hall (reaction "$r1" "$m1" thumbsUp)
         GetEventRejects GetProfileRejects) (idle demoShown ∅)
  = run (@tryAddReaction demo [hall] hall (reaction "$r1" "$m1" thumbsUp)
           (GetEventResolves (Some demoTarget)) demoProfile) (idle demoShown ∅).
Proof.
  apply (@tracked_vote_needs_no_fetch demo [hall] hall (reaction "$r1" "$m1" thumbsUp)
           GetEventRejects (GetEventResolves (Some demoTarget))
           GetProfileRejects demoProfile (idle demoShown ∅) "$m1" true demoRoom
           (question "$m1" "first" "@a:example.org" ["$u1"; "$u2"; "$u3"] []));
    reflexivity.
Defined.

(** ** Votes on two questions *)

Section Commute.
Context `{Collaborators}.

Lemma update_found_comm {A : Type} (p q : A -> bool) (f g : A -> A) l :
  (∀ x, p x = true -> q x = false) ->
  (∀ x, p (g x) = p x) -> (∀ x, q (f x) = q x) ->
  update_found p f (update_found q g l) = update_found q g (update_found p f l).
Proof.
  intros Hpq Hpg Hqf. induction l as [|x l IH]; simpl; [done|].
  destruct (p x) eqn:Ep, (q x) eqn:Eq; simpl.
  - by rewrite (Hpq x Ep) in Eq.
  - by rewrite Ep, Hqf, Eq.
  - by rewrite Hpg, Ep, Eq.
  - by rewrite Ep, Eq, IH.
Qed.

Lemma find_update_found_ne {A : Type} (p q : A -> bool) (f : A -> A) l m :
  (∀ x, p x = true -> q x = false) -> (∀ x, q (f x) = q x) ->
  find q l = Some m -> find q (update_found p f l) = Some m.
Proof.
  intros Hpq Hqf. induction l as [|x l IH]; simpl; [done|].
  destruct (p x) eqn:Ep; simpl.
  - rewrite Hqf, (Hpq x Ep). done.
  - destruct (q x); [done|]. apply IH.
Qed.

Lemma has_eventId_ne t1 t2 x :
  t1 ≠ t2 -> has_eventId t1 x = true -> has_eventId t2 x = false.
Proof.
  unfold has_eventId. intros Hne H1%String.eqb_eq. apply String.eqb_neq. congruence.
Qed.

Lemma Scoreboard_eq (a b : Scoreboard) :
  byRoom a = byRoom b -> byRoomCached a = byRoomCached b -> domain a = domain b -> a = b.
Proof. destruct a, b. simpl. by intros -> -> ->. Qed.

(** Two votes, one after the other, as a change of the tables. *)
Lemma two_votes auditoriums roomId e1 e2 f1 f2 p1 p2 w t1 t2 (u1 u2 : bool) scoreboard
    m1 m2 :
  lock w = None ->
  reactionVote auditoriums roomId e1 = Some (t1, u1) ->
  reactionVote auditoriums roomId e2 = Some (t2, u2) ->
  t1 ≠ t2 ->
  byRoom (engine w) !! roomId = Some scoreboard ->
  find (has_eventId t1) (messages scoreboard) = Some m1 ->
  find (has_eventId t2) (messages scoreboard) = Some m2 ->
  let w1 := snd (run (tryAddReaction auditoriums roomId e1 f1 p1) w) in
  let w2 := snd (run (tryAddReaction auditoriums roomId e2 f2 p2) w1) in
  let after :=
    set_messages (λ ms, update_found (has_eventId t2) (pushVote u2 (event_id e2))
                          (update_found (has_eventId t1) (pushVote u1 (event_id e1)) ms))
      scoreboard in
  byRoom (engine w2) = <[roomId := after]> (byRoom (engine w))
  ∧ byRoomCached (engine w2)
    = <[roomId := rankRoom roomId (domain (engine w)) after]> (byRoomCached (engine w))
  ∧ domain (engine w2) = domain (engine w)
  ∧ disk w2 !! path = Some (Document (snapshot (engine w2))).
Proof.
  intros Hlock Hv1 Hv2 Hne Hroom Hf1 Hf2 w1 w2 after.
  destruct (run_tryAddReaction_tracked auditoriums roomId e1 f1 p1 w t1 u1 scoreboard m1
              Hlock Hv1 Hroom Hf1) as (w1' & Hrun1 & He1 & Hl1 & _).
  assert (w1 = w1') as -> by (unfold w1; by rewrite Hrun1).
  set (s1 := set_messages (update_found (has_eventId t1) (pushVote u1 (event_id e1)))
               scoreboard).
  assert (byRoom (recordVote roomId t1 u1 (event_id e1) (engine w)) !! roomId = Some s1)
    as Hs1.
  { unfold recordVote. by rewrite update_room_lookup, Hroom. }
  assert (byRoom (engine w1') !! roomId = Some s1) as Hroom1
    by (by rewrite He1, recalculated_byRoom).
  destruct (run_tryAddReaction_tracked auditoriums roomId e2 f2 p2 w1' t2 u2 s1 m2
              Hl1 Hv2 Hroom1) as (w2' & Hrun2 & He2 & _ & Hd2 & _).
  { simpl. apply find_update_found_ne; [|by intros x; destruct u1|done].
    intros x. by apply has_eventId_ne. }
  assert (w2 = w2') as -> by (unfold w2; by rewrite Hrun2).
  assert (byRoom (recordVote roomId t2 u2 (event_id e2) (engine w1')) !! roomId
          = Some after) as Hs2.
  { unfold recordVote. by rewrite update_room_lookup, Hroom1. }
  assert (byRoom (engine w2') = <[roomId := after]> (byRoom (engine w))) as Hby.
  { rewrite He2, recalculated_byRoom. apply map_eq. intros r.
    destruct (decide (r = roomId)) as [->|Hr].
    - by rewrite Hs2, lookup_insert_eq.
    - unfold recordVote at 1. rewrite update_room_lookup_ne by done.
      rewrite He1, recalculated_byRoom. unfold recordVote.
      by rewrite update_room_lookup_ne, lookup_insert_ne. }
  split; [done|].
  assert (domain (engine w1') = domain (engine w)) as Hdom1
    by (by rewrite He1, recalculated_domain).
  split; [|split; [by rewrite He2, recalculated_domain|by rewrite Hd2, saved_path]].
  rewrite He2. unfold recalculated at 1, calculateRoom. rewrite Hs2. simpl.
  rewrite Hdom1, He1. unfold recalculated, calculateRoom. rewrite Hs1. simpl.
  by rewrite insert_insert_eq.
Qed.
End Commute.

(** X17. Votes on different questions commute. Two reactions on two
    tracked questions of a room leave the same tables, the same views and
    the same file whichever of them is handled first. *)
Theorem votes_commute `{Collaborators} (auditoriums : list string) (roomId : string)
    (e1 e2 : RoomEvent) (f1 f2 : GetEventResult) (p1 p2 : GetProfileResult) (w : World)
    (t1 t2 : string) (u1 u2 : bool) (scoreboard : RoomScoreboard) (m1 m2 : RoomMessage) :
  lock w = None ->
  reactionVote auditoriums roomId e1 = Some (t1, u1) ->
  reactionVote auditoriums roomId e2 = Some (t2, u2) ->
  t1 ≠ t2 ->
  byRoom (engine w) !! roomId = Some scoreboard ->
  find (has_eventId t1) (messages scoreboard) = Some m1 ->
  find (has_eventId t2) (messages scoreboard) = Some m2 ->
  let vote1 := tryAddReaction auditoriums roomId e1 f1 p1 in
  let vote2 := tryAddReaction auditoriums roomId e2 f2 p2 in
  let w12 := snd (run vote2 (snd (run vote1 w))) in
  let w21 := snd (run vote1 (snd (run vote2 w))) in
  engine w12 = engine w21 ∧ disk w12 !! path = disk w21 !! path.
Proof.
  intros Hlock Hv1 Hv2 Hne Hroom Hf1 Hf2 vote1 vote2 w12 w21.
  destruct (two_votes auditoriums roomId e1 e2 f1 f2 p1 p2 w t1 t2 u1 u2 scoreboard m1 m2
              Hlock Hv1 Hv2 Hne Hroom Hf1 Hf2) as (Hby & Hcached & Hdom & Hdisk).
  destruct (two_votes auditoriums roomId e2 e1 f2 f1 p2 p1 w t2 t1 u2 u1 scoreboard m2 m1
              Hlock Hv2 Hv1 (not_eq_sym Hne) Hroom Hf2 Hf1)
    as (Hby' & Hcached' & Hdom' & Hdisk').
  fold vote1 vote2 in Hby, Hcached, Hdom, Hdisk, Hby', Hcached', Hdom', Hdisk'.
  fold w12 in Hby, Hcached, Hdom, Hdisk. fold w21 in Hby', Hcached', Hdom', Hdisk'.
  assert (update_found (has_eventId t2) (pushVote u2 (event_id e2))
            (update_found (has_eventId t1) (pushVote u1 (event_id e1)) (messages scoreboard))
          = update_found (has_eventId t1) (pushVote u1 (event_id e1))
              (update_found (has_eventId t2) (pushVote u2 (event_id e2))
                 (messages scoreboard))) as Hcomm.
  { apply update_found_comm.
    - intros x. by apply has_eventId_ne.
    - intros x. by destruct u1.
    - intros x. by destruct u2. }
  assert (engine w12 = engine w21) as He.
  { apply Scoreboard_eq.
    - rewrite Hby, Hby'. unfold set_messages. simpl. by rewrite Hcomm.
    - rewrite Hcached, Hcached'. unfold set_messages. simpl. by rewrite Hcomm.
    - by rewrite Hdom, Hdom'. }
  split; [done|]. by rewrite Hdisk, Hdisk', He.
Qed.

Lemma votes_commute_witness :
  let vote1 := @tryAddReaction demo [hall] hall (reaction "$r1" "$m1" thumbsUp)
                 GetEventRejects GetProfileRejects in
  let vote2 := @tryAddReaction demo [hall] hall (reaction "$r2" "$m3" thumbsDown)
                  GetEventRejects GetProfileRejects in
  let w12 := snd (run vote2 (snd (run vote1 (idle demoShown ∅)))) in
  let w21 := snd (run vote1 (snd (run vote2 (idle demoShown ∅)))) in
  engine w12 = engine w21
  ∧ disk w12 !! "data/scoreboard.json" = disk w21 !! "data/scoreboard.json".
Proof.
  apply (@votes_commute demo [hall] hall (reaction "$r1" "$m1" thumbsUp)
           (reaction "$r2" "$m3" thumbsDown) GetEventRejects GetEventRejects
           GetProfileRejects GetProfileRejects (idle demoShown ∅)
           "$m1" "$m3" true false demoRoom
           (question "$m1" "first" "@a:example.org" ["$u1"; "$u2"; "$u3"] [])
           (question "$m3" "third" "@c:example.org"
              ["$u7"; "$u8"; "$u9"; "$u10"; "$u11"] ["$d1"]));
    try reflexivity.
  discriminate.
Defined.

(** ** A reaction that is delivered twice *)

Section Twice.
Context `{Collaborators}.

Lemma update_found_twice {A : Type} (p : A -> bool) (f : A -> A) l :
  (∀ x, p (f x) = p x) ->
  update_found p f (update_found p f l) = update_found p (f ∘ f) l.
Proof.
  intros Hp. induction l as [|x l IH]; simpl; [done|].
  destruct (p x) eqn:E; simpl.
  - by rewrite Hp, E.
  - by rewrite E, IH.
Qed.

Lemma update_found_fuse {A : Type} (p q : A -> bool) (f g f' : A -> A) l :
  (∀ x, x ∈ l -> q x = false) ->
  (∀ x, x ∈ l -> p x = true -> q (f x) = true ∧ g (f x) = f' x) ->
  update_found q g (update_found p f l) = update_found p f' l.
Proof.
  induction l as [|x l IH]; simpl; intros Hq Hp; [done|].
  destruct (p x) eqn:E; simpl.
  - destruct (Hp x (list_elem_of_here _ _) E) as [-> ->]. done.
  - rewrite (Hq x (list_elem_of_here _ _)). f_equal. apply IH.
    + intros y Hy. apply Hq. by right.
    + intros y Hy. apply Hp. by right.
Qed.

Lemma splice_id_twice id ids : id ∉ ids -> splice_id id ((ids ++ [id]) ++ [id]) = ids ++ [id].
Proof.
  unfold splice_id. induction ids as [|x ids IH]; simpl; intros Hin.
  - by rewrite String.eqb_refl.
  - apply not_elem_of_cons in Hin as [Hne Hin].
    destruct (String.eqb_spec id x); [done|]. by rewrite IH.
Qed.

(** One redaction takes one of the two copies of the id away. *)
Lemma removeVote_recordVote_twice target (isUpvote : bool) id ms :
  (∀ m, m ∈ ms -> (id ∉ activeUpvoteIds m) ∧ (id ∉ activeDownvoteIds m)) ->
  update_found (has_downvote id) (set_downvotes (splice_id id))
    (update_found (has_upvote id) (set_upvotes (splice_id id))
       (update_found (has_eventId target) (pushVote isUpvote id)
          (update_found (has_eventId target) (pushVote isUpvote id) ms)))
  = update_found (has_eventId target) (pushVote isUpvote id) ms.
Proof.
  intros Hfresh.
  rewrite update_found_twice by (intros x; by destruct isUpvote).
  destruct isUpvote.
  - rewrite (update_found_fuse (has_eventId target) (has_upvote id) _ _ (pushVote true id)).
    + apply update_found_miss, find_update_found_other. intros m Hm.
      split; apply bool_decide_eq_false_2, (Hfresh m Hm).
    + intros m Hm. apply bool_decide_eq_false_2, (Hfresh m Hm).
    + intros m Hm _. split.
      * apply bool_decide_eq_true_2. simpl. apply elem_of_app. right. by left.
      * destruct m. unfold set_upvotes. simpl. rewrite splice_id_twice; [done|].
        apply (Hfresh _ Hm).
  - rewrite (update_found_miss (has_upvote id)).
    + apply update_found_fuse.
      * intros m Hm. apply bool_decide_eq_false_2, (Hfresh m Hm).
      * intros m Hm _. split.
        -- apply bool_decide_eq_true_2. simpl. apply elem_of_app. right. by left.
        -- destruct m. unfold set_downvotes. simpl. rewrite splice_id_twice; [done|].
           apply (Hfresh _ Hm).
    + apply find_update_found_other. intros m Hm.
      split; apply bool_decide_eq_false_2, (Hfresh m Hm).
Qed.
End Twice.

(** X18. One redaction undoes one delivery. When a reaction on a tracked
    message, with an id that is in no vote list of the room yet, is handled
    twice and then redacted once, the vote tables are those after a single
    delivery: the vote still counts once. *)
Theorem twice_then_redaction `{Collaborators} (auditoriums : list string) (roomId : string)
    (event undo : RoomEvent) (targetFetch : GetEventResult) (profile : GetProfileResult)
    (w : World) (target : string) (isUpvote : bool) (scoreboard : RoomScoreboard)
    (m : RoomMessage) :
  lock w = None ->
  reactionVote auditoriums roomId event = Some (target, isUpvote) ->
  byRoom (engine w) !! roomId = Some scoreboard ->
  find (has_eventId target) (messages scoreboard) = Some m ->
  (∀ m', m' ∈ messages scoreboard ->
     (event_id event ∉ activeUpvoteIds m') ∧ (event_id event ∉ activeDownvoteIds m')) ->
  redacted undo = Some (event_id event) ->
  let add := tryAddReaction auditoriums roomId event targetFetch profile in
  let w1 := snd (run add w) in
  let w2 := snd (run add w1) in
  let w3 := snd (run (tryRemoveReaction auditoriums roomId undo) w2) in
  byRoom (engine w3) = byRoom (engine w1)
  ∧ (∃ m1, votesOn (engine w3) roomId target
           = Some (activeUpvoteIds m1, activeDownvoteIds m1)
         ∧ m1 = pushVote isUpvote (event_id event) m
         ∧ score m1 = score m + (if isUpvote then 1 else -1)).
Proof.
  intros Hlock Hvote Hroom Hfind Hfresh Hundo add w1 w2 w3.
  assert (roomId ∈ auditoriums) as Haud.
  { unfold reactionVote, isAuditorium in Hvote.
    destruct (decide (roomId ∈ auditoriums)) as [|Hno]; [done|].
    by rewrite bool_decide_eq_false_2 in Hvote. }
  set (push := update_found (has_eventId target) (pushVote isUpvote (event_id event))).
  destruct (run_tryAddReaction_tracked auditoriums roomId event targetFetch profile w
              target isUpvote scoreboard m Hlock Hvote Hroom Hfind)
    as (w1' & Hrun1 & He1 & Hl1 & _).
  assert (w1 = w1') as -> by (unfold w1, add; by rewrite Hrun1).
  assert (byRoom (engine w1') !! roomId = Some (set_messages push scoreboard)) as Hroom1.
  { rewrite He1, recalculated_byRoom. unfold recordVote.
    by rewrite update_room_lookup, Hroom. }
  assert (find (has_eventId target) (messages (set_messages push scoreboard))
          = Some (pushVote isUpvote (event_id event) m)) as Hfind1.
  { simpl. apply find_update_found; [done|].
    rewrite has_eventId_pushVote. by eapply find_has_eventId. }
  destruct (run_tryAddReaction_tracked auditoriums roomId event targetFetch profile w1'
              target isUpvote _ _ Hl1 Hvote Hroom1 Hfind1)
    as (w2' & Hrun2 & He2 & Hl2 & _).
  assert (w2 = w2') as -> by (unfold w2, add; by rewrite Hrun2).
  assert (byRoom (engine w2') !! roomId
          = Some (set_messages push (set_messages push scoreboard))) as Hroom2.
  { rewrite He2, recalculated_byRoom. unfold recordVote.
    by rewrite update_room_lookup, Hroom1. }
  destruct (run_tryRemoveReaction_hit auditoriums roomId undo w2' (event_id event)
              _ Hl2 Haud Hundo Hroom2) as (w3' & Hrun3 & He3 & _).
  { simpl. unfold push. destruct isUpvote; [left|right];
      apply (find_update_found_hit _ _ _ _ _ Hfind1); intros x;
      apply bool_decide_eq_true_2; simpl; apply elem_of_app; right; by left. }
  assert (w3 = w3') as -> by (unfold w3; by rewrite Hrun3).
  assert (byRoom (engine w3') = byRoom (engine w1')) as Hsame.
  { rewrite He3, recalculated_byRoom. apply map_eq. intros r.
    destruct (decide (r = roomId)) as [->|Hne].
    - unfold removeVote. rewrite update_room_lookup, Hroom2, Hroom1. simpl.
      f_equal. destruct scoreboard as [qa ms]. unfold set_messages. simpl. f_equal.
      by apply removeVote_recordVote_twice.
    - unfold removeVote. rewrite update_room_lookup_ne by done.
      rewrite He2, recalculated_byRoom. unfold recordVote.
      by rewrite update_room_lookup_ne. }
  split; [done|].
  exists (pushVote isUpvote (event_id event) m).
  split; [|split; [done|apply score_pushVote]].
  unfold votesOn. rewrite Hsame, Hroom1. simpl. fold push.
  simpl in Hfind1. by rewrite Hfind1.
Qed.

Lemma twice_then_redaction_witness :
  let add := @tryAddReaction demo [hall] hall (reaction "$r1" "$m2" thumbsUp)
               GetEventRejects GetProfileRejects in
  let w1 := snd (run add (idle demoShown ∅)) in
  let w2 := snd (run add w1) in
  let w3 := snd (run (@tryRemoveReaction demo [hall] hall (redaction "$x1" "$r1")) w2) in
  byRoom (engine w3) = byRoom (engine w1)
  ∧ (∃ m1, votesOn (engine w3) hall "$m2"
           = Some (activeUpvoteIds m1, activeDownvoteIds m1)
         ∧ m1 = pushVote true "$r1"
                  (question "$m2" "second" "@b:example.org" ["$u4"; "$u5"; "$u6"] [])
         ∧ score m1
           = score (question "$m2" "second" "@b:example.org" ["$u4"; "$u5"; "$u6"] []) + 1).
Proof.
  apply (@twice_then_redaction demo [hall] hall (reaction "$r1" "$m2" thumbsUp)
           (redaction "$x1" "$r1") GetEventRejects GetProfileRejects (idle demoShown ∅)
           "$m2" true demoRoom
           (question "$m2" "second" "@b:example.org" ["$u4"; "$u5"; "$u6"] [])).
  - reflexivity.
  - reflexivity.
  - reflexivity.
  - reflexivity.
  - intros m' Hm.
    repeat (apply elem_of_cons in Hm as [->|Hm]);
      [..|by apply elem_of_nil in Hm];
      split; intros Hin;
      repeat (apply elem_of_cons in Hin as [Hin|Hin]; [discriminate Hin|]);
      by apply elem_of_nil in Hin.
  - reflexivity.
Defined.
